(** * Winston-Lutz batch runner and DVH constraint scorer

    A shallow embedding of
      - [pymedphys/_experimental/streamlit/apps/wlutz/_calculation.py]
      - [pymedphys/_experimental/streamlit/apps/transfer_check.py]
    together with the properties of the design document that concern them.

    Conventions of the embedding.
      - A Python [float] is an IEEE-754 binary64 value, modelled by the
        Standard Library's [spec_float] at precision 53 and maximal
        exponent 1024, so that NaN, infinities and signed zeros are the
        real ones.
      - An exception is a value of [exn]; a computation that may raise
        returns a [result].
      - A pandas [DataFrame] is a list of column labels and a list of rows,
        every row a list of cells laid out along the labels.
      - The collaborators that live outside these two files (image
        decoding, field and ball-bearing search, the third-party detector,
        the DVH object, the pandas reductions) are fields of a record or
        variables of a section: the theorems hold for every behaviour of
        them. *)

From Stdlib Require Import ZArith List String Ascii Bool Lia Arith.
From Stdlib Require Import Floats.SpecFloat.
From Stdlib Require Import Sorting.Permutation.
Import ListNotations.
Local Open Scope string_scope.
Local Open Scope list_scope.

Set Implicit Arguments.

(* ===================================================================== *)
(** ** Binary64 floats *)
(* ===================================================================== *)

Module Float64.

Definition prec : Z := 53.
Definition emax : Z := 1024.

Definition float := spec_float.

Definition nan : float := S754_nan.

(** The float nearest to [m * 2^e]. *)
Definition of_scaled (m e : Z) : float := binary_normalize prec emax m e false.
Definition of_Z (z : Z) : float := of_scaled z 0.

Definition add : float -> float -> float := SFadd prec emax.
Definition sub : float -> float -> float := SFsub prec emax.
Definition mul : float -> float -> float := SFmul prec emax.
Definition div : float -> float -> float := SFdiv prec emax.

(** Python's [==] on two floats. *)
Definition eqb : float -> float -> bool := SFeqb.

Definition is_nan (x : float) : bool :=
  match x with S754_nan => true | _ => false end.

Definition is_finite (x : float) : bool :=
  match x with S754_zero _ | S754_finite _ _ _ => true | _ => false end.

(** Structural equality of the representation. *)
Definition same (x y : float) : bool :=
  match x, y with
  | S754_zero a, S754_zero b => Bool.eqb a b
  | S754_infinity a, S754_infinity b => Bool.eqb a b
  | S754_nan, S754_nan => true
  | S754_finite a m e, S754_finite b n f =>
      Bool.eqb a b && Pos.eqb m n && Z.eqb e f
  | _, _ => false
  end.

Lemma same_spec x y : same x y = true <-> x = y.
Proof.
  destruct x as [a|a| |a m e], y as [b|b| |b n f]; simpl;
    try (split; [discriminate | congruence]);
    try (rewrite Bool.eqb_true_iff; split; congruence).
  - split; reflexivity.
  - rewrite !andb_true_iff, Bool.eqb_true_iff, Pos.eqb_eq, Z.eqb_eq.
    split; [intros [[-> ->] ->]; reflexivity | intros H; inversion H; auto].
Qed.

(** [x == nan] is false whatever [x] is. *)
Lemma eqb_nan_r x : eqb x nan = false.
Proof. destruct x; reflexivity. Qed.

End Float64.

Definition float : Type := Float64.float.

(* ===================================================================== *)
(** ** Exceptions *)
(* ===================================================================== *)

Inductive exn : Type :=
| KeyError (key : string)
| ValueError (msg : string)
| IndexError
| OtherError (msg : string).

Inductive result (A : Type) : Type :=
| Ok (a : A)
| Raise (e : exn).
Arguments Ok {A} a.
Arguments Raise {A} e.

Definition rbind {A B} (r : result A) (k : A -> result B) : result B :=
  match r with
  | Ok a => k a
  | Raise e => Raise e
  end.

Declare Scope result_scope.
Delimit Scope result_scope with result.
Notation "'let?' x ':=' r 'in' k" := (rbind r (fun x => k))
  (at level 10, x name, r at level 100, k at level 200) : result_scope.
Notation "'let?' ' pat ':=' r 'in' k" :=
  (rbind r (fun x => match x with pat => k end))
  (at level 10, pat pattern, r at level 100, k at level 200) : result_scope.

(** [try: r except ValueError: h]. *)
Definition except_ValueError {A} (r : result A) (h : A) : result A :=
  match r with
  | Raise (ValueError _) => Ok h
  | _ => r
  end.

(** [d[k]] on a dictionary given by its items. *)
Fixpoint dict_get {V} (d : list (string * V)) (k : string) : result V :=
  match d with
  | [] => Raise (KeyError k)
  | (k', v) :: d' => if String.eqb k' k then Ok v else dict_get d' k
  end.

(* ===================================================================== *)
(** ** The field and ball-bearing locator ([_calculation.py]) *)
(* ===================================================================== *)

Module Locator.

Local Open Scope result_scope.

(** A centre is a pair [[x, y]]. *)
Definition point : Type := float * float.

Definition nan_point : point := (Float64.nan, Float64.nan).

(** The collaborators of the locator.  [imread ... create_interpolated_field]
    decode an image into its axes, pixel grid and interpolated field;
    the three searches may raise, a [ValueError] being their way to say
    that they did not converge. *)
Record Collaborators : Type := {
  Axis : Type;
  Image : Type;
  Field : Type;
  RawImage : Type;
  imread : string -> RawImage;
  iview_image_transform : RawImage -> Axis * Axis * Image;
  create_interpolated_field : Axis -> Axis -> Image -> Field;
  get_centre_of_mass : Axis -> Axis -> Image -> point;
  field_centre_and_rotation_refining :
    Field -> list float -> float -> point -> result (point * float);
  optimise_bb_centre :
    Field -> float -> list float -> float -> point -> float -> result point;
  pylinac_version : string;
  (** [run_wlutz] answers with one entry per requested version, each
      holding ["field_centre"] and ["bb_centre"]. *)
  run_wlutz :
    Field -> list float -> float -> point -> float -> list string ->
    result (list (string * (point * point)))
}.

Section WithCollaborators.

Variable C : Collaborators.

(** The keyword arguments handed to an algorithm. *)
Record wlutz_input_parameters : Type := {
  bb_diameter : float;
  edge_lengths : list float;
  penumbra : float;
  x : Axis C;
  y : Axis C;
  image : Image C;
  field : Field C;
  pymedphys_field_centre : point;
  field_rotation : float
}.

Definition _load_image_field_interpolator (image_path : string)
  : Axis C * Axis C * Image C * Field C :=
  let raw_image := imread C image_path in
  let '(x, y, image) := iview_image_transform C raw_image in
  let field := create_interpolated_field C x y image in
  (x, y, image, field).

Definition _get_pymedphys_field_centre_and_rotation
    (image_path : string) (edge_lengths : list float) (penumbra : float)
  : result (point * float) :=
  let '(x, y, image, field) := _load_image_field_interpolator image_path in
  let initial_centre := get_centre_of_mass C x y image in
  except_ValueError
    (field_centre_and_rotation_refining C field edge_lengths penumbra
       initial_centre)
    (nan_point, Float64.nan).

(** The dictionary of [_get_field_parameters], as the tuple of its values:
    [x], [y], [image], [field], [pymedphys_field_centre],
    [field_rotation]. *)
Definition _get_field_parameters
    (image_path : string) (edge_lengths : list float) (penumbra : float)
  : result (Axis C * Axis C * Image C * Field C * point * float) :=
  let '(x, y, image, field) := _load_image_field_interpolator image_path in
  let? '(field_centre, field_rotation) :=
    _get_pymedphys_field_centre_and_rotation image_path edge_lengths penumbra in
  Ok (x, y, image, field, field_centre, field_rotation).

Definition _get_wlutz_input_parameters
    (image_path : string) (bb_diameter : float)
    (edge_lengths : list float) (penumbra : float)
  : result wlutz_input_parameters :=
  let? '(x, y, image, field, field_centre, field_rotation) :=
    _get_field_parameters image_path edge_lengths penumbra in
  Ok {| bb_diameter := bb_diameter;
        edge_lengths := edge_lengths;
        penumbra := penumbra;
        x := x; y := y; image := image; field := field;
        pymedphys_field_centre := field_centre;
        field_rotation := field_rotation |}.

(** What an algorithm returns: field centre, field rotation, BB centre. *)
Definition located : Type := point * float * point.

Definition _pymedphys_wlutz_calculate (p : wlutz_input_parameters)
  : result located :=
  let field_centre := pymedphys_field_centre p in
  let? bb_centre :=
    except_ValueError
      (optimise_bb_centre C (field p) (bb_diameter p) (edge_lengths p)
         (penumbra p) field_centre (field_rotation p))
      nan_point in
  Ok (field_centre, field_rotation p, bb_centre).

Definition _pylinac_wlutz_calculate (p : wlutz_input_parameters)
  : result located :=
  let version_to_use := pylinac_version C in
  let? '(field_centre, bb_centre) :=
    except_ValueError
      (let? pylinac_results :=
         run_wlutz C (field p) (edge_lengths p) (penumbra p)
           (pymedphys_field_centre p) (field_rotation p) [version_to_use] in
       dict_get pylinac_results version_to_use)
      (nan_point, nan_point) in
  Ok (field_centre, field_rotation p, bb_centre).

Definition ALGORITHM_FUNCTION_MAP
  : list (string * (wlutz_input_parameters -> result located)) :=
  [ ("PyMedPhys", _pymedphys_wlutz_calculate);
    ("PyLinac", _pylinac_wlutz_calculate) ].

(** The guard of [_calculate_wlutz]: [field_rotation == np.nan]. *)
Definition rotation_is_nan_guard (p : wlutz_input_parameters) : bool :=
  Float64.eqb (field_rotation p) Float64.nan.

Definition _calculate_wlutz
    (image_path algorithm : string) (bb_diameter : float)
    (edge_lengths : list float) (penumbra : float)
  : result located :=
  let? p :=
    _get_wlutz_input_parameters image_path bb_diameter edge_lengths penumbra in
  if rotation_is_nan_guard p then
    Ok (nan_point, Float64.nan, nan_point)
  else
    let? calculate_function := dict_get ALGORITHM_FUNCTION_MAP algorithm in
    calculate_function p.

(** The four coordinate values of a detection: field centre x and y, BB
    centre x and y. *)
Definition coordinates (r : located) : list float :=
  let '((fx, fy), _, (bx, by_)) := r in [fx; fy; bx; by_].

(** All four finite, or all four NaN. *)
Definition all_or_nothing (r : located) : bool :=
  forallb Float64.is_finite (coordinates r)
  || forallb Float64.is_nan (coordinates r).

Definition field_centre_of (r : located) : point := fst (fst r).
Definition bb_centre_of (r : located) : point := snd r.

Definition point_is_nan (p : point) : bool :=
  Float64.is_nan (fst p) && Float64.is_nan (snd p).

Definition point_is_finite (p : point) : bool :=
  Float64.is_finite (fst p) && Float64.is_finite (snd p).

End WithCollaborators.

(** *** Collaborators for closed examples

    One image, whatever its path; the three searches answer with the given
    outcomes. *)
Definition scripted
    (refining : result (point * float)) (bb_search : result point)
    (third_party : result (list (string * (point * point)))) : Collaborators :=
  {| Axis := unit; Image := unit; Field := unit; RawImage := unit;
     imread := fun _ => tt;
     iview_image_transform := fun _ => (tt, tt, tt);
     create_interpolated_field := fun _ _ _ => tt;
     get_centre_of_mass := fun _ _ _ => (Float64.of_Z 0, Float64.of_Z 0);
     field_centre_and_rotation_refining := fun _ _ _ _ => refining;
     optimise_bb_centre := fun _ _ _ _ _ _ => bb_search;
     pylinac_version := "2.3.2";
     run_wlutz := fun _ _ _ _ _ _ => third_party |}.

Definition origin : point := (Float64.of_Z 0, Float64.of_Z 0).

(** The field is found at the origin, the ball bearing is not found. *)
Definition bb_not_found : Collaborators :=
  scripted (Ok (origin, Float64.of_Z 0))
           (Raise (ValueError "bb not found"))
           (Raise (ValueError "pylinac failed")).

(** The field refinement does not converge; the BB search still answers. *)
Definition field_not_found : Collaborators :=
  scripted (Raise (ValueError "no convergence"))
           (Ok origin)
           (Raise (ValueError "pylinac failed")).

(** Everything is found. *)
Definition all_found : Collaborators :=
  scripted (Ok (origin, Float64.of_Z 0))
           (Ok (Float64.of_Z 1, Float64.of_Z 2))
           (Ok [("2.3.2", (origin, (Float64.of_Z 1, Float64.of_Z 2)))]).

(** The input parameters of an image whose field was found at the origin. *)
Definition field_at_origin : wlutz_input_parameters bb_not_found :=
  @Build_wlutz_input_parameters bb_not_found
    (Float64.of_Z 8) [Float64.of_Z 10; Float64.of_Z 10] (Float64.of_Z 2)
    tt tt tt tt origin (Float64.of_Z 0).

(* --------------------------------------------------------------------- *)
(** *** Properties of the locator *)
(* --------------------------------------------------------------------- *)

(** With the field found at the origin and the BB search raising
    [ValueError], the PyMedPhys algorithm answers with a finite field
    centre and a NaN BB centre. *)
Lemma partial_detection_is_produced :
  _calculate_wlutz bb_not_found "image.jpg" "PyMedPhys"
    (Float64.of_Z 8) [Float64.of_Z 10; Float64.of_Z 10] (Float64.of_Z 2)
  = Ok (origin, Float64.of_Z 0, nan_point)
  /\ point_is_finite origin = true
  /\ point_is_nan nan_point = true
  /\ all_or_nothing (origin, Float64.of_Z 0, nan_point) = false.
Proof. repeat split. Qed.

(** C1, amended: a failed search degrades a centre as a pair.  With
    PyMedPhys the field centre is the one the field refinement gave
    (whatever the BB search does) and a BB search that raises [ValueError]
    gives a BB centre that is NaN in both coordinates; with PyLinac a
    [ValueError] of the third-party detector makes all four coordinates
    NaN. *)
Theorem failed_search_degrades_a_centre_pairwise
    (C : Collaborators) (p : wlutz_input_parameters C) :
  (forall r, _pymedphys_wlutz_calculate p = Ok r ->
     field_centre_of r = pymedphys_field_centre p)
  /\ (forall msg,
       optimise_bb_centre C (field p) (bb_diameter p) (edge_lengths p)
         (penumbra p) (pymedphys_field_centre p) (field_rotation p)
       = Raise (ValueError msg) ->
       _pymedphys_wlutz_calculate p
       = Ok (pymedphys_field_centre p, field_rotation p, nan_point))
  /\ (forall msg,
       run_wlutz C (field p) (edge_lengths p) (penumbra p)
         (pymedphys_field_centre p) (field_rotation p) [pylinac_version C]
       = Raise (ValueError msg) ->
       _pylinac_wlutz_calculate p = Ok (nan_point, field_rotation p, nan_point)
       /\ forallb Float64.is_nan
            (coordinates (nan_point, field_rotation p, nan_point)) = true).
Proof.
  split; [|split].
  - intros r. unfold _pymedphys_wlutz_calculate.
    destruct (optimise_bb_centre _ _ _ _ _ _ _) as [bb|[k|m| |m]]; simpl;
      intros H; inversion H; reflexivity.
  - intros msg H. unfold _pymedphys_wlutz_calculate. rewrite H. reflexivity.
  - intros msg H. unfold _pylinac_wlutz_calculate. rewrite H. split; reflexivity.
Qed.

Lemma failed_search_degrades_a_centre_pairwise_witness :
  _pymedphys_wlutz_calculate field_at_origin
  = Ok (origin, Float64.of_Z 0, nan_point).
Proof.
  exact (proj1 (proj2 (failed_search_degrades_a_centre_pairwise
    field_at_origin)) "bb not found" eq_refl).
Defined.

(** C10: the guard [field_rotation == np.nan] of [_calculate_wlutz] is
    false for every value of the rotation, NaN included, so the all-NaN
    shortcut is never taken: [_calculate_wlutz] always looks the algorithm
    up and calls it on the input parameters.  In particular, when the field
    refinement has raised [ValueError] and the parameters carry a NaN field
    centre and a NaN rotation, the algorithm is still called on them. *)
Theorem nan_guard_never_fires
    (C : Collaborators) (image_path algorithm : string) (bb : float)
    (el : list float) (pen : float) :
  (forall p : wlutz_input_parameters C, rotation_is_nan_guard p = false)
  /\ _calculate_wlutz C image_path algorithm bb el pen
     = (let? p := _get_wlutz_input_parameters C image_path bb el pen in
        let? calculate_function :=
          dict_get (ALGORITHM_FUNCTION_MAP C) algorithm in
        calculate_function p)%result
  /\ (forall msg,
       (let '(x, y, image, field) := _load_image_field_interpolator C image_path in
        field_centre_and_rotation_refining C field el pen
          (get_centre_of_mass C x y image)) = Raise (ValueError msg) ->
       exists p,
         _get_wlutz_input_parameters C image_path bb el pen = Ok p
         /\ pymedphys_field_centre p = nan_point
         /\ field_rotation p = Float64.nan
         /\ _calculate_wlutz C image_path "PyMedPhys" bb el pen
            = _pymedphys_wlutz_calculate p
         /\ _calculate_wlutz C image_path "PyLinac" bb el pen
            = _pylinac_wlutz_calculate p).
Proof.
  assert (G : forall p : wlutz_input_parameters C, rotation_is_nan_guard p = false).
  { intros p. unfold rotation_is_nan_guard. apply Float64.eqb_nan_r. }
  split; [exact G|]. split.
  - unfold _calculate_wlutz.
    destruct (_get_wlutz_input_parameters C image_path bb el pen) as [p|e];
      simpl; [rewrite G|]; reflexivity.
  - intros msg. unfold _calculate_wlutz, _get_wlutz_input_parameters,
      _get_field_parameters, _get_pymedphys_field_centre_and_rotation.
    destruct (_load_image_field_interpolator C image_path) as [[[x0 y0] im] fl].
    intros H. rewrite H. simpl. eexists. split; [reflexivity|].
    repeat split.
Qed.

Lemma nan_guard_never_fires_witness :
  _calculate_wlutz field_not_found "image.jpg" "PyMedPhys"
    (Float64.of_Z 8) [Float64.of_Z 10; Float64.of_Z 10] (Float64.of_Z 2)
  = Ok (nan_point, Float64.nan, origin).
Proof.
  destruct (proj2 (proj2 (nan_guard_never_fires field_not_found "image.jpg"
    "PyMedPhys" (Float64.of_Z 8) [Float64.of_Z 10; Float64.of_Z 10]
    (Float64.of_Z 2))) "no convergence" eq_refl) as [p [Hp [_ [_ [H _]]]]].
  rewrite H. inversion Hp. reflexivity.
Defined.

End Locator.

(* ===================================================================== *)
(** ** The part of pandas the two files use *)
(* ===================================================================== *)

Module Pandas.

(** A cell holds a string or a number; a missing value is the number NaN. *)
Inductive cell : Type :=
| Str (s : string)
| Num (x : float).

Definition NaN : cell := Num Float64.nan.

Definition cell_eq_dec (a b : cell) : {a = b} + {a <> b}.
Proof.
  decide equality.
  - apply string_dec.
  - destruct (Float64.same x x0) eqn:E.
    + left. apply Float64.same_spec. exact E.
    + right. intros H. apply Float64.same_spec in H. congruence.
Defined.

(** pandas compares values through hash tables when it looks for
    duplicates, unique values or merge keys: there NaN equals NaN and
    [0.0] equals [-0.0].  [normal] picks one representative per class. *)
Definition normal (c : cell) : cell :=
  match c with
  | Num (S754_zero _) => Num (S754_zero false)
  | _ => c
  end.

Definition cell_eqb (a b : cell) : bool :=
  if cell_eq_dec (normal a) (normal b) then true else false.

(** The element-wise [series == s] against a Python string. *)
Definition cell_equals_str (c : cell) (s : string) : bool :=
  match c with
  | Str t => String.eqb t s
  | Num _ => false
  end.

Definition row : Type := list cell.

Definition row_key (r : row) : row := map normal r.

Definition row_eq_dec : forall a b : row, {a = b} + {a <> b} :=
  list_eq_dec cell_eq_dec.

Record DataFrame : Type := {
  columns : list string;
  rows : list row
}.

(** [pd.DataFrame()]: no column, no row. *)
Definition empty_frame : DataFrame := {| columns := []; rows := [] |}.

Definition has_label (label : string) (labels : list string) : bool :=
  existsb (String.eqb label) labels.

Fixpoint position (label : string) (labels : list string) : option nat :=
  match labels with
  | [] => None
  | l :: rest =>
      if String.eqb l label then Some 0
      else option_map S (position label rest)
  end.

(** The cell of a row under a label; NaN where the row has none. *)
Definition at_label (labels : list string) (r : row) (label : string) : cell :=
  match position label labels with
  | Some i => nth i r NaN
  | None => NaN
  end.

(** [df[label]]. *)
Definition getitem (df : DataFrame) (label : string) : result (list cell) :=
  match position label (columns df) with
  | Some i => Ok (map (fun r => nth i r NaN) (rows df))
  | None => Raise (KeyError label)
  end.

Fixpoint first_missing (labels have : list string) : option string :=
  match labels with
  | [] => None
  | l :: rest => if has_label l have then first_missing rest have else Some l
  end.

(** [df[labels]]: the frame restricted to the labels, in their order; a
    [KeyError] when one of them is not a column. *)
Definition getitems (df : DataFrame) (labels : list string) : result DataFrame :=
  match first_missing labels (columns df) with
  | Some l => Raise (KeyError l)
  | None =>
      Ok {| columns := labels;
            rows := map (fun r => map (at_label (columns df) r) labels) (rows df) |}
  end.

(** [df.loc[mask]] for a mask computed row by row. *)
Definition loc (df : DataFrame) (mask : row -> bool) : DataFrame :=
  {| columns := columns df; rows := filter mask (rows df) |}.

(** The labels of [pd.concat([a, b])]: those of [a], then the new ones of
    [b]. *)
Definition union_labels (a b : list string) : list string :=
  a ++ filter (fun l => negb (has_label l a)) b.

Definition reindex (from to : list string) (r : row) : row :=
  map (at_label from r) to.

(** [pd.concat([a, b])], also [a.append(b)]: rows of [a] then rows of [b],
    laid out along the union of the labels, NaN where a frame lacks a
    column. *)
Definition concat (a b : DataFrame) : DataFrame :=
  let labels := union_labels (columns a) (columns b) in
  {| columns := labels;
     rows := map (reindex (columns a) labels) (rows a)
             ++ map (reindex (columns b) labels) (rows b) |}.

Fixpoint remove_at {A} (i : nat) (l : list A) : list A :=
  match i, l with
  | _, [] => []
  | 0, _ :: t => t
  | S j, h :: t => h :: remove_at j t
  end.

(** [left.merge(right, left_on=key, right_on=key)]: the inner join on one
    key column, each left row followed by the other columns of every right
    row with the same key, in the order of the left rows.  The frames are
    taken to share no label but the key (pandas would rename the others). *)
Definition merge (left right : DataFrame) (key : string) : result DataFrame :=
  match position key (columns left), position key (columns right) with
  | None, _ | _, None => Raise (KeyError key)
  | Some i, Some j =>
      Ok {| columns := columns left ++ remove_at j (columns right);
            rows :=
              flat_map
                (fun l =>
                   map (fun r => l ++ remove_at j r)
                     (filter (fun r => cell_eqb (nth i l NaN) (nth j r NaN))
                        (rows right)))
                (rows left) |}
  end.

Section DropDuplicates.

Variables (A K : Type).
Variable K_eq_dec : forall a b : K, {a = b} + {a <> b}.
Variable key : A -> K.

Definition other_key (x y : A) : bool :=
  if K_eq_dec (key y) (key x) then false else true.

(** Keep the first element of every class of equal keys. *)
Fixpoint keep_first (l : list A) : list A :=
  match l with
  | [] => []
  | x :: t => x :: filter (other_key x) (keep_first t)
  end.

End DropDuplicates.

(** [df.drop_duplicates()]. *)
Definition drop_duplicates (df : DataFrame) : DataFrame :=
  {| columns := columns df;
     rows := keep_first row_eq_dec row_key (rows df) |}.

(** [series.unique()]. *)
Definition unique (l : list cell) : list cell :=
  keep_first cell_eq_dec normal l.

(** [set(strings).issubset(values)]. *)
Definition issubset (strings : list string) (values : list cell) : bool :=
  forallb (fun s => existsb (cell_eqb (Str s)) values) strings.

(** [set(a) != set(b)] on labels, negated. *)
Definition same_label_set (a b : list string) : bool :=
  forallb (fun l => has_label l b) a && forallb (fun l => has_label l a) b.

(* --------------------------------------------------------------------- *)
(** *** Facts about [keep_first] *)
(* --------------------------------------------------------------------- *)

Section KeepFirstFacts.

Variables (A K : Type).
Variable K_eq_dec : forall a b : K, {a = b} + {a <> b}.
Variable key : A -> K.

Local Abbreviation kf := (keep_first K_eq_dec key).
Local Abbreviation other := (other_key K_eq_dec key).

(** [fresh_for seen y]: the key of [y] is none of [seen]. *)
Definition fresh_for (seen : list K) (y : A) : bool :=
  if in_dec K_eq_dec (key y) seen then false else true.

Lemma other_key_true x y : other x y = true <-> key y <> key x.
Proof.
  unfold other_key. destruct (K_eq_dec (key y) (key x)); split;
    congruence || tauto.
Qed.

Lemma keep_first_In x l : In x (kf l) -> In x l.
Proof.
  revert x. induction l as [|a l IH]; simpl; intros x H; [exact H|].
  destruct H as [H|H]; [left; exact H|].
  apply filter_In in H. right. apply IH. tauto.
Qed.

Lemma keep_first_key_In x l :
  In x l -> exists y, In y (kf l) /\ key y = key x.
Proof.
  induction l as [|a l IH]; simpl; intros H; [contradiction|].
  destruct (K_eq_dec (key x) (key a)) as [E|N].
  - exists a. split; [left; reflexivity | congruence].
  - destruct H as [H|H]; [subst; congruence|].
    destruct (IH H) as [y [Hy Ey]]. exists y. split; [|exact Ey].
    right. apply filter_In. split; [exact Hy|].
    apply other_key_true. congruence.
Qed.

Lemma NoDup_map_filter (f : A -> bool) l :
  NoDup (map key l) -> NoDup (map key (filter f l)).
Proof.
  induction l as [|a l IH]; simpl; intros H; [constructor|].
  inversion H as [|? ? Hn Hd]; subst.
  destruct (f a); simpl; [|auto].
  constructor; [|auto].
  intros Hin. apply Hn. apply in_map_iff in Hin.
  destruct Hin as [y [Ey Hy]]. apply filter_In in Hy.
  apply in_map_iff. exists y. tauto.
Qed.

Lemma keep_first_NoDup l : NoDup (map key (kf l)).
Proof.
  induction l as [|a l IH]; simpl; constructor.
  - intros Hin. apply in_map_iff in Hin. destruct Hin as [y [Ey Hy]].
    apply filter_In in Hy. destruct Hy as [_ Hy].
    apply other_key_true in Hy. congruence.
  - apply NoDup_map_filter. exact IH.
Qed.

Lemma filter_id (f : A -> bool) l :
  (forall x, In x l -> f x = true) -> filter f l = l.
Proof.
  induction l as [|a l IH]; simpl; intros H; [reflexivity|].
  rewrite (H a (or_introl eq_refl)). f_equal. apply IH. auto.
Qed.

Lemma filter_none (f : A -> bool) l :
  (forall x, In x l -> f x = false) -> filter f l = [].
Proof.
  induction l as [|a l IH]; simpl; intros H; [reflexivity|].
  rewrite (H a (or_introl eq_refl)). apply IH. auto.
Qed.

Lemma filter_ext_in_list (f g : A -> bool) l :
  (forall x, In x l -> f x = g x) -> filter f l = filter g l.
Proof.
  induction l as [|a l IH]; simpl; intros H; [reflexivity|].
  rewrite (H a (or_introl eq_refl)), IH; auto.
Qed.

Lemma filter_twice (f g : A -> bool) l :
  filter f (filter g l) = filter (fun x => g x && f x) l.
Proof.
  induction l as [|a l IH]; simpl; [reflexivity|].
  destruct (g a); simpl; [destruct (f a)|]; rewrite IH; reflexivity.
Qed.

Lemma keep_first_id l : NoDup (map key l) -> kf l = l.
Proof.
  induction l as [|a l IH]; simpl; intros H; [reflexivity|].
  inversion H as [|? ? Hn Hd]; subst. rewrite (IH Hd). f_equal.
  apply filter_id. intros x Hx. apply other_key_true.
  intros E. apply Hn. rewrite <- E. apply in_map. exact Hx.
Qed.

Lemma keep_first_filter (p : A -> bool) l :
  (forall x y, key x = key y -> p x = p y) ->
  filter p (kf l) = kf (filter p l).
Proof.
  intros Hp. induction l as [|a l IH]; simpl; [reflexivity|].
  destruct (p a) eqn:Pa; simpl.
  - f_equal. rewrite <- IH, !filter_twice.
    apply filter_ext_in_list. intros x _. apply andb_comm.
  - rewrite <- IH, filter_twice. apply filter_ext_in_list.
    intros x _. destruct (other a x) eqn:O; simpl; [reflexivity|].
    symmetry. unfold other_key in O.
    destruct (K_eq_dec (key x) (key a)) as [E|]; [|discriminate].
    rewrite (Hp x a E). exact Pa.
Qed.

Lemma keep_first_app a b :
  kf (a ++ b) = kf a ++ filter (fresh_for (map key a)) (kf b).
Proof.
  induction a as [|x a IH]; simpl.
  - symmetry. apply filter_id. reflexivity.
  - f_equal. rewrite IH, filter_app. f_equal.
    rewrite filter_twice. apply filter_ext_in_list. intros y _.
    unfold fresh_for, other_key. simpl.
    destruct (in_dec K_eq_dec (key y) (map key a)) as [I|I];
      destruct (K_eq_dec (key x) (key y)) as [E|E];
      destruct (K_eq_dec (key y) (key x)) as [E'|E'];
      simpl; congruence || reflexivity.
Qed.

Lemma key_injective_on_NoDup l x y :
  NoDup (map key l) -> In x l -> In y l -> key x = key y -> x = y.
Proof.
  induction l as [|a l IH]; simpl; intros H Hx Hy E; [contradiction|].
  inversion H as [|? ? Hn Hd]; subst.
  destruct Hx as [Hx|Hx], Hy as [Hy|Hy]; subst; auto.
  - exfalso. apply Hn. rewrite E. apply in_map. exact Hy.
  - exfalso. apply Hn. rewrite <- E. apply in_map. exact Hx.
Qed.

Lemma NoDup_of_keys l : NoDup (map key l) -> NoDup l.
Proof.
  induction l as [|a l IH]; simpl; intros H; constructor;
    inversion H as [|? ? Hn Hd]; subst; auto.
  intros Hin. apply Hn. apply in_map. exact Hin.
Qed.

(** Rows that are already there add nothing: up to the order, the table
    stays what it was. *)
Lemma keep_first_known_rows J M :
  incl J M -> NoDup (map key M) -> Permutation (kf (J ++ M)) M.
Proof.
  intros HJ HM. apply NoDup_Permutation.
  - apply NoDup_of_keys, keep_first_NoDup.
  - apply NoDup_of_keys, HM.
  - intros x. split.
    + intros H. apply keep_first_In in H. apply in_app_or in H.
      destruct H; auto.
    + intros H.
      destruct (@keep_first_key_In x (J ++ M)) as [y [Hy E]].
      { apply in_or_app. right. exact H. }
      assert (In y M).
      { apply keep_first_In in Hy. apply in_app_or in Hy. destruct Hy; auto. }
      rewrite <- (@key_injective_on_NoDup M y x); auto.
Qed.

Lemma keep_first_twice M : NoDup (map key M) -> kf (M ++ M) = M.
Proof.
  intros H. rewrite keep_first_app, (keep_first_id _ H).
  rewrite filter_none; [apply app_nil_r|].
  intros x Hx. unfold fresh_for.
  destruct (in_dec K_eq_dec (key x) (map key M)) as [|N]; [reflexivity|].
  exfalso. apply N, in_map, Hx.
Qed.

End KeepFirstFacts.

(* --------------------------------------------------------------------- *)
(** *** Facts about cells *)
(* --------------------------------------------------------------------- *)

Lemma normal_Str_inv c s : normal c = Str s -> c = Str s.
Proof. destruct c as [t|[ | | | ]]; simpl; congruence. Qed.

Lemma normal_idempotent c : normal (normal c) = normal c.
Proof. destruct c as [t|[ | | | ]]; reflexivity. Qed.

Lemma cell_eqb_true a b : cell_eqb a b = true <-> normal a = normal b.
Proof.
  unfold cell_eqb. destruct (cell_eq_dec (normal a) (normal b));
    split; congruence.
Qed.

Lemma cell_eqb_Str a b : cell_eqb (Str a) (Str b) = true <-> a = b.
Proof. rewrite cell_eqb_true. simpl. split; congruence. Qed.

Lemma cell_eqb_Str_l s c : cell_eqb (Str s) c = true -> c = Str s.
Proof.
  rewrite cell_eqb_true. simpl. intros H. symmetry in H.
  apply normal_Str_inv. exact H.
Qed.

Lemma cell_eqb_Str_r s c : cell_eqb c (Str s) = true -> c = Str s.
Proof. rewrite cell_eqb_true. simpl. apply normal_Str_inv. Qed.

Lemma cell_equals_str_true c s : cell_equals_str c s = true <-> c = Str s.
Proof.
  destruct c as [t|x]; simpl.
  - rewrite String.eqb_eq. split; congruence.
  - split; discriminate.
Qed.

Lemma cell_equals_str_normal c s :
  cell_equals_str (normal c) s = cell_equals_str c s.
Proof. destruct c as [t|[ | | | ]]; reflexivity. Qed.

Lemma nth_row_key i (r : row) : nth i (row_key r) NaN = normal (nth i r NaN).
Proof. unfold row_key. change NaN with (normal NaN) at 1. apply map_nth. Qed.

Lemma unique_constant v (l : list cell) :
  l <> [] -> Forall (eq v) l -> unique l = [v].
Proof.
  intros Hne Hall. destruct l as [|a l]; [congruence|].
  inversion Hall as [|? ? Ha Hl]; subst. unfold unique. simpl. f_equal.
  apply filter_none. intros x Hx. apply keep_first_In in Hx.
  rewrite Forall_forall in Hl. rewrite <- (Hl x Hx).
  unfold other_key. destruct (cell_eq_dec (normal a) (normal a)); congruence.
Qed.

End Pandas.

(* ===================================================================== *)
(** ** The batch runner ([run_calculation] and [get_results_for_image]) *)
(* ===================================================================== *)

Module Runner.

Import Pandas.
Export Locator.

Unset Implicit Arguments.

(** One request to the (memoised) [_calculate_wlutz]. *)
Record call : Type := {
  call_image_path : string;
  call_algorithm : string;
  call_bb_diameter : float;
  call_edge_lengths : list float;
  call_penumbra : float
}.

(** A computation that may raise and that records, in order, the requests
    it made to [_calculate_wlutz]; the requests made before an exception
    stay recorded. *)
Definition traced (A : Type) : Type := list call * result A.

Definition ret {A} (a : A) : traced A := ([], Ok a).

Definition lift {A} (r : result A) : traced A := ([], r).

Definition tell (c : call) : traced unit := ([c], Ok tt).

Definition bind {A B} (m : traced A) (k : A -> traced B) : traced B :=
  match m with
  | (log, Ok a) => let '(log', r) := k a in (log ++ log', r)
  | (log, Raise e) => (log, Raise e)
  end.

Declare Scope traced_scope.
Delimit Scope traced_scope with traced.
Notation "x <- m ;; k" := (bind m (fun x => k))
  (at level 61, m at next level, right associativity) : traced_scope.
Notation "' pat <- m ;; k" := (bind m (fun x => match x with pat => k end))
  (at level 61, pat pattern, m at next level, right associativity) : traced_scope.
Local Open Scope traced_scope.

Definition RESULTS_DATA_COLUMNS : list string :=
  [ "filepath"; "algorithm"; "diff_x"; "diff_y";
    "field_centre_x"; "field_centre_y"; "field_rotation";
    "bb_centre_x"; "bb_centre_y" ].

(** One row of the dataset table, with its required columns. *)
Record ImageRecord : Type := {
  filepath : string;
  treatment : cell;
  port : cell;
  gantry : float;
  collimator : float;
  width : float;
  length : float
}.

Definition DATABASE_COLUMNS : list string :=
  [ "filepath"; "treatment"; "port"; "gantry"; "collimator"; "width"; "length" ].

Definition record_cells (r : ImageRecord) : row :=
  [ Str (filepath r); treatment r; port r; Num (gantry r);
    Num (collimator r); Num (width r); Num (length r) ].

(** The dataset table as a frame. *)
Definition database_frame (database_table : list ImageRecord) : DataFrame :=
  {| columns := DATABASE_COLUMNS; rows := map record_cells database_table |}.

(** The dictionary [get_results_for_image] builds per algorithm. *)
Record DetectionResult : Type := {
  res_filepath : string;
  res_algorithm : string;
  diff_x : float;
  diff_y : float;
  field_centre_x : float;
  field_centre_y : float;
  res_field_rotation : float;
  bb_centre_x : float;
  bb_centre_y : float
}.

Definition result_cells (d : DetectionResult) : row :=
  [ Str (res_filepath d); Str (res_algorithm d); Num (diff_x d); Num (diff_y d);
    Num (field_centre_x d); Num (field_centre_y d); Num (res_field_rotation d);
    Num (bb_centre_x d); Num (bb_centre_y d) ].

(** [pd.DataFrame.from_dict(results_data)]: the keys of the dictionaries
    are the columns; no dictionary, no column. *)
Definition from_dict (results_data : list DetectionResult) : DataFrame :=
  match results_data with
  | [] => empty_frame
  | _ => {| columns := RESULTS_DATA_COLUMNS;
            rows := map result_cells results_data |}
  end.

Definition make_result (relative_image_path algorithm : string) (r : located)
  : DetectionResult :=
  let '(field_centre, field_rotation_calculated, bb_centre) := r in
  {| res_filepath := relative_image_path;
     res_algorithm := algorithm;
     diff_x := Float64.sub (fst field_centre) (fst bb_centre);
     diff_y := Float64.sub (snd field_centre) (snd bb_centre);
     field_centre_x := fst field_centre;
     field_centre_y := snd field_centre;
     res_field_rotation := field_rotation_calculated;
     bb_centre_x := fst bb_centre;
     bb_centre_y := snd bb_centre |}.

Section WithCollaborators.

Variable C : Collaborators.

(** [database_directory.joinpath(relative_image_path)]. *)
Variable joinpath : string -> string -> string.

Definition _get_full_image_path (database_directory relative_image_path : string)
  : string :=
  joinpath database_directory relative_image_path.

(** The loop of [get_results_for_image] over the selected algorithms. *)
Fixpoint results_data_for
    (full_image_path relative_image_path : string)
    (selected_algorithms : list string) (bb_diameter : float)
    (edge_lengths : list float) (penumbra : float)
  : traced (list DetectionResult) :=
  match selected_algorithms with
  | [] => ret []
  | algorithm :: rest =>
      _ <- tell {| call_image_path := full_image_path;
                   call_algorithm := algorithm;
                   call_bb_diameter := bb_diameter;
                   call_edge_lengths := edge_lengths;
                   call_penumbra := penumbra |} ;;
      r <- lift (_calculate_wlutz C full_image_path algorithm bb_diameter
                   edge_lengths penumbra) ;;
      others <- results_data_for full_image_path relative_image_path rest
                  bb_diameter edge_lengths penumbra ;;
      ret (make_result relative_image_path algorithm r :: others)
  end.

Definition get_results_for_image
    (database_directory relative_image_path : string)
    (selected_algorithms : list string) (bb_diameter : float)
    (edge_lengths : list float) (penumbra : float)
  : traced DataFrame :=
  let full_image_path :=
    _get_full_image_path database_directory relative_image_path in
  results_data <- results_data_for full_image_path relative_image_path
                    selected_algorithms bb_diameter edge_lengths penumbra ;;
  let results := from_dict results_data in
  if same_label_set (columns results) RESULTS_DATA_COLUMNS then ret results
  else lift (Raise (ValueError "Unexpected columns")).

Definition _collapse_column_to_single_value (dataframe : DataFrame) (column : string)
  : result cell :=
  (let? values := getitem dataframe column in
   match unique values with
   | [v] => Ok v
   | _ => Raise (ValueError ("Expected exactly one " ++ column ++ " per image"))
   end)%result.

(** The rows of the persisted table for one image:
    [previous.loc[previous["filepath"] == path][RESULTS_DATA_COLUMNS]]. *)
Definition persisted_results_for
    (previously_calculated_results : DataFrame) (relative_image_path : string)
  : result DataFrame :=
  (let? _ := getitem previously_calculated_results "filepath" in
   getitems
     (loc previously_calculated_results
        (fun r => cell_equals_str
                    (at_label (columns previously_calculated_results) r "filepath")
                    relative_image_path))
     RESULTS_DATA_COLUMNS)%result.

(** [selected_algorithms_already_calculated]. *)
Definition already_calculated (selected_algorithms : list string) (results : DataFrame)
  : result bool :=
  (let? algorithms := getitem results "algorithm" in
   Ok (issubset selected_algorithms (unique algorithms)))%result.

(** [database_table.iloc[i]]. *)
Definition iloc (database_table : list ImageRecord) (i : nat) : result ImageRecord :=
  match nth_error database_table i with
  | Some r => Ok r
  | None => Raise IndexError
  end.

Section Run.

Variable database_table : list ImageRecord.
Variable database_directory : string.
Variable selected_algorithms : list string.
Variable bb_diameter penumbra : float.
Variable previously_calculated_results : option DataFrame.

(** The detection branch of the loop body: the geometry is read from
    [database_table.iloc[i]]. *)
Definition recalculate (i : nat) (relative_image_path : string) : traced DataFrame :=
  row <- lift (iloc database_table i) ;;
  let edge_lengths := [width row; length row] in
  get_results_for_image database_directory relative_image_path
    selected_algorithms bb_diameter edge_lengths penumbra.

(** The first half of the loop body: the results of one image, taken from
    the persisted table or calculated. *)
Definition results_for (i : nat) (relative_image_path : string) : traced DataFrame :=
  match previously_calculated_results with
  | None => recalculate i relative_image_path
  | Some previous =>
      results <- lift (persisted_results_for previous relative_image_path) ;;
      done <- lift (already_calculated selected_algorithms results) ;;
      if done then ret results else recalculate i relative_image_path
  end.

(** The second half of the loop body, as far as it can stop the run: the
    image's results joined with the dataset must name one treatment and
    one port.  (The charts and the progress bar that this part of the loop
    feeds are the presentation surface and are not modelled.) *)
Definition check_single_treatment_and_port (results : DataFrame) : result unit :=
  (let? working_table := merge results (database_frame database_table) "filepath" in
   let? _ := _collapse_column_to_single_value working_table "treatment" in
   let? _ := _collapse_column_to_single_value working_table "port" in
   Ok tt)%result.

(** The loop over [enumerate(database_table["filepath"][::-1])], with
    [collated_results] as its state. *)
Fixpoint batch_loop (items : list (nat * string)) (collated_results : DataFrame)
  : traced DataFrame :=
  match items with
  | [] => ret collated_results
  | (i, relative_image_path) :: rest =>
      results <- results_for i relative_image_path ;;
      let collated_results := concat collated_results results in
      _ <- lift (check_single_treatment_and_port results) ;;
      batch_loop rest collated_results
  end.

Definition enumerate {A} (l : list A) : list (nat * A) :=
  combine (seq 0 (List.length l)) l.

(** [pd.concat([contextualised_results, previously_calculated_results])]:
    a [None] is dropped. *)
Definition concat_with_previous (contextualised_results : DataFrame) : DataFrame :=
  match previously_calculated_results with
  | None => contextualised_results
  | Some previous => concat contextualised_results previous
  end.

(** [run_calculation], up to the point where [raw_results.csv] is
    overwritten: the value is the table written to the file.  The file is
    modelled as holding the table itself, so that the next run reads back
    what this one wrote. *)
Definition run_calculation : traced DataFrame :=
  collated_results <-
    batch_loop (enumerate (rev (map filepath database_table))) empty_frame ;;
  contextualised_results <-
    lift (merge collated_results (database_frame database_table) "filepath") ;;
  let merged_with_previous := concat_with_previous contextualised_results in
  ret (drop_duplicates merged_with_previous).

End Run.

(* --------------------------------------------------------------------- *)
(** *** Facts about the loop body *)
(* --------------------------------------------------------------------- *)

Lemma bind_Ok_inv {A B} (m : traced A) (k : A -> traced B) log b :
  bind m k = (log, Ok b) ->
  exists l1 a l2, m = (l1, Ok a) /\ k a = (l2, Ok b) /\ log = l1 ++ l2.
Proof.
  unfold bind. destruct m as [l1 [a|e]]; [|discriminate].
  destruct (k a) as [l2 r] eqn:E. intros H. inversion H; subst.
  exists l1, a, l2. auto.
Qed.

Lemma bind_lift {A B} (r : result A) (k : A -> traced B) :
  bind (lift r) k = match r with Ok a => k a | Raise e => ([], Raise e) end.
Proof. unfold bind, lift. destruct r as [a|e]; [destruct (k a)|]; reflexivity. Qed.

Lemma bind_ret {A B} (a : A) (k : A -> traced B) : bind ([], Ok a) k = k a.
Proof. unfold bind. destruct (k a); reflexivity. Qed.

Definition make_call (full_image_path : string) (bb_diameter : float)
    (edge_lengths : list float) (penumbra : float) (algorithm : string) : call :=
  {| call_image_path := full_image_path;
     call_algorithm := algorithm;
     call_bb_diameter := bb_diameter;
     call_edge_lengths := edge_lengths;
     call_penumbra := penumbra |}.

(** Whatever happens, the requests are made for the selected algorithms
    in their order, up to the first one that raises. *)
Lemma results_data_for_requests full rel sel bb el pen :
  exists n,
    fst (results_data_for full rel sel bb el pen)
    = map (make_call full bb el pen) (firstn n sel).
Proof.
  induction sel as [|a sel IH]; simpl.
  - exists 0. reflexivity.
  - destruct IH as [n IH].
    destruct (_calculate_wlutz C full a bb el pen) as [r|e]; simpl.
    + destruct (results_data_for full rel sel bb el pen) as [l [ds|e]];
        simpl in *; exists (S n); simpl; rewrite ?app_nil_r, IH; reflexivity.
    + exists 1. destruct sel; reflexivity.
Qed.

Lemma results_data_for_Ok full rel sel bb el pen log ds :
  results_data_for full rel sel bb el pen = (log, Ok ds) ->
  map res_algorithm ds = sel
  /\ Forall (fun d => res_filepath d = rel) ds
  /\ log = map (make_call full bb el pen) sel.
Proof.
  revert log ds. induction sel as [|a sel IH]; simpl; intros log ds H.
  - inversion H; subst. repeat split. constructor.
  - destruct (_calculate_wlutz C full a bb el pen) as [[[fc rot] bbc]|e];
      simpl in H; [|discriminate].
    destruct (results_data_for full rel sel bb el pen) as [l [ds'|e]];
      simpl in H; [|discriminate].
    inversion H; subst. destruct (IH _ _ eq_refl) as [Ha [Hf Hl]].
    simpl. rewrite Ha, Hl, app_nil_r. repeat split. constructor; auto.
Qed.

Lemma get_results_for_image_Ok dir rel sel bb el pen log res :
  get_results_for_image dir rel sel bb el pen = (log, Ok res) ->
  sel <> []
  /\ log = map (make_call (_get_full_image_path dir rel) bb el pen) sel
  /\ exists ds,
       res = {| columns := RESULTS_DATA_COLUMNS; rows := map result_cells ds |}
       /\ map res_algorithm ds = sel
       /\ Forall (fun d => res_filepath d = rel) ds.
Proof.
  unfold get_results_for_image. intros H.
  apply bind_Ok_inv in H. destruct H as [l1 [ds [l2 [H1 [H2 ->]]]]].
  apply results_data_for_Ok in H1. destruct H1 as [Ha [Hf ->]].
  destruct ds as [|d ds]; simpl in H2; [discriminate|].
  inversion H2; subst. rewrite app_nil_r.
  split; [discriminate|]. split; [reflexivity|].
  exists (d :: ds). auto.
Qed.

(** With no algorithm selected the columns of the (empty) results are not
    the nine expected ones. *)
Lemma get_results_for_image_nothing_selected dir rel bb el pen :
  get_results_for_image dir rel [] bb el pen
  = ([], Raise (ValueError "Unexpected columns")).
Proof. reflexivity. Qed.

(** The columns of [collated_results.merge(database_table)]. *)
Definition CONTEXT_COLUMNS : list string :=
  RESULTS_DATA_COLUMNS ++ tl DATABASE_COLUMNS.

(** The cells a dataset row adds to a result row in that merge. *)
Definition other_cells (r : ImageRecord) : row := tl (record_cells r).

(** The row is about the image at [path]: its first cell is that string. *)
Definition for_image (path : string) (r : row) : bool :=
  cell_equals_str (nth 0 r NaN) path.

(** The rows of the results of one image: nine cells each, the first the
    path of the image, and at least one row per selected algorithm. *)
Definition block_of (path : string) (sel : list string) (block : list row) : Prop :=
  Forall (fun r => List.length r = 9 /\ nth 0 r NaN = Str path) block
  /\ forall a, In a sel -> exists r, In r block /\ nth 1 r NaN = Str a.

Lemma persisted_results_for_Ok previous path res :
  persisted_results_for previous path = Ok res ->
  res = {| columns := RESULTS_DATA_COLUMNS;
           rows := map (fun r => map (at_label (columns previous) r)
                                    RESULTS_DATA_COLUMNS)
                       (filter (fun r => cell_equals_str
                                  (at_label (columns previous) r "filepath") path)
                               (rows previous)) |}.
Proof.
  unfold persisted_results_for, getitems, loc.
  destruct (getitem previous "filepath"); cbn [rbind columns rows];
    [|discriminate].
  destruct (first_missing RESULTS_DATA_COLUMNS (columns previous));
    [discriminate|].
  intros H. inversion H. reflexivity.
Qed.

Lemma already_calculated_covers sel res :
  columns res = RESULTS_DATA_COLUMNS ->
  already_calculated sel res = Ok true ->
  forall a, In a sel -> exists r, In r (rows res) /\ nth 1 r NaN = Str a.
Proof.
  unfold already_calculated, getitem. intros Hc. rewrite Hc. simpl.
  intros H. inversion H as [H']. clear H. unfold issubset in H'.
  rewrite forallb_forall in H'. intros a Ha. specialize (H' a Ha).
  apply existsb_exists in H'. destruct H' as [v [Hv E]].
  apply cell_eqb_Str_l in E. subst v. apply keep_first_In in Hv.
  apply in_map_iff in Hv. destruct Hv as [r [E Hr]]. exists r. auto.
Qed.

Lemma reindex_results (r : row) :
  List.length r = 9 ->
  reindex RESULTS_DATA_COLUMNS RESULTS_DATA_COLUMNS r = r.
Proof.
  intros H. do 9 (destruct r as [|? r]; [discriminate H|]).
  destruct r; [reflexivity | discriminate H].
Qed.

Lemma reindex_context (r : row) :
  List.length r = 15 ->
  reindex CONTEXT_COLUMNS CONTEXT_COLUMNS r = r.
Proof.
  intros H. do 15 (destruct r as [|? r]; [discriminate H|]).
  destruct r; [reflexivity | discriminate H].
Qed.

Lemma map_id_on {A} (f : A -> A) (P : A -> Prop) l :
  (forall x, P x -> f x = x) -> Forall P l -> map f l = l.
Proof.
  intros Hf Hl. induction Hl as [|a l Ha Hl IH]; simpl; [reflexivity|].
  rewrite (Hf a Ha), IH. reflexivity.
Qed.

(** Appending the results of an image to the collated results. *)
Lemma concat_results acc res :
  acc = empty_frame \/ columns acc = RESULTS_DATA_COLUMNS ->
  Forall (fun r => List.length r = 9) (rows acc) ->
  columns res = RESULTS_DATA_COLUMNS ->
  Forall (fun r => List.length r = 9) (rows res) ->
  concat acc res
  = {| columns := RESULTS_DATA_COLUMNS; rows := rows acc ++ rows res |}.
Proof.
  intros Hacc Ha Hc Hr. unfold concat. rewrite Hc.
  destruct Hacc as [-> | Hacc].
  - simpl. f_equal. apply map_id_on with (2 := Hr). apply reindex_results.
  - rewrite Hacc. change (union_labels RESULTS_DATA_COLUMNS RESULTS_DATA_COLUMNS)
      with RESULTS_DATA_COLUMNS.
    rewrite (map_id_on _ _ _ reindex_results Ha), (map_id_on _ _ _ reindex_results Hr).
    reflexivity.
Qed.

Lemma concat_context a b :
  columns a = CONTEXT_COLUMNS -> columns b = CONTEXT_COLUMNS ->
  Forall (fun r => List.length r = 15) (rows a) ->
  Forall (fun r => List.length r = 15) (rows b) ->
  concat a b = {| columns := CONTEXT_COLUMNS; rows := rows a ++ rows b |}.
Proof.
  intros Ha Hb Hra Hrb. unfold concat. rewrite Ha, Hb.
  change (union_labels CONTEXT_COLUMNS CONTEXT_COLUMNS) with CONTEXT_COLUMNS.
  rewrite (map_id_on _ _ _ reindex_context Hra), (map_id_on _ _ _ reindex_context Hrb).
  reflexivity.
Qed.

Lemma filter_map_swap {A B} (f : B -> bool) (g : A -> B) l :
  filter f (map g l) = map g (filter (fun x => f (g x)) l).
Proof.
  induction l as [|a l IH]; simpl; [reflexivity|].
  destruct (f (g a)); simpl; rewrite IH; reflexivity.
Qed.

(** The rows a result row gives in the merge with the dataset table. *)
Definition joined (db : list ImageRecord) (l : row) : list row :=
  map (fun r => l ++ other_cells r)
    (filter (fun r => cell_eqb (nth 0 l NaN) (Str (filepath r))) db).

Lemma merge_results res db :
  columns res = RESULTS_DATA_COLUMNS ->
  merge res (database_frame db) "filepath"
  = Ok {| columns := CONTEXT_COLUMNS; rows := flat_map (joined db) (rows res) |}.
Proof.
  intros Hc. unfold merge. rewrite Hc. simpl. do 2 f_equal.
  apply flat_map_ext. intros l. unfold joined.
  rewrite filter_map_swap, map_map. reflexivity.
Qed.

Lemma same_filepath_row db r r' :
  NoDup (map filepath db) -> In r db -> In r' db ->
  filepath r = filepath r' -> r = r'.
Proof. intros. eapply key_injective_on_NoDup; eauto. Qed.

Lemma joined_single db (l : row) r :
  NoDup (map filepath db) -> In r db -> nth 0 l NaN = Str (filepath r) ->
  joined db l = [l ++ other_cells r].
Proof.
  intros Hn Hr Hl. unfold joined. rewrite Hl. clear Hl.
  induction db as [|a db IH]; simpl in *; [contradiction|].
  inversion Hn as [|? ? Hni Hnd]; subst.
  destruct Hr as [->|Hr].
  - replace (cell_eqb (Str (filepath r)) (Str (filepath r))) with true
      by (symmetry; apply cell_eqb_Str; reflexivity).
    simpl. f_equal. rewrite filter_none; [reflexivity|].
    intros x Hx. destruct (cell_eqb (Str (filepath r)) (Str (filepath x))) eqn:E;
      [|reflexivity].
    apply cell_eqb_Str in E. exfalso. apply Hni. rewrite E.
    apply in_map. exact Hx.
  - destruct (cell_eqb (Str (filepath r)) (Str (filepath a))) eqn:E.
    + apply cell_eqb_Str in E. exfalso. apply Hni. rewrite <- E.
      apply in_map. exact Hr.
    + apply IH; assumption.
Qed.

Lemma joined_rows db (l m : row) :
  In m (joined db l) ->
  exists r, In r db /\ normal (nth 0 l NaN) = Str (filepath r)
            /\ m = l ++ other_cells r.
Proof.
  unfold joined. intros H. apply in_map_iff in H.
  destruct H as [r [<- Hr]]. apply filter_In in Hr. destruct Hr as [Hr E].
  apply cell_eqb_true in E. exists r. auto.
Qed.

Section RunFacts.

Variable db : list ImageRecord.
Variable dir : string.
Variable sel : list string.
Variable bb pen : float.

Lemma recalculate_Ok i path log res :
  recalculate db dir sel bb pen i path = (log, Ok res) ->
  columns res = RESULTS_DATA_COLUMNS
  /\ block_of path sel (rows res)
  /\ exists row, nth_error db i = Some row
       /\ log = map (make_call (_get_full_image_path dir path) bb
                      [width row; length row] pen) sel.
Proof.
  unfold recalculate, iloc. destruct (nth_error db i) as [row|];
    rewrite bind_lift; [|discriminate].
  intros H. apply get_results_for_image_Ok in H.
  destruct H as [Hne [-> [ds [-> [Ha Hf]]]]]. simpl.
  split; [reflexivity|]. split; [|exists row; auto].
  split.
  - apply Forall_forall. intros r Hr. apply in_map_iff in Hr.
    destruct Hr as [d [<- Hd]]. rewrite Forall_forall in Hf.
    simpl. rewrite (Hf d Hd). auto.
  - intros a Hin. rewrite <- Ha in Hin. apply in_map_iff in Hin.
    destruct Hin as [d [<- Hd]]. exists (result_cells d).
    split; [apply in_map; exact Hd | reflexivity].
Qed.

Lemma results_for_Ok previous i path log res :
  results_for db dir sel bb pen previous i path = (log, Ok res) ->
  columns res = RESULTS_DATA_COLUMNS /\ block_of path sel (rows res).
Proof.
  unfold results_for. destruct previous as [p|].
  - rewrite bind_lift.
    destruct (persisted_results_for p path) as [found|e] eqn:E; [|discriminate].
    rewrite bind_lift.
    destruct (already_calculated sel found) as [[|]|e] eqn:D; [| |discriminate].
    + intros H. inversion H; subst. clear H.
      pose proof (persisted_results_for_Ok _ _ _ E) as ->.
      pose proof (fun Hc => already_calculated_covers sel _ Hc D) as Hcov.
      specialize (Hcov eq_refl). simpl.
      split; [reflexivity|]. split.
      * apply Forall_forall. intros r Hr. apply in_map_iff in Hr.
        destruct Hr as [r0 [<- Hr0]]. apply filter_In in Hr0.
        destruct Hr0 as [_ Hm]. apply cell_equals_str_true in Hm.
        split; [reflexivity | exact Hm].
      * exact Hcov.
    + intros H. apply recalculate_Ok in H. tauto.
  - intros H. apply recalculate_Ok in H. tauto.
Qed.

Lemma check_Ok_nonempty res :
  columns res = RESULTS_DATA_COLUMNS ->
  check_single_treatment_and_port db res = Ok tt ->
  rows res <> [].
Proof.
  intros Hc. unfold check_single_treatment_and_port.
  rewrite merge_results by exact Hc. cbn [rbind]. intros H Hnil.
  rewrite Hnil in H. discriminate H.
Qed.

Lemma flat_map_joined_single (block : list row) r :
  NoDup (map filepath db) -> In r db ->
  Forall (fun l => nth 0 l NaN = Str (filepath r)) block ->
  flat_map (joined db) block = map (fun l => l ++ other_cells r) block.
Proof.
  intros Hn Hr Hb. induction Hb as [|l block Hl Hb IH]; simpl; [reflexivity|].
  rewrite IH. erewrite joined_single by eassumption. reflexivity.
Qed.

Lemma constant_column (block : list row) (tail : row) k v :
  Forall (fun l => List.length l = 9) block ->
  nth k tail NaN = v ->
  Forall (eq v) (map (fun m => nth (9 + k) m NaN) (map (fun l => l ++ tail) block)).
Proof.
  intros Hb Hv. rewrite map_map. apply Forall_forall. intros c Hc.
  apply in_map_iff in Hc. destruct Hc as [l [<- Hl]].
  rewrite Forall_forall in Hb. rewrite app_nth2; rewrite (Hb l Hl); [|lia].
  replace (9 + k - 9) with k by lia. symmetry. exact Hv.
Qed.

Lemma check_passes res r :
  NoDup (map filepath db) -> In r db ->
  columns res = RESULTS_DATA_COLUMNS ->
  rows res <> [] ->
  Forall (fun l => List.length l = 9 /\ nth 0 l NaN = Str (filepath r)) (rows res) ->
  check_single_treatment_and_port db res = Ok tt.
Proof.
  intros Hn Hr Hc Hne Hb. unfold check_single_treatment_and_port.
  rewrite merge_results by exact Hc. cbn [rbind].
  erewrite flat_map_joined_single;
    [|exact Hn|exact Hr|eapply Forall_impl; [|exact Hb]; simpl; tauto].
  assert (Hlen : Forall (fun l : row => List.length l = 9) (rows res))
    by (eapply Forall_impl; [|exact Hb]; simpl; tauto).
  unfold _collapse_column_to_single_value, getitem.
  cbn [columns rows CONTEXT_COLUMNS]. simpl position. cbn [rbind].
  rewrite unique_constant with (v := treatment r).
  - cbn [rbind]. rewrite unique_constant with (v := port r); [reflexivity| |].
    + destruct (rows res); [congruence | discriminate].
    + apply constant_column with (k := 1); [exact Hlen | reflexivity].
  - destruct (rows res); [congruence | discriminate].
  - apply constant_column with (k := 0); [exact Hlen | reflexivity].
Qed.

Lemma batch_loop_cons previous i path rest acc :
  batch_loop db dir sel bb pen previous ((i, path) :: rest) acc
  = (results <- results_for db dir sel bb pen previous i path ;;
     _ <- lift (check_single_treatment_and_port db results) ;;
     batch_loop db dir sel bb pen previous rest (concat acc results))%traced.
Proof. reflexivity. Qed.

(** What a run that went through the loop has collated: one block of
    rows per image, in the order of the loop. *)
Lemma batch_loop_Ok previous items acc log coll :
  batch_loop db dir sel bb pen previous items acc = (log, Ok coll) ->
  acc = empty_frame \/ columns acc = RESULTS_DATA_COLUMNS ->
  Forall (fun r => List.length r = 9) (rows acc) ->
  exists blocks,
    rows coll = rows acc ++ List.concat blocks
    /\ Forall2 (fun item block => block <> [] /\ block_of (snd item) sel block)
         items blocks
    /\ (items = [] /\ coll = acc \/ columns coll = RESULTS_DATA_COLUMNS).
Proof.
  revert acc log. induction items as [|[i path] rest IH]; intros acc log H Hacc Hlen.
  - inversion H; subst. exists []. simpl. rewrite app_nil_r. auto.
  - rewrite batch_loop_cons in H. apply bind_Ok_inv in H.
    destruct H as [l1 [res [l2 [Hres [H ->]]]]].
    rewrite bind_lift in H.
    destruct (check_single_treatment_and_port db res) as [[]|e] eqn:Hck;
      [|discriminate].
    destruct (results_for_Ok _ _ _ _ _ Hres) as [Hc [Hb Hcov]].
    assert (Hlen' : Forall (fun r : row => List.length r = 9) (rows res))
      by (eapply Forall_impl; [|exact Hb]; simpl; tauto).
    rewrite concat_results in H by assumption.
    apply IH in H; [|right; reflexivity|simpl; apply Forall_app; auto].
    destruct H as [blocks [Hrows [Hblocks Hcols]]].
    exists (rows res :: blocks). simpl in *. rewrite Hrows, app_assoc.
    split; [reflexivity|]. split.
    + constructor; [|exact Hblocks]. split; [|split; assumption].
      eapply check_Ok_nonempty; eassumption.
    + right. destruct Hcols as [[_ ->]|Hcols]; [reflexivity | exact Hcols].
Qed.

Lemma enumerate_snd {A} (l : list A) : map snd (enumerate l) = l.
Proof.
  unfold enumerate. generalize 0. induction l as [|a l IH]; intros n; simpl;
    [reflexivity | rewrite IH; reflexivity].
Qed.

Lemma enumerate_nil_inv {A} (l : list A) : enumerate l = [] -> l = [].
Proof. destruct l; [reflexivity | discriminate]. Qed.

(** The table a successful run writes: the blocks of the images, joined
    with the dataset, then the previous table, without duplicate rows. *)
Lemma run_calculation_Ok previous log merged :
  run_calculation db dir sel bb pen previous = (log, Ok merged) ->
  exists blocks,
    Forall2 (fun path block => block <> [] /\ block_of path sel block)
      (rev (map filepath db)) blocks
    /\ merged
       = drop_duplicates
           (concat_with_previous previous
              {| columns := CONTEXT_COLUMNS;
                 rows := flat_map (joined db) (List.concat blocks) |}).
Proof.
  unfold run_calculation. intros H. apply bind_Ok_inv in H.
  destruct H as [l1 [coll [l2 [Hloop [H ->]]]]].
  rewrite bind_lift in H.
  apply batch_loop_Ok in Hloop; [|left; reflexivity|constructor].
  destruct Hloop as [blocks [Hrows [Hblocks Hcols]]]. simpl in Hrows.
  destruct Hcols as [[_ ->]|Hcols]; [discriminate H|].
  rewrite merge_results in H by exact Hcols. unfold ret in H.
  inversion H; subst. exists blocks. rewrite Hrows. split; [|reflexivity].
  rewrite <- (enumerate_snd (rev (map filepath db))).
  clear - Hblocks. induction Hblocks; simpl; constructor; auto.
Qed.

End RunFacts.

(* --------------------------------------------------------------------- *)
(** *** Tables written by runs over a dataset *)
(* --------------------------------------------------------------------- *)

(** A row of a table that runs over the dataset [db] have written: the
    nine result cells of an image of [db], followed by the other cells of
    that image's dataset row. *)
Definition consistent_row (db : list ImageRecord) (m : row) : Prop :=
  List.length m = 15
  /\ exists r, In r db /\ nth 0 m NaN = Str (filepath r)
               /\ skipn 9 m = other_cells r.

Definition consistent (db : list ImageRecord) (p : DataFrame) : Prop :=
  columns p = CONTEXT_COLUMNS /\ Forall (consistent_row db) (rows p).

Definition consistent_previous (db : list ImageRecord) (p : option DataFrame) : Prop :=
  match p with
  | None => True
  | Some p => consistent db p
  end.

(** Every image of the dataset has a row, and a row for each selected
    algorithm. *)
Definition covers (db : list ImageRecord) (sel : list string) (M : list row) : Prop :=
  forall r, In r db ->
    (exists m, In m M /\ nth 0 m NaN = Str (filepath r))
    /\ forall a, In a sel ->
         exists m, In m M /\ nth 0 m NaN = Str (filepath r)
                   /\ nth 1 m NaN = Str a.

(** The nine result cells of a row of such a table. *)
Definition result_part (m : row) : row :=
  map (at_label CONTEXT_COLUMNS m) RESULTS_DATA_COLUMNS.

(** The rows of a table about one image after another, in the order of
    the loop. *)
Definition regrouped (paths : list string) (M : list row) : list row :=
  flat_map (fun path => filter (for_image path) M) paths.

Lemma for_image_true path m : for_image path m = true <-> nth 0 m NaN = Str path.
Proof. unfold for_image. apply cell_equals_str_true. Qed.

Lemma for_image_key path m m' :
  row_key m = row_key m' -> for_image path m = for_image path m'.
Proof.
  intros E. unfold for_image.
  rewrite <- (cell_equals_str_normal (nth 0 m NaN)),
          <- (cell_equals_str_normal (nth 0 m' NaN)),
          <- !nth_row_key, E. reflexivity.
Qed.

Lemma row_key_nth_Str i s m m' :
  row_key m = row_key m' -> nth i m NaN = Str s -> nth i m' NaN = Str s.
Proof.
  intros E H. apply normal_Str_inv. rewrite <- nth_row_key, <- E, nth_row_key, H.
  reflexivity.
Qed.

Lemma result_part_other_cells db m :
  consistent_row db m ->
  exists r, In r db /\ nth 0 m NaN = Str (filepath r)
            /\ List.length (result_part m) = 9
            /\ nth 0 (result_part m) NaN = nth 0 m NaN
            /\ nth 1 (result_part m) NaN = nth 1 m NaN
            /\ result_part m ++ other_cells r = m.
Proof.
  intros [Hlen [r [Hr [H0 Hs]]]]. exists r.
  do 15 (destruct m as [|? m]; [discriminate Hlen|]).
  destruct m; [|discriminate Hlen].
  simpl in Hs. rewrite <- Hs. repeat split; auto.
Qed.

Lemma joined_consistent db (l m : row) :
  List.length l = 9 -> In m (joined db l) -> consistent_row db m.
Proof.
  intros Hl Hm. apply joined_rows in Hm. destruct Hm as [r [Hr [E ->]]].
  apply normal_Str_inv in E. split.
  - rewrite length_app, Hl. reflexivity.
  - exists r. split; [exact Hr|]. split.
    + rewrite app_nth1 by lia. exact E.
    + do 9 (destruct l as [|? l]; [discriminate Hl|]).
      destruct l; [reflexivity | discriminate Hl].
Qed.

Lemma Forall2_pick_l {A B} (P : A -> B -> Prop) xs ys x :
  Forall2 P xs ys -> In x xs -> exists y, In y ys /\ P x y.
Proof.
  intros H. induction H as [|a b xs ys Hab H IH]; simpl; [contradiction|].
  intros [->|Hx]; [exists b; auto|].
  destruct (IH Hx) as [y [Hy Py]]. exists y. auto.
Qed.

Lemma Forall2_pick_r {A B} (P : A -> B -> Prop) xs ys y :
  Forall2 P xs ys -> In y ys -> exists x, In x xs /\ P x y.
Proof.
  intros H. induction H as [|a b xs ys Hab H IH]; simpl; [contradiction|].
  intros [->|Hy]; [exists a; auto|].
  destruct (IH Hy) as [x [Hx Px]]. exists x. auto.
Qed.

Lemma in_joined db (l : row) r :
  In r db -> nth 0 l NaN = Str (filepath r) -> In (l ++ other_cells r) (joined db l).
Proof.
  intros Hr Hl. unfold joined.
  apply (in_map (fun r0 => l ++ other_cells r0)).
  apply filter_In. split; [exact Hr|].
  rewrite Hl. apply cell_eqb_Str. reflexivity.
Qed.

Section FirstRun.

Variable db : list ImageRecord.
Variable dir : string.
Variable sel : list string.
Variable bb pen : float.

(** The rows a run hands to [drop_duplicates]. *)
Definition rows_before_dedup (previous : option DataFrame) (blocks : list (list row))
  : list row :=
  flat_map (joined db) (List.concat blocks)
  ++ match previous with None => [] | Some p => rows p end.

Lemma blocks_rows (paths : list string) (blocks : list (list row)) l :
  Forall2 (fun path block => block <> [] /\ block_of path sel block) paths blocks ->
  In l (List.concat blocks) ->
  exists path, In path paths /\ List.length l = 9 /\ nth 0 l NaN = Str path.
Proof.
  intros H Hl. apply in_concat in Hl. destruct Hl as [block [Hb Hl]].
  destruct (Forall2_pick_r _ _ _ _ H Hb) as [path [Hp [_ [Hall _]]]].
  rewrite Forall_forall in Hall. exists path. split; [exact Hp|]. auto.
Qed.

Lemma joined_blocks_consistent (blocks : list (list row)) :
  Forall2 (fun path block => block <> [] /\ block_of path sel block)
    (rev (map filepath db)) blocks ->
  Forall (consistent_row db) (flat_map (joined db) (List.concat blocks)).
Proof.
  intros H. apply Forall_forall. intros m Hm. apply in_flat_map in Hm.
  destruct Hm as [l [Hl Hm]].
  destruct (blocks_rows _ _ _ H Hl) as [path [_ [Hlen _]]].
  eapply joined_consistent; eassumption.
Qed.

Lemma consistent_row_length m : consistent_row db m -> List.length m = 15.
Proof. intros [H _]. exact H. Qed.

Lemma written_table previous log merged :
  consistent_previous db previous ->
  run_calculation db dir sel bb pen previous = (log, Ok merged) ->
  exists blocks,
    Forall2 (fun path block => block <> [] /\ block_of path sel block)
      (rev (map filepath db)) blocks
    /\ Forall (consistent_row db) (rows_before_dedup previous blocks)
    /\ merged = {| columns := CONTEXT_COLUMNS;
                   rows := keep_first row_eq_dec row_key
                             (rows_before_dedup previous blocks) |}.
Proof.
  intros Hprev H. apply run_calculation_Ok in H.
  destruct H as [blocks [Hblocks ->]]. exists blocks.
  split; [exact Hblocks|].
  pose proof (joined_blocks_consistent _ Hblocks) as HJ.
  unfold rows_before_dedup, concat_with_previous.
  destruct previous as [p|].
  - destruct Hprev as [Hc Hp]. split; [apply Forall_app; auto|].
    rewrite concat_context; auto.
    + eapply Forall_impl; [|exact HJ]. apply consistent_row_length.
    + eapply Forall_impl; [|exact Hp]. apply consistent_row_length.
  - rewrite app_nil_r. split; [exact HJ | reflexivity].
Qed.

(** A run leaves a table that is consistent with the dataset, without
    two equal rows, and with a row for every image and selected
    algorithm. *)
Lemma run_establishes_invariant previous log merged :
  consistent_previous db previous ->
  run_calculation db dir sel bb pen previous = (log, Ok merged) ->
  consistent db merged
  /\ NoDup (map row_key (rows merged))
  /\ covers db sel (rows merged).
Proof.
  intros Hprev H. destruct (written_table _ _ _ Hprev H) as [blocks [Hb [Hc ->]]].
  simpl. split; [|split].
  - split; [reflexivity|]. simpl. apply Forall_forall. intros m Hm.
    apply keep_first_In in Hm. rewrite Forall_forall in Hc. auto.
  - apply keep_first_NoDup.
  - intros r Hr.
    assert (Hp : In (filepath r) (rev (map filepath db)))
      by (apply in_rev; rewrite rev_involutive; apply in_map; exact Hr).
    destruct (Forall2_pick_l _ _ _ _ Hb Hp) as [block [Hblock [Hne [Hall Hcov]]]].
    rewrite Forall_forall in Hall.
    assert (Hin : forall l, In l block ->
              exists y, In y (keep_first row_eq_dec row_key
                                (rows_before_dedup previous blocks))
                        /\ row_key y = row_key (l ++ other_cells r)).
    { intros l Hl. apply keep_first_key_In. unfold rows_before_dedup.
      apply in_or_app. left. apply in_flat_map. exists l. split.
      - apply in_concat. exists block. auto.
      - apply in_joined; [exact Hr | apply Hall; exact Hl]. }
    split.
    + destruct block as [|l block]; [congruence|].
      destruct (Hin l (or_introl eq_refl)) as [y [Hy E]].
      exists y. split; [exact Hy|].
      apply row_key_nth_Str with (m := l ++ other_cells r); [auto|].
      destruct (Hall l (or_introl eq_refl)) as [Hlen H0].
      rewrite app_nth1 by lia. exact H0.
    + intros a Ha. destruct (Hcov a Ha) as [l [Hl H1]].
      destruct (Hin l Hl) as [y [Hy E]]. destruct (Hall l Hl) as [Hlen H0].
      exists y. split; [exact Hy|]. split.
      * apply row_key_nth_Str with (m := l ++ other_cells r); [auto|].
        rewrite app_nth1 by lia. exact H0.
      * apply row_key_nth_Str with (m := l ++ other_cells r); [auto|].
        rewrite app_nth1 by lia. exact H1.
Qed.

End FirstRun.

(* --------------------------------------------------------------------- *)
(** *** A run over a table that previous runs wrote *)
(* --------------------------------------------------------------------- *)

Section Rerun.

Variable db : list ImageRecord.
Variable dir : string.
Variable sel : list string.
Variable bb pen : float.
Variable M : DataFrame.

Hypothesis db_distinct : NoDup (map filepath db).
Hypothesis M_consistent : consistent db M.
Hypothesis M_covers : covers db sel (rows M).

(** The results of one image as the persisted table [M] has them. *)
Definition persisted_block (path : string) : DataFrame :=
  {| columns := RESULTS_DATA_COLUMNS;
     rows := map result_part (filter (for_image path) (rows M)) |}.

Lemma persisted_results_for_consistent path :
  persisted_results_for M path = Ok (persisted_block path).
Proof.
  destruct M_consistent as [Hc _]. unfold persisted_results_for, persisted_block,
    getitem, getitems, loc. rewrite Hc. reflexivity.
Qed.

Lemma consistent_rows m : In m (rows M) -> consistent_row db m.
Proof.
  destruct M_consistent as [_ H]. rewrite Forall_forall in H. apply H.
Qed.

Lemma already_calculated_persisted r :
  In r db -> already_calculated sel (persisted_block (filepath r)) = Ok true.
Proof.
  intros Hr. unfold already_calculated, getitem, persisted_block.
  cbn [columns rows]. simpl position. cbn [rbind]. f_equal.
  unfold issubset. apply forallb_forall. intros a Ha.
  destruct (M_covers r Hr) as [_ Hcov].
  destruct (Hcov a Ha) as [m [Hm [H0 H1]]].
  assert (Hv : In (Str a)
            (map (fun r0 : row => nth 1 r0 NaN)
               (map result_part (filter (for_image (filepath r)) (rows M))))).
  { apply in_map_iff. exists (result_part m). split.
    - destruct (result_part_other_cells db m (consistent_rows m Hm))
        as [r' [_ [_ [_ [_ [E _]]]]]]. rewrite E. exact H1.
    - apply in_map. apply filter_In. split; [exact Hm|].
      apply for_image_true. exact H0. }
  apply (keep_first_key_In cell_eq_dec normal) in Hv.
  destruct Hv as [y [Hy E]]. apply existsb_exists. exists y.
  split; [exact Hy|]. apply cell_eqb_true. symmetry. exact E.
Qed.

Lemma results_for_persisted i r :
  In r db ->
  results_for db dir sel bb pen (Some M) i (filepath r)
  = ([], Ok (persisted_block (filepath r))).
Proof.
  intros Hr. unfold results_for.
  rewrite persisted_results_for_consistent, bind_lift.
  rewrite already_calculated_persisted by exact Hr. rewrite bind_lift.
  reflexivity.
Qed.

Lemma persisted_block_rows r :
  In r db ->
  rows (persisted_block (filepath r)) <> []
  /\ Forall (fun l => List.length l = 9 /\ nth 0 l NaN = Str (filepath r))
       (rows (persisted_block (filepath r))).
Proof.
  intros Hr. split.
  - destruct (M_covers r Hr) as [[m [Hm H0]] _]. simpl.
    assert (In m (filter (for_image (filepath r)) (rows M)))
      by (apply filter_In; split; [exact Hm | apply for_image_true; exact H0]).
    destruct (filter (for_image (filepath r)) (rows M)); [contradiction|].
    discriminate.
  - apply Forall_forall. intros l Hl. simpl in Hl. apply in_map_iff in Hl.
    destruct Hl as [m [<- Hm]]. apply filter_In in Hm. destruct Hm as [Hm Hf].
    apply for_image_true in Hf.
    destruct (result_part_other_cells db m (consistent_rows m Hm))
      as [r' [_ [_ [Hlen [E0 _]]]]].
    split; [exact Hlen|]. rewrite E0. exact Hf.
Qed.

Lemma batch_loop_persisted (items : list (nat * string)) acc :
  (forall item, In item items -> exists r, In r db /\ snd item = filepath r) ->
  acc = empty_frame \/ columns acc = RESULTS_DATA_COLUMNS ->
  Forall (fun r => List.length r = 9) (rows acc) ->
  batch_loop db dir sel bb pen (Some M) items acc
  = ([], Ok match items with
            | [] => acc
            | _ => {| columns := RESULTS_DATA_COLUMNS;
                      rows := rows acc
                              ++ flat_map (fun item => rows (persisted_block (snd item)))
                                   items |}
            end).
Proof.
  revert acc. induction items as [|[i path] rest IH]; intros acc Hitems Hacc Hlen;
    [reflexivity|].
  destruct (Hitems (i, path) (or_introl eq_refl)) as [r [Hr E]]. simpl in E. subst path.
  rewrite batch_loop_cons, results_for_persisted by exact Hr. rewrite bind_ret.
  destruct (persisted_block_rows r Hr) as [Hne Hall].
  rewrite (check_passes db dir (persisted_block (filepath r)) r db_distinct Hr
             eq_refl Hne Hall), bind_lift.
  assert (Hlen' : Forall (fun l : row => List.length l = 9)
                    (rows (persisted_block (filepath r))))
    by (eapply Forall_impl; [|exact Hall]; simpl; tauto).
  rewrite concat_results by (assumption || reflexivity).
  rewrite IH.
  - destruct rest as [|item rest]; cbn [rows snd flat_map];
      rewrite ?app_nil_r, <- ?app_assoc; reflexivity.
  - intros item Hitem. apply Hitems. right. exact Hitem.
  - right. reflexivity.
  - cbn [rows]. apply Forall_app. auto.
Qed.

Lemma joined_result_part m :
  In m (rows M) -> joined db (result_part m) = [m].
Proof.
  intros Hm.
  destruct (result_part_other_cells db m (consistent_rows m Hm))
    as [r [Hr [H0 [_ [E0 [_ E]]]]]].
  rewrite joined_single with (r := r); [rewrite E; reflexivity| | |];
    congruence || assumption.
Qed.

Lemma joined_persisted_blocks (paths : list string) :
  flat_map (joined db) (flat_map (fun path => rows (persisted_block path)) paths)
  = regrouped paths (rows M).
Proof.
  unfold regrouped. induction paths as [|path paths IH]; [reflexivity|].
  cbn [flat_map]. rewrite flat_map_app, IH. f_equal.
  cbn [persisted_block rows].
  assert (H : forall l, incl l (rows M) ->
                flat_map (joined db) (map result_part l) = l).
  { induction l as [|m l IHl]; intros Hl; [reflexivity|]. cbn [map flat_map].
    rewrite joined_result_part by (apply Hl; left; reflexivity).
    rewrite IHl; [reflexivity|]. intros x Hx. apply Hl. right. exact Hx. }
  apply H. intros x Hx. apply filter_In in Hx. tauto.
Qed.

Lemma flat_map_map_snd {A B} (f : string -> list B) (items : list (A * string)) :
  flat_map (fun item => f (snd item)) items = flat_map f (map snd items).
Proof.
  induction items as [|a l IH]; simpl; [reflexivity | rewrite IH; reflexivity].
Qed.

(** The run reads everything from [M], requests no detection and writes
    the rows of [M], image after image, followed by [M], without the
    duplicates. *)
Lemma run_over_written_table :
  db <> [] ->
  run_calculation db dir sel bb pen (Some M)
  = ([], Ok {| columns := CONTEXT_COLUMNS;
               rows := keep_first row_eq_dec row_key
                         (regrouped (rev (map filepath db)) (rows M) ++ rows M) |}).
Proof.
  intros Hdb. unfold run_calculation. rewrite batch_loop_persisted.
  - rewrite bind_ret.
    destruct (enumerate (rev (map filepath db))) as [|item items] eqn:E.
    { apply enumerate_nil_inv in E. destruct db; [congruence|].
      simpl in E. destruct (rev (map filepath l)); discriminate. }
    rewrite merge_results by reflexivity. rewrite bind_lift.
    unfold concat_with_previous, ret, drop_duplicates. destruct M_consistent as [Hc Hrows].
    cbn [rows empty_frame app].
    rewrite (flat_map_map_snd (fun path => rows (persisted_block path))),
      <- E, enumerate_snd, joined_persisted_blocks.
    rewrite concat_context; [reflexivity|reflexivity|exact Hc| |].
    + cbn [rows]. apply Forall_forall. intros m Hm. unfold regrouped in Hm.
      apply in_flat_map in Hm. destruct Hm as [path [_ Hm]].
      apply filter_In in Hm. destruct Hm as [Hm _].
      apply (consistent_row_length db). apply consistent_rows. exact Hm.
    + eapply Forall_impl; [|exact Hrows]. apply consistent_row_length.
  - intros item Hitem.
    assert (Hin : In (snd item) (rev (map filepath db))).
    { rewrite <- (enumerate_snd (rev (map filepath db))). apply in_map. exact Hitem. }
    apply in_rev in Hin. apply in_map_iff in Hin.
    destruct Hin as [r [E Hr]]. exists r. auto.
  - left. reflexivity.
  - constructor.
Qed.

End Rerun.

(* --------------------------------------------------------------------- *)
(** *** Tables whose rows come image after image *)
(* --------------------------------------------------------------------- *)

Lemma flat_map_ext_on {A B} (f g : A -> list B) l :
  (forall x, In x l -> f x = g x) -> flat_map f l = flat_map g l.
Proof.
  induction l as [|a l IH]; simpl; intros H; [reflexivity|].
  rewrite (H a (or_introl eq_refl)), IH; auto.
Qed.

Lemma flat_map_concat_blocks {A B} (f : A -> list B) (ls : list (list A)) :
  flat_map f (List.concat ls) = List.concat (map (flat_map f) ls).
Proof.
  induction ls as [|l ls IH]; simpl; [reflexivity|].
  rewrite flat_map_app, IH. reflexivity.
Qed.

(** Every block holds rows of its own image only. *)
Definition blocks_by_image (paths : list string) (blocks : list (list row)) : Prop :=
  Forall2 (fun path block => Forall (fun m => nth 0 m NaN = Str path) block)
    paths blocks.

Lemma blocks_by_image_rows paths blocks m :
  blocks_by_image paths blocks -> In m (List.concat blocks) ->
  exists path, In path paths /\ nth 0 m NaN = Str path.
Proof.
  intros H Hm. apply in_concat in Hm. destruct Hm as [block [Hb Hm]].
  destruct (Forall2_pick_r _ _ _ _ H Hb) as [path [Hp Hall]].
  rewrite Forall_forall in Hall. exists path. auto.
Qed.

Lemma for_image_other path path' m :
  nth 0 m NaN = Str path' -> path <> path' -> for_image path m = false.
Proof.
  intros Hm Hne. destruct (for_image path m) eqn:E; [|reflexivity].
  apply for_image_true in E. congruence.
Qed.

Lemma regrouped_keep_first paths blocks :
  NoDup paths -> blocks_by_image paths blocks ->
  regrouped paths (keep_first row_eq_dec row_key (List.concat blocks))
  = keep_first row_eq_dec row_key (List.concat blocks).
Proof.
  intros Hnd Hb. unfold regrouped.
  rewrite flat_map_ext
    with (g := fun path => keep_first row_eq_dec row_key
                             (filter (for_image path) (List.concat blocks)))
    by (intros path; apply keep_first_filter; intros a b E;
        apply for_image_key; exact E).
  induction Hb as [|path block paths blocks Hblock Hb IH]; [reflexivity|].
  inversion Hnd as [|? ? Hnotin Hnd']; subst.
  cbn [flat_map List.concat].
  assert (Hrest : forall m, In m (List.concat blocks) ->
            exists path', In path' paths /\ nth 0 m NaN = Str path')
    by (intros m Hm; eapply blocks_by_image_rows; eassumption).
  rewrite Forall_forall in Hblock.
  assert (E1 : filter (for_image path) block = block).
  { apply filter_id. intros m Hm. apply for_image_true. auto. }
  assert (E2 : filter (for_image path) (@List.concat row blocks) = []).
  { apply filter_none. intros m Hm. destruct (Hrest m Hm) as [path' [Hp' Hm']].
    apply for_image_other with (path' := path'); [exact Hm'|].
    intros ->. contradiction. }
  rewrite filter_app, E1, E2, app_nil_r, keep_first_app. f_equal.
  rewrite filter_id.
  - rewrite <- (IH Hnd'). apply flat_map_ext_on. intros p Hp.
    rewrite filter_app, (filter_none (for_image p) block); [reflexivity|].
    intros m Hm. apply for_image_other with (path' := path); [auto|].
    intros ->. contradiction.
  - intros m Hm. apply keep_first_In in Hm.
    destruct (Hrest m Hm) as [path' [Hp' Hm']].
    unfold fresh_for.
    destruct (in_dec row_eq_dec (row_key m) (map row_key block)) as [I|]; [|reflexivity].
    exfalso. apply in_map_iff in I. destruct I as [y [E Hy]].
    apply (row_key_nth_Str 0 path _ _ E) in Hblock; [|exact Hy].
    assert (path = path') by congruence. subst. contradiction.
Qed.

Lemma joined_blocks_by_image db sel paths blocks :
  Forall2 (fun path block => block <> [] /\ block_of path sel block) paths blocks ->
  blocks_by_image paths (map (flat_map (joined db)) blocks).
Proof.
  intros H. induction H as [|path block paths blocks [_ [Hall _]] H IH];
    simpl; constructor; [|exact IH].
  apply Forall_forall. intros m Hm. apply in_flat_map in Hm.
  destruct Hm as [l [Hl Hm]]. rewrite Forall_forall in Hall.
  destruct (Hall l Hl) as [Hlen H0].
  apply joined_rows in Hm. destruct Hm as [r [_ [_ ->]]].
  rewrite app_nth1 by lia. exact H0.
Qed.

(* --------------------------------------------------------------------- *)
(** *** The properties of the batch runner *)
(* --------------------------------------------------------------------- *)



Lemma results_data_for_first_request full rel a sel bb el pen :
  exists rest,
    fst (results_data_for full rel (a :: sel) bb el pen)
    = make_call full bb el pen a :: rest.
Proof.
  simpl. destruct (_calculate_wlutz C full a bb el pen) as [r|e]; simpl.
  - destruct (results_data_for full rel sel bb el pen) as [l [ds|e]];
      simpl; eexists; reflexivity.
  - eexists. reflexivity.
Qed.

Lemma get_results_for_image_requests dir rel sel bb el pen :
  fst (get_results_for_image dir rel sel bb el pen)
  = fst (results_data_for (_get_full_image_path dir rel) rel sel bb el pen).
Proof.
  unfold get_results_for_image, bind.
  destruct (results_data_for (_get_full_image_path dir rel) rel sel bb el pen)
    as [l [ds|e]]; [|reflexivity].
  destruct (same_label_set (columns (from_dict ds)) RESULTS_DATA_COLUMNS);
    simpl; apply app_nil_r.
Qed.

(** C2, amended: when every selected algorithm has a row for the image in
    the persisted table, those rows are the results and no detection is
    requested; otherwise the image is recalculated, and then detection is
    requested for every selected algorithm, in their order, whether or
    not the persisted table already has a row for it (the requests stop
    only at one that raises). *)
Theorem results_are_reused_or_all_recalculated
    db dir sel bb pen previous i path :
  (forall p found,
      previous = Some p ->
      persisted_results_for p path = Ok found ->
      already_calculated sel found = Ok true ->
      results_for db dir sel bb pen previous i path = ([], Ok found))
  /\ (previous = None
      \/ (exists p found,
            previous = Some p
            /\ persisted_results_for p path = Ok found
            /\ already_calculated sel found = Ok false) ->
      results_for db dir sel bb pen previous i path
      = recalculate db dir sel bb pen i path)
  /\ (forall row,
        nth_error db i = Some row ->
        let request :=
          make_call (_get_full_image_path dir path) bb [width row; length row] pen in
        (exists n,
            fst (recalculate db dir sel bb pen i path)
            = map request (firstn n sel))
        /\ (forall log res,
              recalculate db dir sel bb pen i path = (log, Ok res) ->
              log = map request sel)).
Proof.
  split; [|split].
  - intros p found -> Hfound Hdone. unfold results_for.
    rewrite Hfound, bind_lift, Hdone, bind_lift. reflexivity.
  - intros [->|[p [found [-> [Hfound Hdone]]]]]; unfold results_for;
      [reflexivity|].
    rewrite Hfound, bind_lift, Hdone, bind_lift. reflexivity.
  - intros row Hrow request. unfold recalculate, iloc. rewrite Hrow, bind_lift.
    split.
    + rewrite get_results_for_image_requests. apply results_data_for_requests.
    + intros log res H. apply get_results_for_image_Ok in H.
      destruct H as [_ [-> _]]. reflexivity.
Qed.

Lemma nth_error_enumerate {A} (l : list A) i x :
  nth_error l i = Some x -> nth_error (enumerate l) i = Some (i, x).
Proof.
  unfold enumerate. intros H.
  assert (G : forall s, nth_error (combine (seq s (List.length l)) l) i
                        = Some (s + i, x)).
  { revert i H. induction l as [|a l IH]; intros [|i] H s; try discriminate H;
      simpl in *.
    - inversion H. rewrite Nat.add_0_r. reflexivity.
    - rewrite (IH i H (S s)). f_equal. f_equal. lia. }
  apply (G 0).
Qed.


Lemma position_None label labels :
  position label labels = None <-> has_label label labels = false.
Proof.
  induction labels as [|l rest IH]; simpl; [tauto|].
  rewrite (String.eqb_sym label l).
  destruct (String.eqb l label); simpl.
  - split; discriminate.
  - rewrite <- IH. destruct (position label rest); simpl; split;
      congruence.
Qed.

Lemma persisted_results_for_missing previous path l :
  first_missing RESULTS_DATA_COLUMNS (columns previous) = Some l ->
  persisted_results_for previous path = Raise (KeyError l).
Proof.
  intros H. unfold persisted_results_for, getitem.
  destruct (position "filepath" (columns previous)) as [k|] eqn:E.
  - cbn [rbind]. unfold getitems, loc. cbn [columns]. rewrite H. reflexivity.
  - apply position_None in E. cbn [first_missing RESULTS_DATA_COLUMNS] in H.
    rewrite E in H. inversion H. reflexivity.
Qed.

Lemma persisted_results_for_present previous path :
  first_missing RESULTS_DATA_COLUMNS (columns previous) = None ->
  exists found,
    persisted_results_for previous path = Ok found
    /\ columns found = RESULTS_DATA_COLUMNS.
Proof.
  intros H. unfold persisted_results_for, getitem.
  destruct (position "filepath" (columns previous)) as [k|] eqn:E.
  - cbn [rbind]. unfold getitems, loc. cbn [columns rows]. rewrite H.
    eexists. split; reflexivity.
  - apply position_None in E. cbn [first_missing RESULTS_DATA_COLUMNS] in H.
    rewrite E in H. discriminate H.
Qed.

(** C6, amended: the columns of the persisted table are not checked when
    it is loaded.  A table that has the nine columns, with or without
    others, is accepted: the rows of an image are looked up in it and
    restricted to the nine.  A table that lacks one of the nine stops the
    run with a [KeyError] at the first lookup, before any detection is
    requested.  The ["Unexpected columns"] error belongs to
    [get_results_for_image], which raises it on its own freshly built
    results when no algorithm is selected. *)
Theorem persisted_columns_are_checked_by_the_lookup
    db dir sel bb pen previous :
  (first_missing RESULTS_DATA_COLUMNS (columns previous) = None ->
   forall path, exists found,
     persisted_results_for previous path = Ok found
     /\ columns found = RESULTS_DATA_COLUMNS)
  /\ (forall l,
       first_missing RESULTS_DATA_COLUMNS (columns previous) = Some l ->
       has_label l (columns previous) = false
       /\ run_calculation db dir sel bb pen (Some previous)
          = ([], Raise (KeyError match db with [] => "filepath" | _ => l end)))
  /\ (forall path el,
       get_results_for_image dir path [] bb el pen
       = ([], Raise (ValueError "Unexpected columns"))).
Proof.
  split; [|split].
  - intros H path. apply persisted_results_for_present. exact H.
  - intros l H. split.
    + clear - H. revert H. generalize RESULTS_DATA_COLUMNS.
      induction l0 as [|a rest IH]; simpl; [discriminate|].
      destruct (has_label a (columns previous)) eqn:E; [exact IH|].
      intros H. inversion H; subst. exact E.
    + unfold run_calculation. destruct db as [|r rest]; [reflexivity|].
      destruct (enumerate (rev (map filepath (r :: rest)))) as [|[i path] items] eqn:E.
      { apply enumerate_nil_inv in E. simpl in E.
        destruct (rev (map filepath rest)); discriminate. }
      rewrite batch_loop_cons. unfold results_for.
      rewrite (persisted_results_for_missing _ _ _ H). reflexivity.
  - intros path el. reflexivity.
Qed.

End WithCollaborators.

(* --------------------------------------------------------------------- *)
(** *** Closed runs *)
(* --------------------------------------------------------------------- *)

Definition slash_join (a b : string) : string := a ++ "/" ++ b.

Definition square_field (name : string) (side : Z) : ImageRecord :=
  {| filepath := name; treatment := Str "T1"; port := Str "P1";
     gantry := Float64.of_Z 0; collimator := Float64.of_Z 0;
     width := Float64.of_Z side; length := Float64.of_Z side |}.

Definition one_image : list ImageRecord := [square_field "a.jpg" 10].

Definition two_images : list ImageRecord :=
  [square_field "a.jpg" 10; square_field "b.jpg" 20].

(** Collaborators whose BB search answers with a centre that moves with
    the diameter it is given. *)
Definition diameter_sensitive : Collaborators :=
  {| Axis := unit; Image := unit; Field := unit; RawImage := unit;
     imread := fun _ => tt;
     iview_image_transform := fun _ => (tt, tt, tt);
     create_interpolated_field := fun _ _ _ => tt;
     get_centre_of_mass := fun _ _ _ => origin;
     field_centre_and_rotation_refining :=
       fun _ _ _ centre => Ok (centre, Float64.of_Z 0);
     optimise_bb_centre := fun _ bb _ _ _ _ => Ok (bb, bb);
     pylinac_version := "2.3.2";
     run_wlutz := fun _ _ _ centre _ _ => Ok [("2.3.2", (centre, centre))] |}.

(** A first run: one image, PyMedPhys only, a BB of diameter 8, no
    persisted table. *)
Definition first_run : traced DataFrame :=
  run_calculation diameter_sensitive slash_join one_image "dir"
    ["PyMedPhys"] (Float64.of_Z 8) (Float64.of_Z 2) None.

Definition first_table : DataFrame :=
  Eval vm_compute in
    match snd first_run with Ok t => t | Raise _ => empty_frame end.

(** A later run over the table of the first: both algorithms, a BB of
    diameter 12. *)
Definition later_run : traced DataFrame :=
  run_calculation diameter_sensitive slash_join one_image "dir"
    ["PyMedPhys"; "PyLinac"] (Float64.of_Z 12) (Float64.of_Z 2)
    (Some first_table).

Definition later_table : DataFrame :=
  Eval vm_compute in
    match snd later_run with Ok t => t | Raise _ => empty_frame end.

(** The (filepath, algorithm) pairs of the rows of a table. *)
Definition filepath_algorithm_pairs (df : DataFrame) : list (cell * cell) :=
  map (fun r => (at_label (columns df) r "filepath",
                 at_label (columns df) r "algorithm"))
    (rows df).

(** A run over two images with everything found, from no persisted
    table. *)
Definition two_images_run : traced DataFrame :=
  run_calculation all_found slash_join two_images "dir"
    ["PyMedPhys"; "PyLinac"] (Float64.of_Z 8) (Float64.of_Z 2) None.

Definition two_images_log : list call := Eval vm_compute in fst two_images_run.

Definition two_images_table : DataFrame :=
  Eval vm_compute in
    match snd two_images_run with Ok t => t | Raise _ => empty_frame end.

(** C1 fails as stated: for an image whose field is found at the origin
    and whose BB search raises [ValueError], the result of the PyMedPhys
    algorithm has a finite field centre and a NaN BB centre. *)
Lemma partial_detection_is_recorded :
  exists d,
    snd (results_data_for bb_not_found "dir/a.jpg" "a.jpg" ["PyMedPhys"]
           (Float64.of_Z 8) [Float64.of_Z 10; Float64.of_Z 10] (Float64.of_Z 2))
    = Ok [d]
    /\ res_algorithm d = "PyMedPhys"
    /\ Float64.is_finite (field_centre_x d) = true
    /\ Float64.is_finite (field_centre_y d) = true
    /\ Float64.is_nan (bb_centre_x d) = true
    /\ Float64.is_nan (bb_centre_y d) = true
    /\ all_or_nothing
         ((field_centre_x d, field_centre_y d), res_field_rotation d,
          (bb_centre_x d, bb_centre_y d)) = false.
Proof. eexists. repeat split. Qed.

Lemma two_images_distinct : NoDup (map filepath two_images).
Proof.
  simpl. constructor.
  - simpl. intros [H|[]]. discriminate H.
  - constructor; [intros [] | constructor].
Defined.




(** C2 fails as stated: the persisted table has a PyMedPhys row for
    [a.jpg] and lacks a PyLinac one, and the later run requests both
    detections for that image. *)
Lemma present_algorithm_is_recalculated :
  (exists found,
      persisted_results_for first_table "a.jpg" = Ok found
      /\ already_calculated ["PyMedPhys"] found = Ok true
      /\ already_calculated ["PyLinac"] found = Ok false)
  /\ map call_algorithm
       (fst (results_for diameter_sensitive slash_join one_image "dir"
               ["PyMedPhys"; "PyLinac"] (Float64.of_Z 12) (Float64.of_Z 2)
               (Some first_table) 0 "a.jpg"))
     = ["PyMedPhys"; "PyLinac"]
  /\ map call_algorithm (fst later_run) = ["PyMedPhys"; "PyLinac"].
Proof.
  split; [|split; vm_compute; reflexivity].
  eexists. split; [vm_compute; reflexivity|]. split; vm_compute; reflexivity.
Qed.

Lemma results_are_reused_or_all_recalculated_witness :
  results_for diameter_sensitive slash_join one_image "dir"
    ["PyMedPhys"; "PyLinac"] (Float64.of_Z 12) (Float64.of_Z 2)
    (Some first_table) 0 "a.jpg"
  = recalculate diameter_sensitive slash_join one_image "dir"
      ["PyMedPhys"; "PyLinac"] (Float64.of_Z 12) (Float64.of_Z 2) 0 "a.jpg".
Proof.
  apply (proj1 (proj2 (results_are_reused_or_all_recalculated
           diameter_sensitive slash_join one_image "dir"
           ["PyMedPhys"; "PyLinac"] (Float64.of_Z 12) (Float64.of_Z 2)
           (Some first_table) 0 "a.jpg"))).
  right. exists first_table. eexists. split; [reflexivity|].
  split; vm_compute; reflexivity.
Defined.


(** C6 fails as stated: the table the first run wrote has fifteen
    columns, not the nine, and the run over it raises nothing. *)
Lemma table_with_other_columns_is_accepted :
  snd first_run = Ok first_table
  /\ same_label_set (columns first_table) RESULTS_DATA_COLUMNS = false
  /\ List.length (columns first_table) = 15
  /\ run_calculation diameter_sensitive slash_join one_image "dir"
       ["PyMedPhys"] (Float64.of_Z 8) (Float64.of_Z 2) (Some first_table)
     = ([], Ok first_table).
Proof. repeat split; vm_compute; reflexivity. Qed.

(** A persisted table without the column ["algorithm"]. *)
Definition table_without_algorithm : DataFrame :=
  {| columns := filter (fun l => negb (String.eqb l "algorithm")) RESULTS_DATA_COLUMNS;
     rows := [] |}.

Lemma persisted_columns_are_checked_by_the_lookup_witness :
  run_calculation diameter_sensitive slash_join one_image "dir"
    ["PyMedPhys"] (Float64.of_Z 8) (Float64.of_Z 2) (Some table_without_algorithm)
  = ([], Raise (KeyError "algorithm")).
Proof.
  apply (proj2 (proj1 (proj2 (persisted_columns_are_checked_by_the_lookup
           diameter_sensitive slash_join one_image "dir" ["PyMedPhys"]
           (Float64.of_Z 8) (Float64.of_Z 2) table_without_algorithm))
         "algorithm" eq_refl)).
Defined.

(** *** A second run that does not write the first run's table

    An earlier run over two images, PyMedPhys only, a BB of diameter 8,
    wrote [earlier_table].  The first run has both algorithms and a BB of
    diameter 12 and reads [earlier_table]; the second run has the same
    inputs and reads the table of the first. *)
Definition earlier_table : DataFrame :=
  Eval vm_compute in
    match snd (run_calculation diameter_sensitive slash_join two_images "dir"
                 ["PyMedPhys"] (Float64.of_Z 8) (Float64.of_Z 2) None) with
    | Ok t => t
    | Raise _ => empty_frame
    end.

Definition first_of_two : traced DataFrame :=
  run_calculation diameter_sensitive slash_join two_images "dir"
    ["PyMedPhys"; "PyLinac"] (Float64.of_Z 12) (Float64.of_Z 2)
    (Some earlier_table).

Definition first_of_two_table : DataFrame :=
  Eval vm_compute in
    match snd first_of_two with Ok t => t | Raise _ => empty_frame end.

Definition second_of_two : traced DataFrame :=
  run_calculation diameter_sensitive slash_join two_images "dir"
    ["PyMedPhys"; "PyLinac"] (Float64.of_Z 12) (Float64.of_Z 2)
    (Some first_of_two_table).

Definition second_of_two_table : DataFrame :=
  Eval vm_compute in
    match snd second_of_two with Ok t => t | Raise _ => empty_frame end.

(** The same with a dataset that changed before the first run: the
    earlier run saw the image [a.jpg] with a side of 10, the first and
    the second run see it with a side of 20. *)
Definition resized_image : list ImageRecord := [square_field "a.jpg" 20].

Definition first_after_resize : traced DataFrame :=
  run_calculation diameter_sensitive slash_join resized_image "dir"
    ["PyMedPhys"; "PyLinac"] (Float64.of_Z 12) (Float64.of_Z 2)
    (Some first_table).

Definition first_after_resize_table : DataFrame :=
  Eval vm_compute in
    match snd first_after_resize with Ok t => t | Raise _ => empty_frame end.

Definition second_after_resize : traced DataFrame :=
  run_calculation diameter_sensitive slash_join resized_image "dir"
    ["PyMedPhys"; "PyLinac"] (Float64.of_Z 12) (Float64.of_Z 2)
    (Some first_after_resize_table).

Definition second_after_resize_table : DataFrame :=
  Eval vm_compute in
    match snd second_after_resize with Ok t => t | Raise _ => empty_frame end.



End Runner.

(* ===================================================================== *)
(** ** The constraint scorer ([transfer_check.py]) *)
(* ===================================================================== *)

Module Scorer.

Import Pandas.

Unset Implicit Arguments.
Local Open Scope result_scope.

(** The DVH of a structure, as the scorer reads it: its mean and maximal
    dose, its volume, and the three queries, each already taken at its
    [.value]. *)
Record DVH : Type := {
  mean : float;
  max : float;
  volume : float;
  (** [dose_constraint([v]).value], [v] a relative volume in percent *)
  dose_constraint : float -> float;
  (** [dose_constraint([v], "cm3").value] *)
  dose_constraint_cm3 : float -> float;
  (** [volume_constraint([d], "Gy").value] *)
  volume_constraint : float -> float
}.

(** The value a constraint table gives for one type: the placeholder
    string [" "], or a list of entries [[dose, volume]]. *)
Inductive constraint : Type :=
| Placeholder
| Entries (entries : list (list float)).

(** One row of the scored table.  A cell that shows ["-"] is the string. *)
Record score_row : Type := {
  Structure : string;
  Structure_Key : string;
  Type_ : string;
  Dose_Gy : cell;
  Volume_pct : cell;
  Actual_Dose_Gy : cell;
  Actual_Volume_pct : cell;
  Score : float
}.

(** A scored table.  Every table of the scorer is built by concatenation
    from [pd.DataFrame()] and one-row tables with the eight columns, so
    the empty list stands for the table without any column. *)
Definition table : Type := list score_row.

Definition dash : cell := Str "-".

(** [entry[i]]. *)
Definition index (entry : list float) (i : nat) : result float :=
  match nth_error entry i with
  | Some v => Ok v
  | None => Raise IndexError
  end.

Fixpoint map_result {A B} (f : A -> result B) (l : list A) : result (list B) :=
  match l with
  | [] => Ok []
  | a :: rest =>
      let? b := f a in
      let? bs := map_result f rest in
      Ok (b :: bs)
  end.

Definition hundred : float := Float64.of_Z 100.

Section Rows.

Variables (roi structure : string) (structure_dvh : DVH).

Definition mean_row (entry : list float) : result score_row :=
  let? threshold := index entry 0 in
  Ok {| Structure := roi; Structure_Key := structure; Type_ := "Mean";
        Dose_Gy := Num threshold; Volume_pct := dash;
        Actual_Dose_Gy := Num (mean structure_dvh); Actual_Volume_pct := dash;
        Score := Float64.sub threshold (mean structure_dvh) |}.

Definition max_row (entry : list float) : result score_row :=
  let? threshold := index entry 0 in
  Ok {| Structure := roi; Structure_Key := structure; Type_ := "Max";
        Dose_Gy := Num threshold; Volume_pct := dash;
        Actual_Dose_Gy := Num (max structure_dvh); Actual_Volume_pct := dash;
        Score := Float64.sub threshold (max structure_dvh) |}.

Definition volume_percent_row (entry : list float) : result score_row :=
  let? dose := index entry 0 in
  let? fraction := index entry 1 in
  let volume_threshold := Float64.mul fraction hundred in
  let actual_dose := dose_constraint structure_dvh volume_threshold in
  let actual_volume :=
    Float64.mul
      (Float64.div (volume_constraint structure_dvh dose) (volume structure_dvh))
      hundred in
  Ok {| Structure := roi; Structure_Key := structure; Type_ := "V%";
        Dose_Gy := Num dose; Volume_pct := Num volume_threshold;
        Actual_Dose_Gy := Num actual_dose;
        Actual_Volume_pct := Num actual_volume;
        Score := Float64.add (Float64.sub dose actual_dose)
                   (Float64.sub volume_threshold actual_volume) |}.

Definition dose_percent_row (entry : list float) : result score_row :=
  let? dose := index entry 0 in
  let? volume_threshold := index entry 1 in
  let actual_dose := dose_constraint_cm3 structure_dvh volume_threshold in
  let actual_volume :=
    Float64.mul
      (Float64.div (volume_constraint structure_dvh dose) (volume structure_dvh))
      hundred in
  Ok {| Structure := roi; Structure_Key := structure; Type_ := "D%";
        Dose_Gy := Num dose; Volume_pct := Num volume_threshold;
        Actual_Dose_Gy := Num actual_dose;
        Actual_Volume_pct := Num actual_volume;
        Score := Float64.add (Float64.sub dose actual_dose)
                   (Float64.sub
                      (Float64.mul
                         (Float64.div volume_threshold (volume structure_dvh))
                         hundred)
                      actual_volume) |}.

(** The body of the loop over [structure_constraints.items()]: the rows
    one (type, constraint) item adds. *)
Definition rows_of_item (item : string * constraint) : result table :=
  let '(type, c) := item in
  match c with
  | Placeholder => Ok []
  | Entries entries =>
      if String.eqb type "Mean" then map_result mean_row entries
      else if String.eqb type "Max" then map_result max_row entries
      else if String.eqb type "V%" then map_result volume_percent_row entries
      else if String.eqb type "D%" then map_result dose_percent_row entries
      else Ok []
  end.

(** The rows of all the items, in the order of the dictionary. *)
Fixpoint constraint_rows (items : list (string * constraint)) : result table :=
  match items with
  | [] => Ok []
  | item :: rest =>
      let? rows := rows_of_item item in
      let? others := constraint_rows rest in
      Ok (rows ++ others)
  end.

End Rows.

Section Reductions.

(** [Series.mean()] and [Series.sum()] of pandas, on the scores of a
    column. *)
Variables Series_mean Series_sum : list float -> float.

(** The row [average_oar_scores]; [first] is [structure_df.iloc[0]]. *)
Definition average_oar_scores (first : score_row) (structure_df : table) : score_row :=
  {| Structure := Structure first;
     Structure_Key := Structure_Key first;
     Type_ := "Average Score";
     Dose_Gy := dash; Volume_pct := dash;
     Actual_Dose_Gy := dash; Actual_Volume_pct := dash;
     Score := Series_mean (map Score structure_df) |}.

Definition calculate_average_OAR_score (structure_df : table) : result table :=
  match structure_df with
  | [] => Raise IndexError
  | first :: _ => Ok (structure_df ++ [average_oar_scores first structure_df])
  end.

Definition compare_structure_with_constraints
    (roi structure : string) (dvh_calcs : list (string * DVH))
    (constraints : list (string * list (string * constraint)))
  : result table :=
  let? structure_constraints := dict_get constraints structure in
  let? structure_dvh := dict_get dvh_calcs roi in
  let? structure_df :=
    constraint_rows roi structure structure_dvh structure_constraints in
  calculate_average_OAR_score structure_df.

Definition is_average (r : score_row) : bool := String.eqb (Type_ r) "Average Score".

(** The row [total_score]. *)
Definition total_score (constraints_df : table) : score_row :=
  {| Structure := "Total Patient";
     Structure_Key := "Total Patient";
     Type_ := "Total Score";
     Dose_Gy := dash; Volume_pct := dash;
     Actual_Dose_Gy := dash; Actual_Volume_pct := dash;
     Score := Series_sum (map Score (filter is_average constraints_df)) |}.

Definition calculate_total_score (constraints_df : table) : result table :=
  match constraints_df with
  | [] => Raise (KeyError "Type")
  | _ => Ok (constraints_df ++ [total_score constraints_df])
  end.

End Reductions.

(* --------------------------------------------------------------------- *)
(** *** Matching ROI names with structures *)
(* --------------------------------------------------------------------- *)

(** [str.lower()] on the letters A to Z. *)
Definition lower_ascii (c : ascii) : ascii :=
  let n := nat_of_ascii c in
  if (65 <=? n)%nat && (n <=? 90)%nat then ascii_of_nat (n + 32) else c.

Fixpoint lower (s : string) : string :=
  match s with
  | EmptyString => EmptyString
  | String c rest => String (lower_ascii c) (lower rest)
  end.

Definition is_space (c : ascii) : bool := Ascii.eqb c " "%char.

Fixpoint lstrip (s : list ascii) : list ascii :=
  match s with
  | c :: rest => if is_space c then lstrip rest else s
  | [] => []
  end.

(** [s.strip(" ")]: the spaces at both ends are dropped. *)
Definition strip (s : string) : string :=
  string_of_list_ascii
    (rev (lstrip (rev (lstrip (list_ascii_of_string s))))).

(** [roi.lower().strip(" ") in aliases]. *)
Definition matches (roi : string) (aliases : list string) : bool :=
  existsb (String.eqb (strip (lower roi))) aliases.

Section Plan.

Variables Series_mean Series_sum : list float -> float.

(** The result of [calc_dvh]: a DVH per ROI name. *)
Variable dvh_calcs : list (string * DVH).

(** The alias table: per structure key, the accepted ROI names. *)
Variable ALIASES : list (string * list string).

(** The constraint table [CONSTRAINTS] of [dose_constraints.py]: per
    structure key, the constraint of every type. *)
Variable CONSTRAINTS : list (string * list (string * constraint)).

(** The inner loop of [main]: the structures of the alias table, for one
    ROI. *)
Fixpoint score_roi (roi : string) (aliases : list (string * list string))
    (constraints_df : table) : result table :=
  match aliases with
  | [] => Ok constraints_df
  | (structure, names) :: rest =>
      if matches roi names then
        let? structure_df :=
          compare_structure_with_constraints Series_mean roi structure
            dvh_calcs CONSTRAINTS in
        score_roi roi rest (constraints_df ++ structure_df)
      else score_roi roi rest constraints_df
  end.

(** The outer loop of [main] over the ROI names. *)
Fixpoint score_rois (rois : list string) (constraints_df : table) : result table :=
  match rois with
  | [] => Ok constraints_df
  | roi :: rest =>
      let? constraints_df := score_roi roi ALIASES constraints_df in
      score_rois rest constraints_df
  end.

(** The scoring part of [main]: the table handed to the export and to the
    display. *)
Definition constraint_check : result table :=
  let rois := map fst dvh_calcs in
  let? constraints_df := score_rois rois [] in
  calculate_total_score Series_sum constraints_df.

End Plan.

(* --------------------------------------------------------------------- *)
(** *** Constraint tables that can be scored *)
(* --------------------------------------------------------------------- *)

(** An entry has the values its type reads: a dose for Mean and Max, a
    dose and a volume for V% and D%. *)
Definition long_enough (type : string) (entry : list float) : bool :=
  if String.eqb type "Mean" || String.eqb type "Max" then
    (1 <=? List.length entry)%nat
  else if String.eqb type "V%" || String.eqb type "D%" then
    (2 <=? List.length entry)%nat
  else true.

Definition well_formed_item (item : string * constraint) : bool :=
  match snd item with
  | Placeholder => true
  | Entries entries => forallb (long_enough (fst item)) entries
  end.

Definition well_formed (items : list (string * constraint)) : bool :=
  forallb well_formed_item items.

(** The type of a row that scores a constraint. *)
Definition constraint_typed (r : score_row) : Prop :=
  In (Type_ r) ["Mean"; "Max"; "V%"; "D%"].

Lemma map_result_total {A B} (f : A -> result B) l :
  (forall a, In a l -> exists b, f a = Ok b) ->
  exists bs, map_result f l = Ok bs.
Proof.
  induction l as [|a l IH]; intros H; simpl; [eauto|].
  destruct (H a (or_introl eq_refl)) as [b ->].
  destruct IH as [bs ->]; [intros x Hx; apply H; right; exact Hx|].
  simpl. eauto.
Qed.

Lemma map_result_In {A B} (f : A -> result B) l bs a b :
  map_result f l = Ok bs -> In a l -> f a = Ok b -> In b bs.
Proof.
  revert bs. induction l as [|x l IH]; intros bs H Ha Hb; [contradiction|].
  simpl in H. destruct (f x) as [y|] eqn:Ex; [|discriminate].
  destruct (map_result f l) as [ys|]; [|discriminate].
  simpl in H. inversion H; subst. destruct Ha as [->|Ha].
  - left. congruence.
  - right. apply IH; auto.
Qed.

Lemma map_result_Forall {A B} (f : A -> result B) (P : B -> Prop) l bs :
  (forall a b, f a = Ok b -> P b) ->
  map_result f l = Ok bs -> Forall P bs.
Proof.
  intros Hf. revert bs. induction l as [|x l IH]; intros bs H; simpl in H.
  - inversion H. constructor.
  - destruct (f x) as [y|] eqn:Ex; [|discriminate].
    destruct (map_result f l) as [ys|]; [|discriminate].
    simpl in H. inversion H; subst. constructor; eauto.
Qed.

Section RowFacts.

Variables (roi structure : string) (structure_dvh : DVH).

Lemma rows_of_item_total item :
  well_formed_item item = true ->
  exists rows, rows_of_item roi structure structure_dvh item = Ok rows.
Proof.
  destruct item as [type [|entries]]; unfold well_formed_item;
    cbn [fst snd rows_of_item]; [eauto|].
  intros H. rewrite forallb_forall in H.
  destruct (String.eqb type "Mean") eqn:E1.
  { apply String.eqb_eq in E1. subst type.
    apply map_result_total. intros e He. specialize (H e He).
    destruct e as [|d e]; [discriminate H|]. unfold mean_row. simpl. eauto. }
  destruct (String.eqb type "Max") eqn:E2.
  { apply String.eqb_eq in E2. subst type.
    apply map_result_total. intros e He. specialize (H e He).
    destruct e as [|d e]; [discriminate H|]. unfold max_row. simpl. eauto. }
  destruct (String.eqb type "V%") eqn:E3.
  { apply String.eqb_eq in E3. subst type.
    apply map_result_total. intros e He. specialize (H e He).
    destruct e as [|d [|v e]]; try discriminate H.
    unfold volume_percent_row. simpl. eauto. }
  destruct (String.eqb type "D%") eqn:E4; [|eauto].
  apply String.eqb_eq in E4. subst type.
  apply map_result_total. intros e He. specialize (H e He).
  destruct e as [|d [|v e]]; try discriminate H.
  unfold dose_percent_row. simpl. eauto.
Qed.

Lemma rows_of_item_typed item rows :
  rows_of_item roi structure structure_dvh item = Ok rows ->
  Forall constraint_typed rows.
Proof.
  destruct item as [type [|entries]]; simpl.
  { intros H. inversion H. constructor. }
  destruct (String.eqb type "Mean").
  { apply map_result_Forall. intros e r. unfold mean_row.
    destruct (index e 0); simpl; [|discriminate].
    intros H. inversion H. unfold constraint_typed. simpl. auto. }
  destruct (String.eqb type "Max").
  { apply map_result_Forall. intros e r. unfold max_row.
    destruct (index e 0); simpl; [|discriminate].
    intros H. inversion H. unfold constraint_typed. simpl. auto. }
  destruct (String.eqb type "V%").
  { apply map_result_Forall. intros e r. unfold volume_percent_row.
    destruct (index e 0); simpl; [|discriminate].
    destruct (index e 1); simpl; [|discriminate].
    intros H. inversion H. unfold constraint_typed. simpl. auto. }
  destruct (String.eqb type "D%").
  { apply map_result_Forall. intros e r. unfold dose_percent_row.
    destruct (index e 0); simpl; [|discriminate].
    destruct (index e 1); simpl; [|discriminate].
    intros H. inversion H. unfold constraint_typed. simpl. auto. }
  intros H. inversion H. constructor.
Qed.

Lemma constraint_rows_total items :
  well_formed items = true ->
  exists rows, constraint_rows roi structure structure_dvh items = Ok rows.
Proof.
  induction items as [|item items IH]; simpl; [eauto|].
  intros H. apply andb_true_iff in H. destruct H as [Hi Hr].
  destruct (rows_of_item_total item Hi) as [rows ->].
  destruct (IH Hr) as [others ->]. simpl. eauto.
Qed.

Lemma constraint_rows_typed items rows :
  constraint_rows roi structure structure_dvh items = Ok rows ->
  Forall constraint_typed rows.
Proof.
  revert rows. induction items as [|item items IH]; intros rows H; simpl in H.
  - inversion H. constructor.
  - destruct (rows_of_item roi structure structure_dvh item) as [r|] eqn:E;
      [|discriminate].
    destruct (constraint_rows roi structure structure_dvh items) as [o|];
      [|discriminate].
    simpl in H. inversion H; subst. apply Forall_app. split.
    + eapply rows_of_item_typed. exact E.
    + apply IH. reflexivity.
Qed.

Lemma constraint_rows_In items rows item r x :
  constraint_rows roi structure structure_dvh items = Ok rows ->
  In item items ->
  rows_of_item roi structure structure_dvh item = Ok r ->
  In x r -> In x rows.
Proof.
  revert rows. induction items as [|i items IH]; intros rows H Hi Hr Hx;
    [contradiction|].
  simpl in H.
  destruct (rows_of_item roi structure structure_dvh i) as [ri|] eqn:E;
    [|discriminate].
  destruct (constraint_rows roi structure structure_dvh items) as [o|];
    [|discriminate].
  simpl in H. inversion H; subst. apply in_or_app.
  destruct Hi as [->|Hi].
  - left. congruence.
  - right. eapply IH; eauto.
Qed.

End RowFacts.

(** C7: when the constraints of a structure have a Mean entry with the
    threshold [t] (an entry list, not the placeholder), the scorer
    answers with a table that has the Mean row of that threshold, and the
    Score of the row is [t] minus the mean dose of the DVH of the matched
    ROI. *)
Theorem mean_constraint_is_scored
    Series_mean roi structure dvh_calcs constraints
    structure_constraints structure_dvh entries entry t :
  dict_get constraints structure = Ok structure_constraints ->
  dict_get dvh_calcs roi = Ok structure_dvh ->
  well_formed structure_constraints = true ->
  In ("Mean", Entries entries) structure_constraints ->
  In entry entries ->
  nth_error entry 0 = Some t ->
  exists df,
    compare_structure_with_constraints Series_mean roi structure dvh_calcs
      constraints = Ok df
    /\ In {| Structure := roi; Structure_Key := structure; Type_ := "Mean";
             Dose_Gy := Num t; Volume_pct := dash;
             Actual_Dose_Gy := Num (mean structure_dvh);
             Actual_Volume_pct := dash;
             Score := Float64.sub t (mean structure_dvh) |} df.
Proof.
  intros Hc Hd Hwf Hitem Hentry Ht.
  unfold compare_structure_with_constraints. rewrite Hc, Hd. cbn [rbind].
  destruct (constraint_rows_total roi structure structure_dvh _ Hwf)
    as [rows Hrows].
  rewrite Hrows. cbn [rbind].
  assert (Hitem_wf : well_formed_item ("Mean", Entries entries) = true).
  { unfold well_formed in Hwf. rewrite forallb_forall in Hwf. auto. }
  destruct (rows_of_item_total roi structure structure_dvh _ Hitem_wf)
    as [r Hr].
  assert (Hin : In {| Structure := roi; Structure_Key := structure;
             Type_ := "Mean"; Dose_Gy := Num t; Volume_pct := dash;
             Actual_Dose_Gy := Num (mean structure_dvh);
             Actual_Volume_pct := dash;
             Score := Float64.sub t (mean structure_dvh) |} rows).
  { eapply constraint_rows_In; [exact Hrows|exact Hitem|exact Hr|].
    simpl in Hr. eapply map_result_In; [exact Hr|exact Hentry|].
    unfold mean_row, index. rewrite Ht. reflexivity. }
  destruct rows as [|first rest]; [contradiction|].
  eexists. split; [reflexivity|]. apply in_or_app. left. exact Hin.
Qed.

(* --------------------------------------------------------------------- *)
(** *** The scored table of a plan *)
(* --------------------------------------------------------------------- *)

Definition is_total (r : score_row) : bool := String.eqb (Type_ r) "Total Score".

Lemma constraint_typed_not_aggregate r :
  constraint_typed r -> is_average r = false /\ is_total r = false.
Proof.
  unfold constraint_typed, is_average, is_total.
  intros [H|[H|[H|[H|[]]]]]; rewrite <- H; split; reflexivity.
Qed.

Section PlanFacts.

Variables Series_mean Series_sum : list float -> float.
Variable dvh_calcs : list (string * DVH).
Variable ALIASES : list (string * list string).
Variable CONSTRAINTS : list (string * list (string * constraint)).

(** The rows that score the constraints of a structure on an ROI, before
    the average is appended. *)
Definition structure_rows (roi structure : string) : result table :=
  let? structure_constraints := dict_get CONSTRAINTS structure in
  let? structure_dvh := dict_get dvh_calcs roi in
  constraint_rows roi structure structure_dvh structure_constraints.

(** The Average Score row of the rows of a structure. *)
Definition average_rows (rows : table) : table :=
  match rows with
  | [] => []
  | first :: _ => [average_oar_scores Series_mean first rows]
  end.

Definition with_average (rows : table) : table := rows ++ average_rows rows.

(** The structure keys whose aliases an ROI name matches, in the order of
    the alias table. *)
Definition structures_matching (roi : string) (aliases : list (string * list string))
  : list string :=
  map fst (filter (fun entry => matches roi (snd entry)) aliases).

(** The (ROI, structure) pairs that are scored, in the order of the two
    loops. *)
Definition matched_pairs (rois : list string) : list (string * string) :=
  flat_map (fun roi => map (pair roi) (structures_matching roi ALIASES)) rois.

Lemma compare_structure_with_constraints_rows roi structure :
  compare_structure_with_constraints Series_mean roi structure dvh_calcs CONSTRAINTS
  = (let? rows := structure_rows roi structure in
     calculate_average_OAR_score Series_mean rows).
Proof.
  unfold compare_structure_with_constraints, structure_rows.
  destruct (dict_get CONSTRAINTS structure); [|reflexivity]. cbn [rbind].
  destruct (dict_get dvh_calcs roi); reflexivity.
Qed.

Lemma structure_rows_typed roi structure rows :
  structure_rows roi structure = Ok rows -> Forall constraint_typed rows.
Proof.
  unfold structure_rows.
  destruct (dict_get CONSTRAINTS structure); [|discriminate]. cbn [rbind].
  destruct (dict_get dvh_calcs roi); [|discriminate]. cbn [rbind].
  apply constraint_rows_typed.
Qed.

Lemma compare_scored roi structure rows :
  structure_rows roi structure = Ok rows -> rows <> [] ->
  compare_structure_with_constraints Series_mean roi structure dvh_calcs CONSTRAINTS
  = Ok (with_average rows).
Proof.
  intros H Hne. rewrite compare_structure_with_constraints_rows, H. cbn [rbind].
  destruct rows; [congruence | reflexivity].
Qed.

Lemma score_roi_matched roi aliases frames acc :
  Forall2 (fun structure rows =>
             structure_rows roi structure = Ok rows /\ rows <> [])
    (structures_matching roi aliases) frames ->
  score_roi Series_mean dvh_calcs CONSTRAINTS roi aliases acc
  = Ok (acc ++ flat_map with_average frames).
Proof.
  revert frames acc. induction aliases as [|[structure names] rest IH];
    intros frames acc H.
  - inversion H. simpl. rewrite app_nil_r. reflexivity.
  - unfold structures_matching in H. cbn [filter snd] in H.
    cbn [score_roi]. destruct (matches roi names).
    + cbn [map fst] in H. inversion H as [|? rows ? frames' [Hrows Hne] H']; subst.
      rewrite (compare_scored _ _ _ Hrows Hne). cbn [rbind].
      rewrite (IH frames' _ H'). cbn [flat_map]. rewrite app_assoc. reflexivity.
    + apply IH. exact H.
Qed.

Lemma Forall2_map_pair roi structures (frames : list table) :
  Forall2 (fun p rows => structure_rows (fst p) (snd p) = Ok rows /\ rows <> [])
    (map (pair roi) structures) frames ->
  Forall2 (fun structure rows =>
             structure_rows roi structure = Ok rows /\ rows <> [])
    structures frames.
Proof.
  revert frames. induction structures as [|x l IH]; intros frames H;
    inversion H; subst; constructor; auto.
Qed.

Lemma score_rois_matched rois frames acc :
  Forall2 (fun p rows => structure_rows (fst p) (snd p) = Ok rows /\ rows <> [])
    (matched_pairs rois) frames ->
  score_rois Series_mean dvh_calcs ALIASES CONSTRAINTS rois acc
  = Ok (acc ++ flat_map with_average frames).
Proof.
  revert frames acc. induction rois as [|roi rest IH]; intros frames acc H.
  - inversion H. simpl. rewrite app_nil_r. reflexivity.
  - cbn [matched_pairs flat_map] in H. apply Forall2_app_inv_l in H.
    destruct H as [f1 [f2 [H1 [H2 ->]]]].
    apply Forall2_map_pair in H1.
    cbn [score_rois]. rewrite (score_roi_matched _ _ _ acc H1). cbn [rbind].
    rewrite (IH f2 _ H2), flat_map_app, app_assoc. reflexivity.
Qed.

Lemma filter_average_frames (frames : list table) :
  Forall (Forall constraint_typed) frames ->
  filter is_average (flat_map with_average frames) = flat_map average_rows frames
  /\ filter is_total (flat_map with_average frames) = [].
Proof.
  intros H. induction H as [|rows frames Hrows H [IHa IHt]]; [split; reflexivity|].
  cbn [flat_map]. unfold with_average at 1 3.
  rewrite !filter_app, IHa, IHt.
  assert (Ea : filter is_average rows = []).
  { apply filter_none. intros r Hr. rewrite Forall_forall in Hrows.
    apply constraint_typed_not_aggregate. auto. }
  assert (Et : filter is_total rows = []).
  { apply filter_none. intros r Hr. rewrite Forall_forall in Hrows.
    apply constraint_typed_not_aggregate. auto. }
  rewrite Ea, Et. destruct rows; split; reflexivity.
Qed.

Lemma average_scores (frames : list table) :
  Forall (fun rows => rows <> []) frames ->
  map Score (flat_map average_rows frames)
  = map (fun rows => Series_mean (map Score rows)) frames.
Proof.
  intros H. induction H as [|rows frames Hne H IH]; [reflexivity|].
  destruct rows; [congruence|]. cbn [flat_map average_rows app map].
  rewrite IH. reflexivity.
Qed.

(** The shape of the scored table, whatever the two reductions compute:
    when some ROI matches a structure and the constraints of every
    matched structure are scored in at least one row, the scorer answers
    with the rows of the structures, each followed by one Average Score
    row holding the [mean] of the Scores of the rows of that structure,
    and closed by one Total Score row holding the [sum] of the Scores of
    the Average Score rows. *)
Lemma aggregate_rows_are_appended (frames : list table) :
  matched_pairs (map fst dvh_calcs) <> [] ->
  Forall2 (fun p rows => structure_rows (fst p) (snd p) = Ok rows /\ rows <> [])
    (matched_pairs (map fst dvh_calcs)) frames ->
  let constraints_df := flat_map with_average frames in
  let total := total_score Series_sum constraints_df in
  constraint_check Series_mean Series_sum dvh_calcs ALIASES CONSTRAINTS
  = Ok (constraints_df ++ [total])
  /\ Forall (fun rows =>
               filter is_average (with_average rows) = average_rows rows
               /\ List.length (average_rows rows) = 1
               /\ map Score (average_rows rows) = [Series_mean (map Score rows)])
       frames
  /\ filter is_average (constraints_df ++ [total]) = flat_map average_rows frames
  /\ List.length (filter is_average (constraints_df ++ [total]))
     = List.length (matched_pairs (map fst dvh_calcs))
  /\ filter is_total (constraints_df ++ [total]) = [total]
  /\ Score total
     = Series_sum (map (fun rows => Series_mean (map Score rows)) frames).
Proof.
  intros Hpairs Hframes constraints_df total.
  assert (Htyped : Forall (Forall constraint_typed) frames).
  { clear Hpairs. induction Hframes as [|p rows ps fs [Hrows _] H IH];
      constructor; [|exact IH]. eapply structure_rows_typed. exact Hrows. }
  assert (Hne : Forall (fun rows : table => rows <> []) frames).
  { clear Hpairs Htyped. induction Hframes as [|p rows ps fs [_ Hne] H IH];
      constructor; auto. }
  destruct (filter_average_frames frames Htyped) as [Ha Ht].
  assert (Hlen : List.length (flat_map average_rows frames)
                 = List.length (matched_pairs (map fst dvh_calcs))).
  { rewrite (Forall2_length Hframes). clear - Hne.
    induction Hne as [|rows frames Hrows H IH]; [reflexivity|].
    destruct rows; [congruence|]. cbn [flat_map average_rows app List.length].
    rewrite IH. reflexivity. }
  split; [|split; [|split; [|split; [|split]]]].
  - unfold constraint_check. cbn zeta.
    rewrite (score_rois_matched _ frames [] Hframes). cbn [rbind app].
    fold constraints_df.
    destruct constraints_df as [|r rest] eqn:E; [|reflexivity].
    exfalso. unfold constraints_df in E.
    destruct Hframes as [|p rows ps fs [_ Hrows] H]; [congruence|].
    cbn [flat_map] in E. unfold with_average in E.
    destruct rows; [congruence | discriminate E].
  - clear - Htyped Hne. rewrite Forall_forall in *. intros rows Hrows.
    specialize (Htyped rows Hrows). specialize (Hne rows Hrows).
    destruct (filter_average_frames [rows]) as [E _];
      [constructor; [exact Htyped | constructor]|].
    cbn [flat_map] in E. rewrite !app_nil_r in E.
    split; [exact E|]. destruct rows; [congruence|]. split; reflexivity.
  - rewrite filter_app. fold constraints_df in Ha. rewrite Ha.
    apply app_nil_r.
  - rewrite filter_app. fold constraints_df in Ha. rewrite Ha.
    cbn [filter is_average total total_score Type_ String.eqb].
    rewrite app_nil_r. exact Hlen.
  - rewrite filter_app. fold constraints_df in Ht. rewrite Ht. reflexivity.
  - unfold total, total_score. cbn [Score]. fold constraints_df in Ha.
    rewrite Ha, (average_scores frames Hne). reflexivity.
Qed.

(** The calls of [compare_structure_with_constraints] for one ROI, given
    the structures to score. *)
Fixpoint score_structures (roi : string) (structures : list string)
    (constraints_df : table) : result table :=
  match structures with
  | [] => Ok constraints_df
  | structure :: rest =>
      let? structure_df :=
        compare_structure_with_constraints Series_mean roi structure
          dvh_calcs CONSTRAINTS in
      score_structures roi rest (constraints_df ++ structure_df)
  end.

Lemma matches_spec roi aliases :
  matches roi aliases = true <-> In (strip (lower roi)) aliases.
Proof.
  unfold matches. rewrite existsb_exists. split.
  - intros [a [Ha E]]. apply String.eqb_eq in E. subst. exact Ha.
  - intros H. exists (strip (lower roi)). split; [exact H|].
    apply String.eqb_refl.
Qed.

Lemma structures_matching_spec roi aliases structure :
  In structure (structures_matching roi aliases)
  <-> exists names, In (structure, names) aliases
                    /\ In (strip (lower roi)) names.
Proof.
  unfold structures_matching. rewrite in_map_iff. split.
  - intros [[s names] [E H]]. simpl in E. subst s. apply filter_In in H.
    destruct H as [H M]. exists names. split; [exact H|].
    apply matches_spec. exact M.
  - intros [names [H M]]. exists (structure, names). split; [reflexivity|].
    apply filter_In. split; [exact H|]. apply matches_spec. exact M.
Qed.

Lemma score_roi_scores_the_matching roi aliases acc :
  score_roi Series_mean dvh_calcs CONSTRAINTS roi aliases acc
  = score_structures roi (structures_matching roi aliases) acc.
Proof.
  revert acc. induction aliases as [|[structure names] rest IH]; intros acc;
    [reflexivity|].
  unfold structures_matching. cbn [score_roi filter snd].
  destruct (matches roi names); [|apply IH].
  cbn [map fst score_structures].
  destruct (compare_structure_with_constraints Series_mean roi structure
              dvh_calcs CONSTRAINTS); [|reflexivity].
  cbn [rbind]. apply IH.
Qed.

Lemma unmatched_structures_matching roi :
  (forall structure names,
      In (structure, names) ALIASES -> ~ In (strip (lower roi)) names) ->
  structures_matching roi ALIASES = [].
Proof.
  intros H. destruct (structures_matching roi ALIASES) as [|s l] eqn:E;
    [reflexivity|].
  assert (Hs : In s (structures_matching roi ALIASES))
    by (rewrite E; left; reflexivity).
  apply structures_matching_spec in Hs. destruct Hs as [names [Hn Hm]].
  exfalso. exact (H s names Hn Hm).
Qed.

Lemma score_rois_app before after acc :
  score_rois Series_mean dvh_calcs ALIASES CONSTRAINTS (before ++ after) acc
  = (let? constraints_df :=
       score_rois Series_mean dvh_calcs ALIASES CONSTRAINTS before acc in
     score_rois Series_mean dvh_calcs ALIASES CONSTRAINTS after constraints_df).
Proof.
  revert acc. induction before as [|roi rest IH]; intros acc; [reflexivity|].
  cbn [app score_rois].
  destruct (score_roi Series_mean dvh_calcs CONSTRAINTS roi ALIASES acc);
    [|reflexivity].
  cbn [rbind]. apply IH.
Qed.

(** C9: an ROI is scored against a structure exactly when its name,
    lower-cased and without the spaces at its ends, is one of the aliases
    of the structure; [" Liver "] matches the alias ["liver"] and
    ["liver_ptv"] does not.  An ROI that matches no structure adds no row
    and raises nothing: the loop goes on as if the ROI were not there. *)
Theorem roi_is_scored_when_an_alias_matches :
  (forall roi aliases,
      matches roi aliases = true <-> In (strip (lower roi)) aliases)
  /\ (forall roi structure,
        In structure (structures_matching roi ALIASES)
        <-> exists names, In (structure, names) ALIASES
                          /\ In (strip (lower roi)) names)
  /\ (forall roi constraints_df,
        score_roi Series_mean dvh_calcs CONSTRAINTS roi ALIASES constraints_df
        = score_structures roi (structures_matching roi ALIASES) constraints_df)
  /\ matches " Liver " ["liver"] = true
  /\ matches "liver_ptv" ["liver"] = false
  /\ (forall roi,
        (forall structure names,
            In (structure, names) ALIASES -> ~ In (strip (lower roi)) names) ->
        (forall constraints_df,
            score_roi Series_mean dvh_calcs CONSTRAINTS roi ALIASES constraints_df
            = Ok constraints_df)
        /\ (forall before after constraints_df,
              score_rois Series_mean dvh_calcs ALIASES CONSTRAINTS
                (before ++ roi :: after) constraints_df
              = score_rois Series_mean dvh_calcs ALIASES CONSTRAINTS
                  (before ++ after) constraints_df)).
Proof.
  split; [exact matches_spec|].
  split; [intros roi structure; apply structures_matching_spec|].
  split; [exact (fun roi df => score_roi_scores_the_matching roi ALIASES df)|].
  split; [reflexivity|]. split; [reflexivity|].
  intros roi Hroi.
  assert (Hskip : forall constraints_df,
            score_roi Series_mean dvh_calcs CONSTRAINTS roi ALIASES constraints_df
            = Ok constraints_df).
  { intros df. rewrite score_roi_scores_the_matching,
      (unmatched_structures_matching roi Hroi). reflexivity. }
  split; [exact Hskip|].
  intros before after df. rewrite !score_rois_app.
  destruct (score_rois Series_mean dvh_calcs ALIASES CONSTRAINTS before df)
    as [df'|]; [|reflexivity].
  cbn [rbind score_rois]. rewrite Hskip. reflexivity.
Qed.

End PlanFacts.

(* --------------------------------------------------------------------- *)
(** *** A closed plan *)
(* --------------------------------------------------------------------- *)

(** The reductions of pandas on a short column: values that are NaN are
    skipped, the others are added from left to right; the mean of no
    value is NaN. *)
Definition dropna (l : list float) : list float :=
  filter (fun v => negb (Float64.is_nan v)) l.

Definition nansum (l : list float) : float :=
  fold_left Float64.add (dropna l) (Float64.of_Z 0).

Definition nanmean (l : list float) : float :=
  match dropna l with
  | [] => Float64.nan
  | values =>
      Float64.div (fold_left Float64.add values (Float64.of_Z 0))
        (Float64.of_Z (Z.of_nat (List.length values)))
  end.

(** The scores 1, -2 and 3 average to two thirds. *)
Example average_of_three_scores :
  nanmean [Float64.of_Z 1; Float64.of_Z (-2); Float64.of_Z 3]
  = Float64.div (Float64.of_Z 2) (Float64.of_Z 3).
Proof. vm_compute. reflexivity. Qed.

(** A placeholder threshold adds no row, whatever its type. *)
Example placeholder_adds_no_row roi structure structure_dvh type :
  rows_of_item roi structure structure_dvh (type, Placeholder) = Ok [].
Proof. reflexivity. Qed.

(** A DVH with a mean dose of 20 Gy. *)
Definition liver_dvh : DVH :=
  {| mean := Float64.of_Z 20; max := Float64.of_Z 30;
     volume := Float64.of_Z 1000;
     dose_constraint := fun _ => Float64.of_Z 25;
     dose_constraint_cm3 := fun _ => Float64.of_Z 25;
     volume_constraint := fun _ => Float64.of_Z 400 |}.

Definition plan_dvhs : list (string * DVH) :=
  [(" Liver ", liver_dvh); ("liver_ptv", liver_dvh)].

Definition plan_aliases : list (string * list string) :=
  [("Liver", ["liver"; "hepatic"]); ("Heart", ["heart"])].

(** A Mean threshold of 18 Gy, no Max threshold, 30 Gy to half of the
    volume. *)
Definition plan_constraints : list (string * list (string * constraint)) :=
  [("Liver", [("Mean", Entries [[Float64.of_Z 18]]);
              ("Max", Placeholder);
              ("V%", Entries [[Float64.of_Z 30; Float64.of_scaled 1 (-1)]]);
              ("D%", Placeholder)])].

Lemma mean_constraint_is_scored_witness :
  exists df,
    compare_structure_with_constraints nanmean " Liver " "Liver"
      plan_dvhs plan_constraints = Ok df
    /\ In {| Structure := " Liver "; Structure_Key := "Liver"; Type_ := "Mean";
             Dose_Gy := Num (Float64.of_Z 18); Volume_pct := dash;
             Actual_Dose_Gy := Num (Float64.of_Z 20);
             Actual_Volume_pct := dash;
             Score := Float64.of_Z (-2) |} df.
Proof.
  exact (mean_constraint_is_scored nanmean " Liver " "Liver" plan_dvhs
           plan_constraints
           [("Mean", Entries [[Float64.of_Z 18]]);
            ("Max", Placeholder);
            ("V%", Entries [[Float64.of_Z 30; Float64.of_scaled 1 (-1)]]);
            ("D%", Placeholder)]
           liver_dvh [[Float64.of_Z 18]] [Float64.of_Z 18] (Float64.of_Z 18)
           eq_refl eq_refl eq_refl (or_introl eq_refl) (or_introl eq_refl)
           eq_refl).
Defined.

(** The rows that score the liver of the plan. *)
Definition liver_rows : table :=
  Eval vm_compute in
    match structure_rows plan_dvhs plan_constraints " Liver " "Liver" with
    | Ok rows => rows
    | Raise _ => []
    end.

(** The sum of a list of scores, added from left to right from zero, and
    their arithmetic mean, as C8 words them. *)
Definition sum_of (scores : list float) : float :=
  fold_left Float64.add scores (Float64.of_Z 0).

Definition arithmetic_mean (scores : list float) : float :=
  Float64.div (sum_of scores) (Float64.of_Z (Z.of_nat (List.length scores))).

(** [average] is the arithmetic mean of the scores that are numbers, and
    NaN when no score is a number. *)
Definition mean_of_the_numbers (scores : list float) (average : float) : Prop :=
  match dropna scores with
  | [] => average = Float64.nan
  | numbers => average = arithmetic_mean numbers
  end.

Lemma nanmean_is_the_mean_of_the_numbers scores :
  mean_of_the_numbers scores (nanmean scores).
Proof.
  unfold mean_of_the_numbers, nanmean. destruct (dropna scores); reflexivity.
Qed.

Lemma dropna_numbers scores :
  forallb (fun v => negb (Float64.is_nan v)) scores = true ->
  dropna scores = scores.
Proof.
  intros H. unfold dropna. apply filter_id. apply forallb_forall. exact H.
Qed.

Lemma nanmean_of_numbers scores :
  scores <> [] ->
  forallb (fun v => negb (Float64.is_nan v)) scores = true ->
  nanmean scores = arithmetic_mean scores.
Proof.
  intros Hne H. unfold nanmean. rewrite (dropna_numbers scores H).
  destruct scores; [congruence | reflexivity].
Qed.

(** C8, amended: when some ROI matches a structure and the constraints of
    every matched structure are scored in at least one row, the rows of
    every structure are followed by exactly one Average Score row, whose
    Score is the arithmetic mean of the structure's scores that are not
    NaN (NaN when all are; the arithmetic mean of all the scores when
    none is NaN), and the table ends with exactly one Total Score row,
    whose Score is the sum of the Average Scores that are not NaN.  Sums
    are accumulated in row order in binary64, as pandas reduces a short
    column. *)
Theorem averages_are_appended_and_summed
    dvh_calcs ALIASES CONSTRAINTS (frames : list table) :
  matched_pairs ALIASES (map fst dvh_calcs) <> [] ->
  Forall2 (fun p rows =>
             structure_rows dvh_calcs CONSTRAINTS (fst p) (snd p) = Ok rows
             /\ rows <> [])
    (matched_pairs ALIASES (map fst dvh_calcs)) frames ->
  exists averages total,
    let constraints_df := flat_map (with_average nanmean) frames ++ [total] in
    constraint_check nanmean nansum dvh_calcs ALIASES CONSTRAINTS
    = Ok constraints_df
    /\ Forall2 (fun rows average =>
                  (exists row,
                      with_average nanmean rows = rows ++ [row]
                      /\ filter is_average (rows ++ [row]) = [row]
                      /\ Score row = average)
                  /\ mean_of_the_numbers (map Score rows) average
                  /\ (forallb (fun v => negb (Float64.is_nan v)) (map Score rows)
                      = true ->
                      average = arithmetic_mean (map Score rows)))
         frames averages
    /\ map Score (filter is_average constraints_df) = averages
    /\ List.length averages
       = List.length (matched_pairs ALIASES (map fst dvh_calcs))
    /\ filter is_total constraints_df = [total]
    /\ Score total = sum_of (dropna averages).
Proof.
  intros Hpairs Hframes.
  destruct (aggregate_rows_are_appended nanmean nansum dvh_calcs ALIASES
              CONSTRAINTS frames Hpairs Hframes)
    as [Hcheck [Hrows [Havg [Hlen [Htot Hscore]]]]].
  assert (Hne : Forall (fun rows : table => rows <> []) frames).
  { clear - Hframes. induction Hframes as [|p rows ps fs [_ Hne] H IH];
      constructor; auto. }
  exists (map (fun rows => nanmean (map Score rows)) frames).
  exists (total_score nansum (flat_map (with_average nanmean) frames)).
  cbv zeta. split; [exact Hcheck|]. split; [|split; [|split; [|split]]].
  - clear - Hrows Hne. induction frames as [|rows frames IH]; [constructor|].
    inversion Hrows as [|? ? [Hf _] Hrest]; subst.
    inversion Hne as [|? ? Hr Hne']; subst.
    constructor; [|exact (IH Hrest Hne')].
    split; [|split].
    + destruct rows as [|first rest]; [congruence|].
      exists (average_oar_scores nanmean first (first :: rest)).
      split; [reflexivity|]. split; [exact Hf | reflexivity].
    + apply nanmean_is_the_mean_of_the_numbers.
    + intros H. apply nanmean_of_numbers; [|exact H].
      destruct rows; [congruence | discriminate].
  - rewrite Havg. apply average_scores. exact Hne.
  - rewrite length_map. symmetry. exact (Forall2_length Hframes).
  - exact Htot.
  - rewrite Hscore. reflexivity.
Qed.

Lemma averages_are_appended_and_summed_witness :
  exists averages total,
    constraint_check nanmean nansum plan_dvhs plan_aliases plan_constraints
    = Ok (flat_map (with_average nanmean) [liver_rows] ++ [total])
    /\ averages = [arithmetic_mean (map Score liver_rows)]
    /\ Score total = sum_of (dropna averages).
Proof.
  destruct (averages_are_appended_and_summed plan_dvhs plan_aliases
              plan_constraints [liver_rows])
    as [averages [total [H1 [H2 [_ [_ [_ H6]]]]]]].
  - vm_compute. discriminate.
  - change (matched_pairs plan_aliases (map fst plan_dvhs))
      with [(" Liver ", "Liver")].
    constructor; [|constructor].
    split; [vm_compute; reflexivity | discriminate].
  - exists averages, total. split; [exact H1|]. split; [|exact H6].
    inversion H2 as [|? a ? l [_ [_ E]] Hl]; subst.
    inversion Hl; subst. f_equal. apply E. vm_compute. reflexivity.
Defined.

(** A DVH whose mean dose is NaN, as the one of a structure without
    volume. *)
Definition nan_mean_dvh : DVH :=
  {| mean := Float64.nan; max := Float64.of_Z 30;
     volume := Float64.of_Z 1000;
     dose_constraint := fun _ => Float64.of_Z 25;
     dose_constraint_cm3 := fun _ => Float64.of_Z 25;
     volume_constraint := fun _ => Float64.of_Z 400 |}.

Definition nan_mean_plan : list (string * DVH) := [("liver", nan_mean_dvh)].

(** C8 fails as stated: the liver of this plan has the scores NaN (its
    Mean row) and 15 (its V% row); their arithmetic mean is NaN, and the
    Score of the Average Score row is 15, the mean of the one score that
    is a number. *)
Lemma a_nan_score_is_left_out_of_the_average :
  exists rows average total,
    structure_rows nan_mean_plan plan_constraints "liver" "Liver" = Ok rows
    /\ constraint_check nanmean nansum nan_mean_plan plan_aliases plan_constraints
       = Ok (rows ++ [average; total])
    /\ Type_ average = "Average Score"
    /\ map Score rows = [Float64.nan; Float64.of_Z 15]
    /\ Float64.is_nan (arithmetic_mean (map Score rows)) = true
    /\ Score average = Float64.of_Z 15
    /\ Score average <> arithmetic_mean (map Score rows).
Proof.
  eexists. eexists. eexists.
  split; [vm_compute; reflexivity|].
  split; [vm_compute; reflexivity|].
  split; [reflexivity|]. split; [vm_compute; reflexivity|].
  split; [vm_compute; reflexivity|]. split; [vm_compute; reflexivity|].
  vm_compute. discriminate.
Qed.

Lemma roi_is_scored_when_an_alias_matches_witness :
  structures_matching " Liver " plan_aliases = ["Liver"]
  /\ structures_matching "liver_ptv" plan_aliases = []
  /\ score_roi nanmean plan_dvhs plan_constraints "liver_ptv" plan_aliases []
     = Ok [].
Proof.
  split; [reflexivity|]. split; [reflexivity|].
  apply (proj2 (proj2 (proj2 (proj2 (proj2
           (roi_is_scored_when_an_alias_matches nanmean plan_dvhs
              plan_aliases plan_constraints)))))).
  intros structure names H.
  destruct H as [H|[H|[]]]; inversion H; subst; simpl;
    intros M; repeat (destruct M as [M|M]; [discriminate M|]); exact M.
Defined.

End Scorer.

(* ===================================================================== *)
(** ** Further properties of the locator *)
(* ===================================================================== *)

Module LocatorMore.

Import Locator.

Unset Implicit Arguments.

(** The outcome of a search that either answers or fails to converge
    (raises [ValueError]). *)
Definition recoverable {A} (r : result A) : Prop :=
  match r with
  | Ok _ => True
  | Raise e => exists msg, e = ValueError msg
  end.

Lemma except_ValueError_never_ValueError {A} (r : result A) (h : A) msg :
  except_ValueError r h <> Raise (ValueError msg).
Proof. destruct r as [a|[k|m| |m]]; simpl; discriminate. Qed.

Lemma except_ValueError_recoverable {A} (r : result A) (h : A) :
  recoverable r -> exists a, except_ValueError r h = Ok a.
Proof.
  destruct r as [a|e]; simpl; [eauto|]. intros [msg ->]. eauto.
Qed.

Lemma dict_get_never_ValueError {V} (d : list (string * V)) k msg :
  dict_get d k <> Raise (ValueError msg).
Proof.
  induction d as [|[k' v] d IH]; simpl; [discriminate|].
  destruct (String.eqb k' k); [discriminate | exact IH].
Qed.

Section WithCollaborators.

Variable C : Collaborators.

Lemma guard_is_false (p : wlutz_input_parameters C) :
  rotation_is_nan_guard p = false.
Proof. unfold rotation_is_nan_guard. apply Float64.eqb_nan_r. Qed.

Lemma calculate_wlutz_dispatch path algorithm bb el pen :
  _calculate_wlutz C path algorithm bb el pen
  = match _get_wlutz_input_parameters C path bb el pen with
    | Ok p =>
        if String.eqb "PyMedPhys" algorithm then _pymedphys_wlutz_calculate p
        else if String.eqb "PyLinac" algorithm then _pylinac_wlutz_calculate p
        else Raise (KeyError algorithm)
    | Raise e => Raise e
    end.
Proof.
  unfold _calculate_wlutz.
  destruct (_get_wlutz_input_parameters C path bb el pen) as [p|e];
    cbn [rbind]; [|reflexivity].
  rewrite guard_is_false. unfold ALGORITHM_FUNCTION_MAP. cbn [dict_get].
  destruct (String.eqb "PyMedPhys" algorithm); cbn [rbind]; [reflexivity|].
  destruct (String.eqb "PyLinac" algorithm); reflexivity.
Qed.

Lemma field_parameters_never_ValueError path el pen msg :
  _get_field_parameters C path el pen <> Raise (ValueError msg).
Proof.
  unfold _get_field_parameters, _get_pymedphys_field_centre_and_rotation.
  destruct (_load_image_field_interpolator C path) as [[[x0 y0] im] fl].
  pose proof (except_ValueError_never_ValueError
                (field_centre_and_rotation_refining C fl el pen
                   (get_centre_of_mass C x0 y0 im))
                (nan_point, Float64.nan) msg) as H.
  destruct (except_ValueError _ _) as [[c r]|e]; cbn [rbind];
    [discriminate | congruence].
Qed.

Lemma input_parameters_never_ValueError path bb el pen msg :
  _get_wlutz_input_parameters C path bb el pen <> Raise (ValueError msg).
Proof.
  unfold _get_wlutz_input_parameters.
  pose proof (field_parameters_never_ValueError path el pen msg) as H.
  destruct (_get_field_parameters C path el pen)
    as [[[[[[x0 y0] im] fl] c] r]|e]; cbn [rbind];
    [discriminate | congruence].
Qed.

Lemma pymedphys_never_ValueError (p : wlutz_input_parameters C) msg :
  _pymedphys_wlutz_calculate p <> Raise (ValueError msg).
Proof.
  unfold _pymedphys_wlutz_calculate.
  pose proof (except_ValueError_never_ValueError
                (optimise_bb_centre C (field p) (bb_diameter p) (edge_lengths p)
                   (penumbra p) (pymedphys_field_centre p) (field_rotation p))
                nan_point msg) as H.
  destruct (except_ValueError _ _) as [b|e]; cbn [rbind];
    [discriminate | congruence].
Qed.

Lemma pylinac_never_ValueError (p : wlutz_input_parameters C) msg :
  _pylinac_wlutz_calculate p <> Raise (ValueError msg).
Proof.
  unfold _pylinac_wlutz_calculate.
  match goal with
  | |- context [except_ValueError ?r ?h] =>
      pose proof (except_ValueError_never_ValueError r h msg) as H;
      destruct (except_ValueError r h) as [[f b]|e]
  end; cbn [rbind]; [discriminate | congruence].
Qed.

(** An algorithm name outside the dispatch table raises [KeyError] with
    that name, once the input parameters are there. *)
Theorem unknown_algorithm_raises_KeyError path algorithm bb el pen p :
  _get_wlutz_input_parameters C path bb el pen = Ok p ->
  algorithm <> "PyMedPhys" -> algorithm <> "PyLinac" ->
  _calculate_wlutz C path algorithm bb el pen = Raise (KeyError algorithm).
Proof.
  intros Hp H1 H2. rewrite calculate_wlutz_dispatch, Hp.
  destruct (String.eqb_spec "PyMedPhys" algorithm) as [E|_]; [congruence|].
  destruct (String.eqb_spec "PyLinac" algorithm) as [E|_]; [congruence|].
  reflexivity.
Qed.

Lemma calculate_wlutz_rotation path algorithm bb el pen fc rot bbc :
  _calculate_wlutz C path algorithm bb el pen = Ok (fc, rot, bbc) ->
  exists x0 y0 im fl c,
    _get_field_parameters C path el pen = Ok (x0, y0, im, fl, c, rot).
Proof.
  rewrite calculate_wlutz_dispatch. unfold _get_wlutz_input_parameters.
  destruct (_get_field_parameters C path el pen)
    as [[[[[[x0 y0] im] fl] c] r]|e]; cbn [rbind]; [|discriminate].
  intros H. exists x0, y0, im, fl, c. f_equal. f_equal.
  destruct (String.eqb "PyMedPhys" algorithm).
  - unfold _pymedphys_wlutz_calculate in H.
    destruct (except_ValueError _ _); cbn [rbind] in H; [|discriminate].
    cbn [field_rotation] in H. congruence.
  - destruct (String.eqb "PyLinac" algorithm); [|discriminate].
    unfold _pylinac_wlutz_calculate in H.
    destruct (except_ValueError _ _) as [[f b]|]; cbn [rbind] in H;
      [|discriminate].
    cbn [field_rotation] in H. congruence.
Qed.

(** The rotation of a result is the one of the PyMedPhys field
    refinement: for one image, one pair of edge lengths and one penumbra
    it is the same for every algorithm and every BB diameter. *)
Theorem rotation_does_not_depend_on_the_algorithm
    path algorithm1 algorithm2 bb1 bb2 el pen r1 r2 :
  _calculate_wlutz C path algorithm1 bb1 el pen = Ok r1 ->
  _calculate_wlutz C path algorithm2 bb2 el pen = Ok r2 ->
  snd (fst r1) = snd (fst r2).
Proof.
  destruct r1 as [[f1 rot1] b1], r2 as [[f2 rot2] b2]. intros H1 H2.
  apply calculate_wlutz_rotation in H1. apply calculate_wlutz_rotation in H2.
  destruct H1 as [? [? [? [? [? H1]]]]]. destruct H2 as [? [? [? [? [? H2]]]]].
  simpl. congruence.
Qed.

End WithCollaborators.

Lemma unknown_algorithm_raises_KeyError_witness :
  _calculate_wlutz all_found "image.jpg" "Pylinac"
    (Float64.of_Z 8) [Float64.of_Z 10; Float64.of_Z 10] (Float64.of_Z 2)
  = Raise (KeyError "Pylinac").
Proof.
  eapply (unknown_algorithm_raises_KeyError all_found);
    [reflexivity | discriminate | discriminate].
Defined.

Lemma rotation_does_not_depend_on_the_algorithm_witness :
  snd (fst (origin, Float64.of_Z 0, nan_point))
  = snd (fst (nan_point, Float64.of_Z 0, nan_point)).
Proof.
  exact (rotation_does_not_depend_on_the_algorithm bb_not_found "image.jpg"
           "PyMedPhys" "PyLinac" (Float64.of_Z 8) (Float64.of_Z 12)
           [Float64.of_Z 10; Float64.of_Z 10] (Float64.of_Z 2)
           (origin, Float64.of_Z 0, nan_point)
           (nan_point, Float64.of_Z 0, nan_point) eq_refl eq_refl).
Defined.

(* --------------------------------------------------------------------- *)
(** *** Reading the image can raise *)
(* --------------------------------------------------------------------- *)

Module Raising.

(** Reading the file, the iView transform, the interpolation and the
    centre of mass run outside every [try] of the source: here they can
    raise as the searches can. *)
Record Readers (C : Collaborators) : Type := {
  imread : string -> result (RawImage C);
  iview_image_transform : RawImage C -> result (Axis C * Axis C * Image C);
  create_interpolated_field : Axis C -> Axis C -> Image C -> result (Field C);
  get_centre_of_mass : Axis C -> Axis C -> Image C -> result point
}.

Section WithReaders.

Variable C : Collaborators.
Variable R : Readers C.

Definition _load_image_field_interpolator (image_path : string)
  : result (Axis C * Axis C * Image C * Field C) :=
  (let? raw_image := imread C R image_path in
   let? '(x, y, image) := iview_image_transform C R raw_image in
   let? field := create_interpolated_field C R x y image in
   Ok (x, y, image, field))%result.

Definition _get_pymedphys_field_centre_and_rotation
    (image_path : string) (edge_lengths : list float) (penumbra : float)
  : result (point * float) :=
  (let? '(x, y, image, field) := _load_image_field_interpolator image_path in
   let? initial_centre := get_centre_of_mass C R x y image in
   except_ValueError
     (field_centre_and_rotation_refining C field edge_lengths penumbra
        initial_centre)
     (nan_point, Float64.nan))%result.

Definition _get_field_parameters
    (image_path : string) (edge_lengths : list float) (penumbra : float)
  : result (Axis C * Axis C * Image C * Field C * point * float) :=
  (let? '(x, y, image, field) := _load_image_field_interpolator image_path in
   let? '(field_centre, field_rotation) :=
     _get_pymedphys_field_centre_and_rotation image_path edge_lengths penumbra in
   Ok (x, y, image, field, field_centre, field_rotation))%result.

Definition _get_wlutz_input_parameters
    (image_path : string) (bb_diameter : float)
    (edge_lengths : list float) (penumbra : float)
  : result (wlutz_input_parameters C) :=
  (let? '(x, y, image, field, field_centre, field_rotation) :=
     _get_field_parameters image_path edge_lengths penumbra in
   Ok (@Build_wlutz_input_parameters C bb_diameter edge_lengths penumbra
         x y image field field_centre field_rotation))%result.

Definition _calculate_wlutz
    (image_path algorithm : string) (bb_diameter : float)
    (edge_lengths : list float) (penumbra : float)
  : result located :=
  (let? p :=
     _get_wlutz_input_parameters image_path bb_diameter edge_lengths penumbra in
   if rotation_is_nan_guard p then
     Ok (nan_point, Float64.nan, nan_point)
   else
     let? calculate_function := dict_get (ALGORITHM_FUNCTION_MAP C) algorithm in
     calculate_function p)%result.

Lemma calculate_wlutz_after_reading path algorithm bb el pen x y image field initial :
  _load_image_field_interpolator path = Ok (x, y, image, field) ->
  get_centre_of_mass C R x y image = Ok initial ->
  _calculate_wlutz path algorithm bb el pen
  = (let? cr := except_ValueError
                  (field_centre_and_rotation_refining C field el pen initial)
                  (nan_point, Float64.nan) in
     let p := @Build_wlutz_input_parameters C bb el pen x y image field
                (fst cr) (snd cr) in
     if String.eqb "PyMedPhys" algorithm then _pymedphys_wlutz_calculate p
     else if String.eqb "PyLinac" algorithm then _pylinac_wlutz_calculate p
     else Raise (KeyError algorithm))%result.
Proof.
  intros Hload Hcom.
  unfold _calculate_wlutz, _get_wlutz_input_parameters, _get_field_parameters,
    _get_pymedphys_field_centre_and_rotation.
  rewrite Hload. cbn [rbind]. rewrite Hcom. cbn [rbind].
  destruct (except_ValueError _ _) as [[c r]|e]; cbn [rbind fst snd];
    [|reflexivity].
  rewrite guard_is_false. unfold ALGORITHM_FUNCTION_MAP. cbn [dict_get].
  destruct (String.eqb "PyMedPhys" algorithm); cbn [rbind]; [reflexivity|].
  destruct (String.eqb "PyLinac" algorithm); reflexivity.
Qed.

(** An exception of the reading of the image or of the centre of mass
    leaves [_calculate_wlutz] as it is, a [ValueError] included, whatever
    the algorithm.  Once the image is read and its centre of mass found,
    a [ValueError] of the field refinement, of the BB optimisation or of
    the third-party detector never leaves [_calculate_wlutz]; and when
    the refinement and the BB optimisation fail in no other way, the
    PyMedPhys algorithm returns a result. *)
Theorem search_failures_do_not_stop_the_detection path bb el pen :
  (forall e algorithm,
      _load_image_field_interpolator path = Raise e ->
      _calculate_wlutz path algorithm bb el pen = Raise e)
  /\ (forall x y image field,
        _load_image_field_interpolator path = Ok (x, y, image, field) ->
        (forall e algorithm,
            get_centre_of_mass C R x y image = Raise e ->
            _calculate_wlutz path algorithm bb el pen = Raise e)
        /\ (forall initial,
              get_centre_of_mass C R x y image = Ok initial ->
              (forall algorithm msg,
                  _calculate_wlutz path algorithm bb el pen
                  <> Raise (ValueError msg))
              /\ (recoverable
                    (field_centre_and_rotation_refining C field el pen initial) ->
                  (forall d c r,
                      recoverable (optimise_bb_centre C field d el pen c r)) ->
                  exists r,
                    _calculate_wlutz path "PyMedPhys" bb el pen = Ok r))).
Proof.
  split.
  - intros e algorithm H.
    unfold _calculate_wlutz, _get_wlutz_input_parameters, _get_field_parameters.
    rewrite H. reflexivity.
  - intros x y image field Hload. split.
    + intros e algorithm H.
      unfold _calculate_wlutz, _get_wlutz_input_parameters,
        _get_field_parameters, _get_pymedphys_field_centre_and_rotation.
      rewrite Hload. cbn [rbind]. rewrite H. reflexivity.
    + intros initial Hcom. split.
      * intros algorithm msg.
        rewrite (calculate_wlutz_after_reading path algorithm bb el pen
                   x y image field initial Hload Hcom).
        pose proof (except_ValueError_never_ValueError
                      (field_centre_and_rotation_refining C field el pen initial)
                      (nan_point, Float64.nan) msg) as Hr.
        destruct (except_ValueError _ _) as [cr|e]; cbn [rbind]; [|congruence].
        cbv zeta.
        destruct (String.eqb "PyMedPhys" algorithm);
          [apply pymedphys_never_ValueError|].
        destruct (String.eqb "PyLinac" algorithm);
          [apply pylinac_never_ValueError | discriminate].
      * intros Hrefine Hbb.
        rewrite (calculate_wlutz_after_reading path "PyMedPhys" bb el pen
                   x y image field initial Hload Hcom).
        assert (Hp : forall c r,
                   exists b,
                     _pymedphys_wlutz_calculate
                       (@Build_wlutz_input_parameters C bb el pen x y image field
                          c r)
                     = Ok b).
        { intros c r. unfold _pymedphys_wlutz_calculate.
          cbn [Locator.field bb_diameter edge_lengths penumbra
               pymedphys_field_centre field_rotation].
          specialize (Hbb bb c r).
          destruct (optimise_bb_centre C field bb el pen c r) as [b|e].
          - cbn [except_ValueError rbind]. eauto.
          - destruct Hbb as [m ->]. cbn [except_ValueError rbind]. eauto. }
        destruct (field_centre_and_rotation_refining C field el pen initial)
          as [[c r]|e].
        -- cbn [except_ValueError rbind fst snd]. cbv zeta.
           rewrite String.eqb_refl. apply Hp.
        -- destruct Hrefine as [m ->].
           cbn [except_ValueError rbind fst snd]. cbv zeta.
           rewrite String.eqb_refl. apply Hp.
Qed.

End WithReaders.

(** Readers that always return what the collaborators of the locator
    give. *)
Definition returning (C : Collaborators) : Readers C :=
  {| imread := fun image_path => Ok (Locator.imread C image_path);
     iview_image_transform :=
       fun raw_image => Ok (Locator.iview_image_transform C raw_image);
     create_interpolated_field :=
       fun x y image => Ok (Locator.create_interpolated_field C x y image);
     get_centre_of_mass :=
       fun x y image => Ok (Locator.get_centre_of_mass C x y image) |}.

(** With readers that return, this is [Locator._calculate_wlutz]. *)
Lemma calculate_wlutz_returning C path algorithm bb el pen :
  _calculate_wlutz C (returning C) path algorithm bb el pen
  = Locator._calculate_wlutz C path algorithm bb el pen.
Proof.
  unfold _calculate_wlutz, Locator._calculate_wlutz,
    _get_wlutz_input_parameters, Locator._get_wlutz_input_parameters,
    _get_field_parameters, Locator._get_field_parameters,
    _get_pymedphys_field_centre_and_rotation,
    Locator._get_pymedphys_field_centre_and_rotation,
    _load_image_field_interpolator, Locator._load_image_field_interpolator.
  cbn [returning imread iview_image_transform create_interpolated_field
       get_centre_of_mass rbind].
  destruct (Locator.iview_image_transform C (Locator.imread C path))
    as [[x0 y0] im].
  cbn [rbind]. reflexivity.
Qed.

(** Readers that do not find the file. *)
Definition file_not_found (C : Collaborators) : Readers C :=
  {| imread := fun _ => Raise (OtherError "FileNotFoundError");
     iview_image_transform :=
       fun raw_image => Ok (Locator.iview_image_transform C raw_image);
     create_interpolated_field :=
       fun x y image => Ok (Locator.create_interpolated_field C x y image);
     get_centre_of_mass :=
       fun x y image => Ok (Locator.get_centre_of_mass C x y image) |}.

Lemma search_failures_do_not_stop_the_detection_witness :
  _calculate_wlutz all_found (file_not_found all_found) "image.jpg" "PyMedPhys"
    (Float64.of_Z 8) [Float64.of_Z 10; Float64.of_Z 10] (Float64.of_Z 2)
  = Raise (OtherError "FileNotFoundError")
  /\ exists r,
       _calculate_wlutz bb_not_found (returning bb_not_found) "image.jpg"
         "PyMedPhys" (Float64.of_Z 8) [Float64.of_Z 10; Float64.of_Z 10]
         (Float64.of_Z 2)
       = Ok r.
Proof.
  split.
  - exact (proj1 (search_failures_do_not_stop_the_detection all_found
                    (file_not_found all_found) "image.jpg" (Float64.of_Z 8)
                    [Float64.of_Z 10; Float64.of_Z 10] (Float64.of_Z 2))
             _ "PyMedPhys" eq_refl).
  - refine (proj2 (proj2 (proj2 (search_failures_do_not_stop_the_detection
                     bb_not_found (returning bb_not_found) "image.jpg"
                     (Float64.of_Z 8) [Float64.of_Z 10; Float64.of_Z 10]
                     (Float64.of_Z 2))
                     tt tt tt tt eq_refl) origin eq_refl) _ _).
    + exact I.
    + intros d c r. simpl. eexists. reflexivity.
Defined.

End Raising.

End LocatorMore.

(* ===================================================================== *)
(** ** Further properties of the batch runner *)
(* ===================================================================== *)

Module RunnerMore.

Import Pandas.
Import Runner.

Unset Implicit Arguments.

Local Open Scope traced_scope.

(** The dictionaries of one image: one per algorithm and its detection. *)
Definition results_of (rel : string) (sel : list string) (rs : list located)
  : list DetectionResult :=
  map (fun ar => make_result rel (fst ar) (snd ar)) (combine sel rs).

Lemma sub_nan_l y : Float64.sub Float64.nan y = Float64.nan.
Proof. reflexivity. Qed.

Lemma sub_nan_r x : Float64.sub x Float64.nan = Float64.nan.
Proof. destruct x; reflexivity. Qed.

Lemma is_nan_inv x : Float64.is_nan x = true -> x = Float64.nan.
Proof. destruct x; simpl; intros H; try discriminate; reflexivity. Qed.

(** A centre coordinate that is NaN makes the recorded difference of
    that axis NaN: a failed field or BB search shows as a NaN [diff_x]
    and [diff_y] in the row, never as a number. *)
Theorem nan_centre_gives_nan_difference rel algorithm fc rot bbc :
  (Float64.is_nan (fst fc) || Float64.is_nan (fst bbc) = true ->
   Float64.is_nan (diff_x (make_result rel algorithm (fc, rot, bbc))) = true)
  /\ (Float64.is_nan (snd fc) || Float64.is_nan (snd bbc) = true ->
      Float64.is_nan (diff_y (make_result rel algorithm (fc, rot, bbc))) = true).
Proof.
  destruct fc as [fx fy], bbc as [bx bY]. cbn [make_result diff_x diff_y fst snd].
  split; intros H; apply orb_true_iff in H;
    destruct H as [H|H]; apply is_nan_inv in H; rewrite H;
    rewrite ?sub_nan_l, ?sub_nan_r; reflexivity.
Qed.

Lemma nan_centre_gives_nan_difference_witness :
  Float64.is_nan
    (diff_x (make_result "image.jpg" "PyMedPhys"
               (origin, Float64.of_Z 0, nan_point))) = true.
Proof.
  exact (proj1 (nan_centre_gives_nan_difference "image.jpg" "PyMedPhys"
                  origin (Float64.of_Z 0) nan_point) eq_refl).
Defined.

Section WithCollaborators.

Variable C : Collaborators.
Variable joinpath : string -> string -> string.

Lemma results_data_for_all_Ok full rel sel bb el pen rs :
  Forall2 (fun a r => _calculate_wlutz C full a bb el pen = Ok r) sel rs ->
  results_data_for C full rel sel bb el pen
  = (map (make_call full bb el pen) sel, Ok (results_of rel sel rs)).
Proof.
  induction 1 as [|a r sel rs Ha _ IH]; [reflexivity|].
  cbn [results_data_for]. rewrite Ha, IH.
  unfold bind, tell, lift, ret. cbn [app]. rewrite app_nil_r. reflexivity.
Qed.

Lemma results_data_for_Raise full rel pre a post bb el pen rs e :
  Forall2 (fun a r => _calculate_wlutz C full a bb el pen = Ok r) pre rs ->
  _calculate_wlutz C full a bb el pen = Raise e ->
  results_data_for C full rel (pre ++ a :: post) bb el pen
  = (map (make_call full bb el pen) (pre ++ [a]), Raise e).
Proof.
  intros Hpre Ha. induction Hpre as [|b r pre rs Hb _ IH].
  - cbn [results_data_for app]. rewrite Ha. reflexivity.
  - cbn [results_data_for app]. rewrite Hb, IH. reflexivity.
Qed.

(** [get_results_for_image] answers with one row per selected algorithm,
    in the order of the selection, when every detection returns; the
    first detection that raises stops the image: its exception is the
    image's, the algorithms after it are not requested and the rows of
    the algorithms before it are lost. *)
Theorem an_image_has_every_row_or_none dir rel bb el pen :
  (forall sel rs,
      sel <> [] ->
      Forall2 (fun a r =>
                 _calculate_wlutz C (_get_full_image_path joinpath dir rel)
                   a bb el pen = Ok r) sel rs ->
      get_results_for_image C joinpath dir rel sel bb el pen
      = (map (make_call (_get_full_image_path joinpath dir rel) bb el pen) sel,
         Ok {| columns := RESULTS_DATA_COLUMNS;
               rows := map result_cells (results_of rel sel rs) |}))
  /\ (forall pre a post rs e,
      Forall2 (fun a r =>
                 _calculate_wlutz C (_get_full_image_path joinpath dir rel)
                   a bb el pen = Ok r) pre rs ->
      _calculate_wlutz C (_get_full_image_path joinpath dir rel) a bb el pen
      = Raise e ->
      get_results_for_image C joinpath dir rel (pre ++ a :: post) bb el pen
      = (map (make_call (_get_full_image_path joinpath dir rel) bb el pen)
           (pre ++ [a]),
         Raise e)).
Proof.
  split.
  - intros sel rs Hsel Hrs. unfold get_results_for_image.
    rewrite (results_data_for_all_Ok _ rel sel bb el pen rs Hrs).
    destruct Hrs as [|a r sel rs Ha Hrs]; [congruence|].
    cbn. rewrite app_nil_r. reflexivity.
  - intros pre a post rs e Hpre Ha. unfold get_results_for_image.
    rewrite (results_data_for_Raise _ rel pre a post bb el pen rs e Hpre Ha).
    reflexivity.
Qed.

End WithCollaborators.

Lemma an_image_has_every_row_or_none_witness :
  get_results_for_image all_found slash_join "images" "a.jpg"
    ["PyMedPhys"; "PyLinac"] (Float64.of_Z 8)
    [Float64.of_Z 10; Float64.of_Z 10] (Float64.of_Z 2)
  = (map (make_call (slash_join "images" "a.jpg") (Float64.of_Z 8)
            [Float64.of_Z 10; Float64.of_Z 10] (Float64.of_Z 2))
       ["PyMedPhys"; "PyLinac"],
     Ok {| columns := RESULTS_DATA_COLUMNS;
           rows := map result_cells
                     (results_of "a.jpg" ["PyMedPhys"; "PyLinac"]
                        [(origin, Float64.of_Z 0, (Float64.of_Z 1, Float64.of_Z 2));
                         (origin, Float64.of_Z 0, (Float64.of_Z 1, Float64.of_Z 2))]) |}).
Proof.
  refine (proj1 (an_image_has_every_row_or_none all_found slash_join
                   "images" "a.jpg" (Float64.of_Z 8)
                   [Float64.of_Z 10; Float64.of_Z 10] (Float64.of_Z 2))
            ["PyMedPhys"; "PyLinac"] _ _ _).
  - discriminate.
  - repeat constructor.
Defined.

(* --------------------------------------------------------------------- *)
(** *** One treatment and one port per image *)
(* --------------------------------------------------------------------- *)

Section KeepFirstSingleton.

Variables (A K : Type).
Variable K_eq_dec : forall a b : K, {a = b} + {a <> b}.
Variable key : A -> K.

Lemma filter_nil_inv (f : A -> bool) l :
  filter f l = [] -> forall x, In x l -> f x = false.
Proof.
  induction l as [|y l IH]; simpl; [tauto|].
  destruct (f y) eqn:E; [discriminate|].
  intros H x [<-|Hx]; auto.
Qed.

Lemma keep_first_singleton l v :
  keep_first K_eq_dec key l = [v]
  <-> exists rest, l = v :: rest /\ Forall (fun x => key x = key v) rest.
Proof.
  destruct l as [|x t]; simpl.
  - split; [discriminate | intros [rest [H _]]; discriminate].
  - split.
    + intros H. injection H as -> H. exists t. split; [reflexivity|].
      apply Forall_forall. intros y Hy.
      destruct (keep_first_key_In K_eq_dec key y t Hy) as [y' [Hy' E]].
      pose proof (filter_nil_inv _ _ H y' Hy') as F.
      unfold other_key in F.
      destruct (K_eq_dec (key y') (key v)); [congruence | discriminate].
    + intros [rest [H F]]. injection H as -> ->. f_equal.
      apply filter_none. intros y Hy.
      apply keep_first_In in Hy. rewrite Forall_forall in F.
      unfold other_key. rewrite (F y Hy).
      destruct (K_eq_dec (key v) (key v)); [reflexivity | congruence].
Qed.

End KeepFirstSingleton.

Lemma getitem_raises df column e :
  getitem df column = Raise e -> e = KeyError column.
Proof.
  unfold getitem. destruct (position column (columns df)); congruence.
Qed.

(** [_collapse_column_to_single_value] returns a value exactly when the
    column exists, has at least one row and all its cells are equal (as
    pandas compares them) to the first one, which is the value returned;
    a missing column raises [KeyError] and every other column the
    [ValueError] "Expected exactly one <column> per image". *)
Theorem a_column_collapses_exactly_when_constant df column :
  (forall v,
      _collapse_column_to_single_value df column = Ok v
      <-> exists rest,
            getitem df column = Ok (v :: rest)
            /\ Forall (fun c => normal c = normal v) rest)
  /\ (forall e,
      _collapse_column_to_single_value df column = Raise e ->
      match getitem df column with
      | Ok _ => e = ValueError ("Expected exactly one " ++ column ++ " per image")
      | Raise _ => e = KeyError column
      end).
Proof.
  unfold _collapse_column_to_single_value. split.
  - intros v. destruct (getitem df column) as [values|e]; cbn [rbind].
    + pose proof (keep_first_singleton _ _ cell_eq_dec normal values v) as S.
      fold (unique values) in S. split.
      * intros H. destruct (unique values) as [|u [|u' us]]; try discriminate.
        injection H as ->. destruct (proj1 S eq_refl) as [rest [-> F]].
        eauto.
      * intros [rest [E F]]. injection E as ->.
        rewrite (proj2 S (ex_intro _ rest (conj eq_refl F))). reflexivity.
    + split; [discriminate | intros [rest [E _]]; discriminate].
  - intros e. destruct (getitem df column) as [values|e'] eqn:G; cbn [rbind].
    + destruct (unique values) as [|u [|u' us]]; congruence.
    + intros H. injection H as <-. exact (getitem_raises _ _ _ G).
Qed.


(** All the cells of a column are equal, as pandas compares them. *)
Definition agree (l : list cell) : Prop :=
  forall x y, In x l -> In y l -> normal x = normal y.

Lemma unique_single l :
  (exists v, unique l = [v]) <-> l <> [] /\ agree l.
Proof.
  unfold unique. split.
  - intros [v H]. apply keep_first_singleton in H. destruct H as [rest [-> F]].
    split; [discriminate|].
    assert (G : forall x, In x (v :: rest) -> normal x = normal v).
    { intros x [<-|Hx]; [reflexivity|].
      rewrite Forall_forall in F. exact (F x Hx). }
    intros x y Hx Hy. rewrite (G x Hx), (G y Hy). reflexivity.
  - intros [Hne Hag]. destruct l as [|v rest]; [congruence|].
    exists v. apply keep_first_singleton. exists rest. split; [reflexivity|].
    apply Forall_forall. intros x Hx. apply Hag; simpl; auto.
Qed.

Lemma collapse_Ok_iff df column values :
  getitem df column = Ok values ->
  (exists v, _collapse_column_to_single_value df column = Ok v)
  <-> values <> [] /\ agree values.
Proof.
  intros G. rewrite <- unique_single.
  unfold _collapse_column_to_single_value. rewrite G. cbn [rbind].
  split; intros [v H].
  - destruct (unique values) as [|u [|u' us]]; try discriminate. eauto.
  - rewrite H. eauto.
Qed.

Lemma collapse_Raise df column values e :
  getitem df column = Ok values ->
  _collapse_column_to_single_value df column = Raise e ->
  e = ValueError ("Expected exactly one " ++ column ++ " per image").
Proof.
  intros G. unfold _collapse_column_to_single_value. rewrite G. cbn [rbind].
  destruct (unique values) as [|u [|u' us]]; congruence.
Qed.

(** The dataset rows of one image. *)
Definition dataset_rows (db : list ImageRecord) (path : string) : list ImageRecord :=
  filter (fun r => String.eqb path (filepath r)) db.

Lemma joined_dataset_rows db (l : row) path :
  nth 0 l NaN = Str path ->
  joined db l = map (fun r => l ++ other_cells r) (dataset_rows db path).
Proof.
  intros H. unfold joined, dataset_rows. f_equal.
  apply filter_ext. intros r. rewrite H.
  destruct (String.eqb_spec path (filepath r)) as [E|E].
  - apply cell_eqb_Str. exact E.
  - destruct (cell_eqb (Str path) (Str (filepath r))) eqn:F; [|reflexivity].
    apply cell_eqb_Str in F. contradiction.
Qed.

Lemma nth_after_results (l tail : row) k :
  List.length l = 9 -> nth (9 + k) (l ++ tail) NaN = nth k tail NaN.
Proof.
  intros H. rewrite app_nth2 by lia. f_equal. lia.
Qed.

Lemma context_column_values db (block : list row) path k :
  Forall (fun l => List.length l = 9 /\ nth 0 l NaN = Str path) block ->
  map (fun m => nth (9 + k) m NaN) (flat_map (joined db) block)
  = flat_map (fun _ => map (fun r => nth k (other_cells r) NaN)
                         (dataset_rows db path)) block.
Proof.
  induction 1 as [|l block [Hl H0] _ IH]; [reflexivity|].
  change (flat_map (joined db) (l :: block))
    with (joined db l ++ flat_map (joined db) block).
  rewrite map_app. cbn [flat_map]. f_equal; [|exact IH].
  rewrite (joined_dataset_rows db l path H0), map_map.
  apply map_ext. intros r. apply nth_after_results. exact Hl.
Qed.

Lemma In_flat_map_const {A B} (T : list B) (block : list A) x :
  block <> [] -> (In x (flat_map (fun _ => T) block) <-> In x T).
Proof.
  intros Hne. rewrite in_flat_map. split.
  - intros [_ [_ H]]. exact H.
  - intros H. destruct block as [|a block]; [congruence|].
    exists a. split; [left; reflexivity | exact H].
Qed.

Lemma flat_map_constant_nil {A B} (block : list A) :
  flat_map (fun _ => @nil B) block = [].
Proof. induction block; simpl; auto. Qed.

Lemma repeated_column {A} (T : list cell) (block : list A) :
  block <> [] ->
  (flat_map (fun _ => T) block <> [] /\ agree (flat_map (fun _ => T) block))
  <-> (T <> [] /\ agree T).
Proof.
  intros Hne. split; intros [H1 H2]; split.
  - intros ->. apply H1. apply flat_map_constant_nil.
  - intros x y Hx Hy. apply H2; apply In_flat_map_const; assumption.
  - destruct T as [|t T]; [congruence|]. destruct block as [|a block]; [congruence|].
    discriminate.
  - intros x y Hx Hy.
    apply H2; [apply (proj1 (In_flat_map_const T block x Hne))
              | apply (proj1 (In_flat_map_const T block y Hne))]; assumption.
Qed.

Lemma agree_map {A} (f : A -> cell) (l : list A) :
  agree (map f l)
  <-> forall r r', In r l -> In r' l -> normal (f r) = normal (f r').
Proof.
  unfold agree. split.
  - intros H r r' Hr Hr'. apply H; apply in_map; assumption.
  - intros H x y Hx Hy. apply in_map_iff in Hx. apply in_map_iff in Hy.
    destruct Hx as [r [<- Hr]], Hy as [r' [<- Hr']]. auto.
Qed.

Lemma In_dataset_rows db path r :
  In r (dataset_rows db path) <-> In r db /\ filepath r = path.
Proof.
  unfold dataset_rows. rewrite filter_In.
  destruct (String.eqb_spec path (filepath r)); intuition congruence.
Qed.


Lemma check_unfold db res :
  columns res = RESULTS_DATA_COLUMNS ->
  check_single_treatment_and_port db res
  = (let working_table :=
       {| columns := CONTEXT_COLUMNS; rows := flat_map (joined db) (rows res) |} in
     let? _ := _collapse_column_to_single_value working_table "treatment" in
     let? _ := _collapse_column_to_single_value working_table "port" in
     Ok tt)%result.
Proof.
  intros Hc. unfold check_single_treatment_and_port.
  rewrite (merge_results res db Hc). reflexivity.
Qed.

Lemma check_Ok_iff db res :
  columns res = RESULTS_DATA_COLUMNS ->
  let working_table :=
    {| columns := CONTEXT_COLUMNS; rows := flat_map (joined db) (rows res) |} in
  check_single_treatment_and_port db res = Ok tt
  <-> (exists v, _collapse_column_to_single_value working_table "treatment" = Ok v)
      /\ (exists v, _collapse_column_to_single_value working_table "port" = Ok v).
Proof.
  intros Hc W. rewrite (check_unfold db res Hc). fold W. cbv zeta.
  destruct (_collapse_column_to_single_value W "treatment") as [t|e]; cbn [rbind].
  - destruct (_collapse_column_to_single_value W "port") as [p|e]; cbn [rbind].
    + split; eauto.
    + split; [discriminate | intros [_ [v H]]; discriminate].
  - split; [discriminate | intros [[v H] _]; discriminate].
Qed.

Lemma working_table_columns db (block : list row) path :
  Forall (fun l => List.length l = 9 /\ nth 0 l NaN = Str path) block ->
  let working_table :=
    {| columns := CONTEXT_COLUMNS; rows := flat_map (joined db) block |} in
  getitem working_table "treatment"
  = Ok (flat_map (fun _ => map treatment (dataset_rows db path)) block)
  /\ getitem working_table "port"
     = Ok (flat_map (fun _ => map port (dataset_rows db path)) block).
Proof.
  intros F W. split.
  - pose proof (context_column_values db block path 0 F) as E.
    unfold getitem. cbn [columns rows W].
    change (position "treatment" CONTEXT_COLUMNS) with (Some 9).
    apply (f_equal Ok). exact E.
  - pose proof (context_column_values db block path 1 F) as E.
    unfold getitem. cbn [columns rows W].
    change (position "port" CONTEXT_COLUMNS) with (Some 10).
    apply (f_equal Ok). exact E.
Qed.

(** The check that follows the results of an image in the loop passes
    exactly when the dataset has a row for the image and all the dataset
    rows of the image name one treatment and one port (as pandas compares
    cells); when it does not pass it raises the [ValueError] of the
    treatment or of the port. *)
Theorem an_image_passes_with_one_treatment_and_one_port db res path :
  columns res = RESULTS_DATA_COLUMNS ->
  rows res <> [] ->
  Forall (fun l => List.length l = 9 /\ nth 0 l NaN = Str path) (rows res) ->
  (check_single_treatment_and_port db res = Ok tt
   <-> (exists r, In r db /\ filepath r = path)
       /\ forall r r', In r db -> In r' db ->
            filepath r = path -> filepath r' = path ->
            normal (treatment r) = normal (treatment r')
            /\ normal (port r) = normal (port r'))
  /\ (forall e,
        check_single_treatment_and_port db res = Raise e ->
        e = ValueError "Expected exactly one treatment per image"
        \/ e = ValueError "Expected exactly one port per image").
Proof.
  intros Hc Hne F.
  destruct (working_table_columns db (rows res) path F) as [Gt Gp].
  split.
  - rewrite (check_Ok_iff db res Hc).
    rewrite (collapse_Ok_iff _ _ _ Gt), (collapse_Ok_iff _ _ _ Gp).
    rewrite !(repeated_column _ (rows res) Hne), !agree_map.
    assert (N : forall f : ImageRecord -> cell,
               map f (dataset_rows db path) <> []
               <-> exists r, In r db /\ filepath r = path).
    { intros f. split.
      - destruct (dataset_rows db path) as [|r D] eqn:E;
          [intros H; exfalso; apply H; reflexivity|].
        intros _. exists r. apply In_dataset_rows. rewrite E. left. reflexivity.
      - intros [r Hr]. apply In_dataset_rows in Hr.
        destruct (dataset_rows db path); [contradiction | discriminate]. }
    rewrite !N. split.
    + intros [[Hex Ht] [_ Hp]]. split; [exact Hex|].
      intros r r' Hr Hr' E E'.
      split; [apply Ht | apply Hp]; apply In_dataset_rows; auto.
    + intros [Hex H]. split; (split; [exact Hex|]);
        intros r r' Hr Hr'; apply In_dataset_rows in Hr, Hr';
        destruct Hr as [Hr E], Hr' as [Hr' E']; apply (H r r'); assumption.
  - intros e. rewrite (check_unfold db res Hc). cbv zeta.
    destruct (_collapse_column_to_single_value _ "treatment") as [t|e1] eqn:Et;
      cbn [rbind].
    + destruct (_collapse_column_to_single_value _ "port") as [p|e2] eqn:Ep;
        cbn [rbind]; [discriminate|].
      intros H. injection H as <-. right.
      exact (collapse_Raise _ _ _ _ Gp Ep).
    + intros H. injection H as <-. left.
      exact (collapse_Raise _ _ _ _ Gt Et).
Qed.


(** A dataset with two rows for one image that name two treatments. *)
Definition two_treatments : list ImageRecord :=
  [ square_field "a.jpg" 10;
    {| filepath := "a.jpg"; treatment := Str "T2"; port := Str "P1";
       gantry := Float64.of_Z 0; collimator := Float64.of_Z 0;
       width := Float64.of_Z 10; length := Float64.of_Z 10 |} ].

Lemma an_image_passes_with_one_treatment_and_one_port_witness :
  check_single_treatment_and_port two_treatments
    {| columns := RESULTS_DATA_COLUMNS;
       rows := [result_cells (make_result "a.jpg" "PyMedPhys"
                                (origin, Float64.of_Z 0, origin))] |}
  <> Ok tt.
Proof.
  intros H.
  apply (proj1 (an_image_passes_with_one_treatment_and_one_port two_treatments
                  {| columns := RESULTS_DATA_COLUMNS;
                     rows := [result_cells (make_result "a.jpg" "PyMedPhys"
                                              (origin, Float64.of_Z 0, origin))] |}
                  "a.jpg" eq_refl
                  ltac:(discriminate)
                  ltac:(repeat constructor))) in H.
  destruct H as [_ H].
  destruct (H (square_field "a.jpg" 10)
              {| filepath := "a.jpg"; treatment := Str "T2"; port := Str "P1";
                 gantry := Float64.of_Z 0; collimator := Float64.of_Z 0;
                 width := Float64.of_Z 10; length := Float64.of_Z 10 |}
              (or_introl eq_refl) (or_intror (or_introl eq_refl))
              eq_refl eq_refl) as [E _].
  discriminate E.
Defined.

(* --------------------------------------------------------------------- *)
(** *** Whole runs *)
(* --------------------------------------------------------------------- *)

(** The edge lengths the loop reads at position [i] of the dataset. *)
Definition geometry (db : list ImageRecord) (i : nat) : list float :=
  match nth_error db i with
  | Some row => [width row; length row]
  | None => []
  end.

Lemma NoDup_list_prod {A B} (l : list A) (l' : list B) :
  NoDup l -> NoDup l' -> NoDup (list_prod l l').
Proof.
  intros Hl Hl'. induction Hl as [|x l Hx Hl IH]; simpl; [constructor|].
  apply NoDup_app.
  - apply NoDup_map_NoDup_ForallPairs; [|exact Hl'].
    intros a b _ _ E. congruence.
  - exact IH.
  - intros [a b] Hab Hin. apply in_map_iff in Hab.
    destruct Hab as [y [E _]]. injection E as <- <-.
    apply in_prod_iff in Hin. apply Hx. tauto.
Qed.

Lemma enumerate_cons {A} (x : A) (l : list A) :
  exists rest, enumerate (x :: l) = (0, x) :: rest.
Proof. unfold enumerate. simpl. eauto. Qed.

Lemma rev_nonempty {A} (l : list A) : l <> [] -> exists x t, rev l = x :: t.
Proof.
  intros H. destruct (rev l) as [|x t] eqn:E; [|eauto].
  exfalso. apply H. rewrite <- (rev_involutive l), E. reflexivity.
Qed.

Section Runs.

Variable C : Collaborators.
Variable joinpath : string -> string -> string.

(** A run needs images and algorithms: over an empty dataset it raises
    [KeyError] for the [filepath] column, with or without a persisted
    table; over a dataset with images, with no algorithm selected and no
    persisted table, it raises the [ValueError] "Unexpected columns" at
    the first image.  In both cases no detection is requested and nothing
    is written. *)
Theorem a_run_needs_images_and_algorithms dir bb pen :
  (forall sel previous,
      run_calculation C joinpath [] dir sel bb pen previous
      = ([], Raise (KeyError "filepath")))
  /\ (forall db,
      db <> [] ->
      run_calculation C joinpath db dir [] bb pen None
      = ([], Raise (ValueError "Unexpected columns"))).
Proof.
  split; [reflexivity|].
  intros db Hdb. unfold run_calculation.
  assert (Hfp : map filepath db <> []) by (destruct db; [congruence | discriminate]).
  destruct (rev_nonempty _ Hfp) as [path [t ->]].
  destruct (enumerate_cons path t) as [rest ->].
  rewrite batch_loop_cons. unfold results_for, recalculate, iloc.
  destruct db as [|r db]; [congruence|]. cbn [nth_error].
  rewrite bind_lift, get_results_for_image_nothing_selected. reflexivity.
Qed.

Lemma recalculate_Ok_exact db dir sel bb pen i path log res :
  recalculate C joinpath db dir sel bb pen i path = (log, Ok res) ->
  log = map (make_call (joinpath dir path) bb (geometry db i) pen) sel
  /\ exists ds,
       res = {| columns := RESULTS_DATA_COLUMNS; rows := map result_cells ds |}
       /\ map res_algorithm ds = sel
       /\ Forall (fun d => res_filepath d = path) ds.
Proof.
  unfold recalculate, iloc, geometry. rewrite bind_lift.
  destruct (nth_error db i) as [row|]; [|discriminate].
  intros H. apply get_results_for_image_Ok in H.
  destruct H as [_ [Hlog Hds]]. split; assumption.
Qed.

Lemma result_cells_length ds :
  Forall (fun r : row => List.length r = 9) (map result_cells ds).
Proof. apply Forall_forall. intros r Hr. apply in_map_iff in Hr.
  destruct Hr as [d [<- _]]. reflexivity.
Qed.

(** The loop of a run that has no persisted table. *)
Lemma batch_loop_first_run db dir sel bb pen items acc log coll :
  batch_loop C joinpath db dir sel bb pen None items acc = (log, Ok coll) ->
  acc = empty_frame \/ columns acc = RESULTS_DATA_COLUMNS ->
  Forall (fun r => List.length r = 9) (rows acc) ->
  log = flat_map (fun item => map (make_call (joinpath dir (snd item)) bb
                                     (geometry db (fst item)) pen) sel) items
  /\ exists dss,
       rows coll = rows acc ++ flat_map (map result_cells) dss
       /\ Forall2 (fun item ds =>
                     map res_algorithm ds = sel
                     /\ Forall (fun d => res_filepath d = snd item) ds)
            items dss
       /\ (items = [] /\ coll = acc \/ columns coll = RESULTS_DATA_COLUMNS).
Proof.
  revert acc log. induction items as [|[i path] rest IH]; intros acc log H Hacc Hlen.
  - inversion H; subst. split; [reflexivity|].
    exists []. simpl. rewrite app_nil_r. auto.
  - rewrite batch_loop_cons in H. apply bind_Ok_inv in H.
    destruct H as [l1 [res [l2 [Hres [H ->]]]]].
    rewrite bind_lift in H.
    destruct (check_single_treatment_and_port db res) as [[]|e]; [|discriminate].
    cbn [results_for] in Hres. apply recalculate_Ok_exact in Hres.
    destruct Hres as [-> [ds [-> [Halg Hpath]]]].
    rewrite concat_results in H;
      [|assumption|assumption|reflexivity|apply result_cells_length].
    apply IH in H;
      [|right; reflexivity
       |cbn [rows]; apply Forall_app; split;
        [assumption | apply result_cells_length]].
    destruct H as [-> [dss [Hrows [Hdss Hcols]]]].
    split; [reflexivity|].
    exists (ds :: dss). cbn [rows flat_map] in *. rewrite Hrows, app_assoc.
    split; [reflexivity|]. split.
    + constructor; [split; assumption | exact Hdss].
    + right. destruct Hcols as [[_ ->]|Hcols]; [reflexivity | exact Hcols].
Qed.

Lemma first_run_Ok db dir sel bb pen log merged :
  run_calculation C joinpath db dir sel bb pen None = (log, Ok merged) ->
  log = flat_map (fun item => map (make_call (joinpath dir (snd item)) bb
                                     (geometry db (fst item)) pen) sel)
          (enumerate (rev (map filepath db)))
  /\ exists dss,
       Forall2 (fun path ds =>
                  map res_algorithm ds = sel
                  /\ Forall (fun d => res_filepath d = path) ds)
         (rev (map filepath db)) dss
       /\ merged
          = drop_duplicates
              {| columns := CONTEXT_COLUMNS;
                 rows := flat_map (joined db) (flat_map (map result_cells) dss) |}.
Proof.
  unfold run_calculation. intros H. apply bind_Ok_inv in H.
  destruct H as [l1 [coll [l2 [Hloop [H ->]]]]].
  rewrite bind_lift in H.
  apply batch_loop_first_run in Hloop; [|left; reflexivity|constructor].
  destruct Hloop as [-> [dss [Hrows [Hdss Hcols]]]]. cbn [rows empty_frame app] in Hrows.
  destruct Hcols as [[_ ->]|Hcols]; [discriminate H|].
  rewrite merge_results in H by exact Hcols. unfold ret, concat_with_previous in H.
  inversion H; subst. rewrite app_nil_r. split; [reflexivity|].
  exists dss. rewrite Hrows. split; [|reflexivity].
  rewrite <- (enumerate_snd (rev (map filepath db))).
  clear - Hdss. induction Hdss; simpl; constructor; auto.
Qed.

Lemma requests_of_items (f : string -> string) g bb pen sel (items : list (nat * string)) :
  map (fun c => (call_image_path c, call_algorithm c))
    (flat_map (fun item => map (make_call (f (snd item)) bb (g (fst item)) pen) sel)
       items)
  = list_prod (map f (map snd items)) sel.
Proof.
  induction items as [|[i path] items IH]; [reflexivity|].
  cbn [flat_map map list_prod fst snd]. rewrite map_app, IH. f_equal.
  rewrite map_map. reflexivity.
Qed.

(** A run without persisted table that succeeds has requested one
    detection for every image of the dataset and every selected
    algorithm, images in the reversed order of the dataset and algorithms
    in the order of the selection, each with the BB diameter and the
    penumbra of the run. *)
Theorem a_first_run_requests_every_image_and_algorithm
    db dir sel bb pen log merged :
  run_calculation C joinpath db dir sel bb pen None = (log, Ok merged) ->
  map (fun c => (call_image_path c, call_algorithm c)) log
  = list_prod (map (joinpath dir) (rev (map filepath db))) sel
  /\ List.length log = List.length db * List.length sel
  /\ Forall (fun c => call_bb_diameter c = bb /\ call_penumbra c = pen) log.
Proof.
  intros H. apply first_run_Ok in H. destruct H as [-> _].
  assert (E : map (fun c => (call_image_path c, call_algorithm c))
                (flat_map (fun item => map (make_call (joinpath dir (snd item)) bb
                                              (geometry db (fst item)) pen) sel)
                   (enumerate (rev (map filepath db))))
              = list_prod (map (joinpath dir) (rev (map filepath db))) sel).
  { rewrite (requests_of_items (joinpath dir) (geometry db)), enumerate_snd.
    reflexivity. }
  split; [exact E|]. split.
  - rewrite <- (length_map (fun c => (call_image_path c, call_algorithm c))), E.
    rewrite length_prod, !length_map, length_rev, length_map. reflexivity.
  - apply Forall_forall. intros c Hc. apply in_flat_map in Hc.
    destruct Hc as [item [_ Hc]]. apply in_map_iff in Hc.
    destruct Hc as [a [<- _]]. split; reflexivity.
Qed.


(** The filepath and algorithm cells of a row of the written table. *)
Definition pair_of (m : row) : cell * cell := (nth 0 m NaN, nth 1 m NaN).

Definition as_cells (pa : string * string) : cell * cell :=
  (Str (fst pa), Str (snd pa)).

Lemma joined_block db path ds r :
  NoDup (map filepath db) -> In r db -> filepath r = path ->
  Forall (fun d => res_filepath d = path) ds ->
  flat_map (joined db) (map result_cells ds)
  = map (fun d => result_cells d ++ other_cells r) ds.
Proof.
  intros Hnd Hr Hp Hds.
  rewrite (flat_map_joined_single db (map result_cells ds) r Hnd Hr), map_map;
    [reflexivity|].
  apply Forall_forall. intros l Hl. apply in_map_iff in Hl.
  destruct Hl as [d [<- Hd]]. rewrite Forall_forall in Hds.
  cbn. rewrite (Hds d Hd), Hp. reflexivity.
Qed.

Lemma pairs_of_block path sel ds (tail : row) :
  map res_algorithm ds = sel ->
  Forall (fun d => res_filepath d = path) ds ->
  map pair_of (map (fun d => result_cells d ++ tail) ds)
  = map as_cells (map (pair path) sel).
Proof.
  intros <- Hds. rewrite !map_map. apply map_ext_in. intros d Hd.
  rewrite Forall_forall in Hds. unfold as_cells. cbn. rewrite (Hds d Hd).
  reflexivity.
Qed.

Lemma pairs_of_first_run db sel paths dss :
  NoDup (map filepath db) ->
  (forall path, In path paths -> exists r, In r db /\ filepath r = path) ->
  Forall2 (fun path ds =>
             map res_algorithm ds = sel
             /\ Forall (fun d => res_filepath d = path) ds) paths dss ->
  map pair_of (flat_map (joined db) (flat_map (map result_cells) dss))
  = map as_cells (list_prod paths sel).
Proof.
  intros Hnd Hin H. induction H as [|path ds paths dss [Halg Hpath] _ IH];
    [reflexivity|].
  cbn [flat_map list_prod]. rewrite flat_map_app, !map_app.
  rewrite IH by (intros p Hp; apply Hin; right; exact Hp). f_equal.
  destruct (Hin path (or_introl eq_refl)) as [r [Hr Hp]].
  rewrite (joined_block db path ds r Hnd Hr Hp Hpath).
  apply pairs_of_block; assumption.
Qed.

Lemma as_cells_NoDup (l : list (string * string)) :
  NoDup l -> NoDup (map as_cells l).
Proof.
  apply NoDup_map_NoDup_ForallPairs. intros [a b] [a' b'] _ _ E.
  unfold as_cells in E. cbn in E. congruence.
Qed.

Lemma pair_of_row_key (J : list row) :
  map pair_of (map row_key J)
  = map (fun p => (normal (fst p), normal (snd p))) (map pair_of J).
Proof.
  rewrite !map_map. apply map_ext. intros m. unfold pair_of.
  rewrite !nth_row_key. reflexivity.
Qed.

Lemma normal_as_cells (l : list (string * string)) :
  map (fun p => (normal (fst p), normal (snd p))) (map as_cells l)
  = map as_cells l.
Proof. rewrite map_map. apply map_ext. intros [a b]. reflexivity. Qed.

(** A run without persisted table over a dataset whose filepaths are
    distinct, with distinct selected algorithms, writes exactly one row
    per image and algorithm: the (filepath, algorithm) pairs of the
    written rows are the pairs of the images, in reversed dataset order,
    with the algorithms, in selection order, each once. *)
Theorem a_first_run_writes_one_row_per_image_and_algorithm
    db dir sel bb pen log merged :
  NoDup (map filepath db) -> NoDup sel ->
  run_calculation C joinpath db dir sel bb pen None = (log, Ok merged) ->
  filepath_algorithm_pairs merged
  = map as_cells (list_prod (rev (map filepath db)) sel)
  /\ NoDup (filepath_algorithm_pairs merged).
Proof.
  intros Hnd Hsel H. apply first_run_Ok in H.
  destruct H as [_ [dss [Hdss ->]]].
  set (J := flat_map (joined db) (flat_map (map result_cells) dss)).
  assert (HJ : map pair_of J = map as_cells (list_prod (rev (map filepath db)) sel)).
  { apply pairs_of_first_run; [exact Hnd| |exact Hdss].
    intros path Hp. apply in_rev in Hp. apply in_map_iff in Hp.
    destruct Hp as [r [E Hr]]. eauto. }
  assert (Hprod : NoDup (map as_cells (list_prod (rev (map filepath db)) sel))).
  { apply as_cells_NoDup, NoDup_list_prod; [apply NoDup_rev|]; assumption. }
  assert (Hkeys : NoDup (map row_key J)).
  { apply (NoDup_map_inv pair_of).
    rewrite pair_of_row_key, HJ, normal_as_cells. exact Hprod. }
  assert (E : filepath_algorithm_pairs
                (drop_duplicates {| columns := CONTEXT_COLUMNS; rows := J |})
              = map pair_of J).
  { unfold filepath_algorithm_pairs, drop_duplicates. cbn [columns rows].
    rewrite (keep_first_id row_eq_dec row_key J Hkeys). reflexivity. }
  rewrite E, HJ. split; [reflexivity | exact Hprod].
Qed.


(** Runs keep the written table consistent and complete: when the
    persisted table (if any) has the fifteen columns and each of its rows
    ends with the dataset cells of its image, the table a run writes has
    the same shape, and it has, for every image of the dataset and every
    selected algorithm, a row of that image and algorithm. *)
Theorem a_run_keeps_the_table_consistent_and_complete
    db dir sel bb pen previous log merged :
  consistent_previous db previous ->
  run_calculation C joinpath db dir sel bb pen previous = (log, Ok merged) ->
  consistent db merged
  /\ forall r a, In r db -> In a sel ->
       exists m, In m (rows merged)
                 /\ nth 0 m NaN = Str (filepath r) /\ nth 1 m NaN = Str a.
Proof.
  intros Hprev H.
  destruct (run_establishes_invariant C joinpath db dir sel bb pen previous
              log merged Hprev H) as [Hc [_ Hcov]].
  split; [exact Hc|]. intros r a Hr Ha. exact (proj2 (Hcov r Hr) a Ha).
Qed.

(** A run never loses a persisted row: every row of a consistent
    persisted table is, up to the equality pandas uses to drop
    duplicates, a row of the table the run writes; so a persisted table
    without duplicate rows never gets shorter. *)
Theorem persisted_rows_survive_a_run db dir sel bb pen p log merged :
  consistent db p ->
  run_calculation C joinpath db dir sel bb pen (Some p) = (log, Ok merged) ->
  (forall m, In m (rows p) ->
     exists m', In m' (rows merged) /\ row_key m' = row_key m)
  /\ (NoDup (map row_key (rows p)) ->
      List.length (rows p) <= List.length (rows merged)).
Proof.
  intros Hp H.
  destruct (written_table C joinpath db dir sel bb pen (Some p) log merged Hp H)
    as [blocks [_ [_ ->]]].
  cbn [rows]. unfold rows_before_dedup.
  assert (S : forall m, In m (rows p) ->
                exists m', In m' (keep_first row_eq_dec row_key
                                    (flat_map (joined db) (List.concat blocks)
                                     ++ rows p))
                           /\ row_key m' = row_key m).
  { intros m Hm. apply keep_first_key_In. apply in_or_app. right. exact Hm. }
  split; [exact S|].
  intros Hnd. rewrite <- (length_map row_key (rows p)).
  rewrite <- (length_map row_key (keep_first _ _ _)).
  apply NoDup_incl_length; [exact Hnd|].
  intros k Hk. apply in_map_iff in Hk. destruct Hk as [m [<- Hm]].
  destruct (S m Hm) as [m' [Hm' <-]]. apply in_map. exact Hm'.
Qed.


End Runs.

Lemma a_run_needs_images_and_algorithms_witness :
  run_calculation all_found slash_join one_image "dir" []
    (Float64.of_Z 8) (Float64.of_Z 2) None
  = ([], Raise (ValueError "Unexpected columns")).
Proof.
  refine (proj2 (a_run_needs_images_and_algorithms all_found slash_join "dir"
                   (Float64.of_Z 8) (Float64.of_Z 2)) one_image _).
  discriminate.
Defined.


Lemma a_first_run_requests_every_image_and_algorithm_witness :
  map (fun c => (call_image_path c, call_algorithm c)) two_images_log
  = list_prod (map (slash_join "dir") (rev (map filepath two_images)))
      ["PyMedPhys"; "PyLinac"]
  /\ List.length two_images_log = List.length two_images * 2
  /\ Forall (fun c => call_bb_diameter c = Float64.of_Z 8
                      /\ call_penumbra c = Float64.of_Z 2) two_images_log.
Proof.
  apply (a_first_run_requests_every_image_and_algorithm all_found slash_join
           two_images "dir" ["PyMedPhys"; "PyLinac"] (Float64.of_Z 8)
           (Float64.of_Z 2) two_images_log two_images_table).
  vm_compute. reflexivity.
Defined.

Lemma two_algorithms_distinct : NoDup ["PyMedPhys"; "PyLinac"].
Proof.
  constructor.
  - simpl. intros [H|[]]. discriminate H.
  - constructor; [intros [] | constructor].
Defined.

Lemma a_first_run_writes_one_row_per_image_and_algorithm_witness :
  filepath_algorithm_pairs two_images_table
  = map as_cells (list_prod (rev (map filepath two_images))
                    ["PyMedPhys"; "PyLinac"])
  /\ NoDup (filepath_algorithm_pairs two_images_table).
Proof.
  apply (a_first_run_writes_one_row_per_image_and_algorithm all_found slash_join
           two_images "dir" ["PyMedPhys"; "PyLinac"] (Float64.of_Z 8)
           (Float64.of_Z 2) two_images_log two_images_table
           two_images_distinct two_algorithms_distinct).
  vm_compute. reflexivity.
Defined.

Lemma first_table_consistent : consistent one_image first_table.
Proof.
  split; [reflexivity|]. constructor; [|constructor].
  split; [reflexivity|]. exists (square_field "a.jpg" 10).
  split; [left; reflexivity|]. split; reflexivity.
Defined.

Lemma a_run_keeps_the_table_consistent_and_complete_witness :
  consistent one_image later_table
  /\ forall r a, In r one_image -> In a ["PyMedPhys"; "PyLinac"] ->
       exists m, In m (rows later_table)
                 /\ nth 0 m NaN = Str (filepath r) /\ nth 1 m NaN = Str a.
Proof.
  apply (a_run_keeps_the_table_consistent_and_complete diameter_sensitive
           slash_join one_image "dir" ["PyMedPhys"; "PyLinac"]
           (Float64.of_Z 12) (Float64.of_Z 2) (Some first_table)
           (fst later_run) later_table first_table_consistent).
  vm_compute. reflexivity.
Defined.

Lemma persisted_rows_survive_a_run_witness :
  (forall m, In m (rows first_table) ->
     exists m', In m' (rows later_table) /\ row_key m' = row_key m)
  /\ (NoDup (map row_key (rows first_table)) ->
      List.length (rows first_table) <= List.length (rows later_table)).
Proof.
  apply (persisted_rows_survive_a_run diameter_sensitive
           slash_join one_image "dir" ["PyMedPhys"; "PyLinac"]
           (Float64.of_Z 12) (Float64.of_Z 2) first_table
           (fst later_run) later_table first_table_consistent).
  vm_compute. reflexivity.
Defined.


End RunnerMore.

(* ===================================================================== *)
(** ** Further properties of the constraint scorer *)
(* ===================================================================== *)

Module ScorerMore.

Import Pandas.
Import Scorer.

Unset Implicit Arguments.
Local Open Scope result_scope.

Lemma map_result_Ok_inv {A B} (f : A -> result B) l bs :
  map_result f l = Ok bs -> Forall2 (fun a b => f a = Ok b) l bs.
Proof.
  revert bs. induction l as [|a l IH]; intros bs H; simpl in H.
  - inversion H. constructor.
  - destruct (f a) as [b|] eqn:E; [|discriminate]. cbn [rbind] in H.
    destruct (map_result f l) as [bs'|]; [|discriminate]. cbn [rbind] in H.
    inversion H; subst. constructor; auto.
Qed.

Lemma flat_map_constant_nil_on {A B} (f : A -> list B) l :
  (forall a, In a l -> f a = []) -> flat_map f l = [].
Proof.
  induction l as [|a l IH]; intros H; [reflexivity|].
  cbn [flat_map]. rewrite (H a (or_introl eq_refl)), IH; [reflexivity|].
  intros b Hb. apply H. right. exact Hb.
Qed.

Lemma map_result_Raise_inv {A B} (f : A -> result B) l e :
  map_result f l = Raise e -> exists a, In a l /\ f a = Raise e.
Proof.
  induction l as [|a l IH]; simpl; [discriminate|].
  destruct (f a) as [b|e'] eqn:E; cbn [rbind].
  - destruct (map_result f l) as [bs|e']; cbn [rbind]; [discriminate|].
    intros H. destruct (IH H) as [a' [Ha' Hf]]. eauto.
  - intros H. inversion H; subst. eauto.
Qed.

Section Rows.

Variables (roi structure : string) (structure_dvh : DVH).

(** The row function the loop body uses for a constraint type, if the
    type is one of the four it knows. *)
Definition row_builder (type : string) : option (list float -> result score_row) :=
  if String.eqb type "Mean" then Some (mean_row roi structure structure_dvh)
  else if String.eqb type "Max" then Some (max_row roi structure structure_dvh)
  else if String.eqb type "V%" then
    Some (volume_percent_row roi structure structure_dvh)
  else if String.eqb type "D%" then
    Some (dose_percent_row roi structure structure_dvh)
  else None.

Lemma rows_of_item_builder type entries :
  rows_of_item roi structure structure_dvh (type, Entries entries)
  = match row_builder type with
    | Some f => map_result f entries
    | None => Ok []
    end.
Proof.
  unfold rows_of_item, row_builder.
  destruct (String.eqb type "Mean"); [reflexivity|].
  destruct (String.eqb type "Max"); [reflexivity|].
  destruct (String.eqb type "V%"); [reflexivity|].
  destruct (String.eqb type "D%"); reflexivity.
Qed.

Lemma row_builder_Ok type f entry r :
  row_builder type = Some f -> f entry = Ok r ->
  Type_ r = type /\ Structure r = roi /\ Structure_Key r = structure
  /\ long_enough type entry = true.
Proof.
  unfold row_builder, long_enough.
  destruct (String.eqb_spec type "Mean") as [->|_].
  { intros H; inversion H; subst; clear H. unfold mean_row, index.
    destruct entry as [|d entry]; cbn; [discriminate|].
    intros H; inversion H; subst. auto. }
  destruct (String.eqb_spec type "Max") as [->|_].
  { intros H; inversion H; subst; clear H. unfold max_row, index.
    destruct entry as [|d entry]; cbn; [discriminate|].
    intros H; inversion H; subst. auto. }
  destruct (String.eqb_spec type "V%") as [->|_].
  { intros H; inversion H; subst; clear H. unfold volume_percent_row, index.
    destruct entry as [|d [|v entry]]; cbn; try discriminate.
    intros H; inversion H; subst. auto. }
  destruct (String.eqb_spec type "D%") as [->|_]; [|discriminate].
  intros H; inversion H; subst; clear H. unfold dose_percent_row, index.
  destruct entry as [|d [|v entry]]; cbn; try discriminate.
  intros H; inversion H; subst. auto.
Qed.

Lemma row_builder_Raise type f entry e :
  row_builder type = Some f -> f entry = Raise e ->
  e = IndexError /\ long_enough type entry = false.
Proof.
  unfold row_builder, long_enough.
  destruct (String.eqb_spec type "Mean") as [->|_].
  { intros H; inversion H; subst; clear H. unfold mean_row, index.
    destruct entry as [|d entry]; cbn; [|discriminate].
    intros H; inversion H; subst. auto. }
  destruct (String.eqb_spec type "Max") as [->|_].
  { intros H; inversion H; subst; clear H. unfold max_row, index.
    destruct entry as [|d entry]; cbn; [|discriminate].
    intros H; inversion H; subst. auto. }
  destruct (String.eqb_spec type "V%") as [->|_].
  { intros H; inversion H; subst; clear H. unfold volume_percent_row, index.
    destruct entry as [|d [|v entry]]; cbn; try discriminate;
      intros H; inversion H; subst; auto. }
  destruct (String.eqb_spec type "D%") as [->|_]; [|discriminate].
  intros H; inversion H; subst; clear H. unfold dose_percent_row, index.
  destruct entry as [|d [|v entry]]; cbn; try discriminate;
    intros H; inversion H; subst; auto.
Qed.

(** The types of the rows one (type, constraint) item adds: the type,
    once per entry, for a list of entries of one of the four types;
    nothing for the placeholder and for any other type. *)
Definition types_of_item (item : string * constraint) : list string :=
  match snd item with
  | Placeholder => []
  | Entries entries =>
      match row_builder (fst item) with
      | Some _ => map (fun _ => fst item) entries
      | None => []
      end
  end.

Definition of_structure (r : score_row) : Prop :=
  Structure r = roi /\ Structure_Key r = structure.

Lemma rows_of_item_Ok item rows :
  rows_of_item roi structure structure_dvh item = Ok rows ->
  well_formed_item item = true
  /\ map Type_ rows = types_of_item item
  /\ Forall of_structure rows.
Proof.
  destruct item as [type [|entries]].
  { cbn. intros H; inversion H. auto. }
  rewrite rows_of_item_builder. unfold well_formed_item, types_of_item.
  cbn [fst snd].
  destruct (row_builder type) as [f|] eqn:B.
  - intros H. apply map_result_Ok_inv in H.
    induction H as [|entry r entries rows Hr _ IH]; [cbn; auto|].
    destruct IH as [I1 [I2 I3]].
    destruct (row_builder_Ok type f entry r B Hr) as [R1 [R2 [R3 R4]]].
    cbn [forallb map]. rewrite R4, I1, R1, I2.
    split; [reflexivity|]. split; [reflexivity|].
    constructor; [split; assumption | exact I3].
  - intros H; inversion H; subst. split; [|cbn; auto].
    apply forallb_forall. intros entry _. unfold long_enough.
    unfold row_builder in B.
    destruct (String.eqb type "Mean"); [discriminate|].
    destruct (String.eqb type "Max"); [discriminate|].
    destruct (String.eqb type "V%"); [discriminate|].
    destruct (String.eqb type "D%"); [discriminate | reflexivity].
Qed.

Lemma rows_of_item_Raise item e :
  rows_of_item roi structure structure_dvh item = Raise e ->
  e = IndexError /\ well_formed_item item = false.
Proof.
  destruct item as [type [|entries]]; [discriminate|].
  rewrite rows_of_item_builder. unfold well_formed_item. cbn [fst snd].
  destruct (row_builder type) as [f|] eqn:B; [|discriminate].
  intros H. apply map_result_Raise_inv in H. destruct H as [entry [Hin Hr]].
  destruct (row_builder_Raise type f entry e B Hr) as [-> L].
  split; [reflexivity|].
  destruct (forallb (long_enough type) entries) eqn:F; [|reflexivity].
  rewrite forallb_forall in F. rewrite (F entry Hin) in L. discriminate.
Qed.

Lemma constraint_rows_well_formed items :
  well_formed items = true
  <-> exists rows, constraint_rows roi structure structure_dvh items = Ok rows.
Proof.
  split; [apply constraint_rows_total|].
  intros [rows H]. revert rows H.
  induction items as [|item items IH]; intros rows H; [reflexivity|].
  cbn [constraint_rows] in H.
  destruct (rows_of_item roi structure structure_dvh item) as [r|] eqn:E;
    [|discriminate].
  cbn [rbind] in H.
  destruct (constraint_rows roi structure structure_dvh items) as [o|];
    [|discriminate].
  cbn [well_formed forallb].
  rewrite (proj1 (rows_of_item_Ok item r E)). exact (IH o eq_refl).
Qed.

Lemma one_row_per_entry_of_a_known_type_rows items :
  (forall rows,
      constraint_rows roi structure structure_dvh items = Ok rows ->
      map Type_ rows = flat_map types_of_item items
      /\ Forall of_structure rows)
  /\ (forall e,
        constraint_rows roi structure structure_dvh items = Raise e ->
        e = IndexError).
Proof.
  induction items as [|item items [IH2 IH3]].
  - split; [|discriminate]. intros rows H; inversion H. cbn. auto.
  - cbn [constraint_rows flat_map].
    destruct (rows_of_item roi structure structure_dvh item) as [r|e0] eqn:E;
      cbn [rbind].
    + destruct (rows_of_item_Ok item r E) as [_ [T S]].
      destruct (constraint_rows roi structure structure_dvh items) as [o|e1];
        cbn [rbind].
      * destruct (IH2 o eq_refl) as [T' S'].
        split; [|discriminate].
        intros rows H; inversion H; subst. rewrite map_app, T, T'.
        split; [reflexivity | apply Forall_app; auto].
      * split; [discriminate|].
        intros e H; inversion H; subst. apply IH3. reflexivity.
    + destruct (rows_of_item_Raise item e0 E) as [-> _].
      split; [discriminate|]. intros e H; inversion H; reflexivity.
Qed.

(** The rows of a structure: the loop over the constraint dictionary
    returns exactly when every entry of every list has the values its
    type reads, and then gives one row per entry of the lists of the four
    known types, in the order of the dictionary, each with the ROI name
    and the structure key; a placeholder and an unknown type add no row.
    When it does not return it raises [IndexError]. *)
Theorem one_row_per_entry_of_a_known_type items :
  (well_formed items = true
   <-> exists rows, constraint_rows roi structure structure_dvh items = Ok rows)
  /\ (forall rows,
        constraint_rows roi structure structure_dvh items = Ok rows ->
        map Type_ rows = flat_map types_of_item items
        /\ Forall of_structure rows)
  /\ (forall e,
        constraint_rows roi structure structure_dvh items = Raise e ->
        e = IndexError).
Proof.
  split; [apply constraint_rows_well_formed|].
  apply one_row_per_entry_of_a_known_type_rows.
Qed.

End Rows.

Lemma dict_get_Raise {V} (d : list (string * V)) k e :
  dict_get d k = Raise e -> e = KeyError k.
Proof.
  induction d as [|[k' v] d IH]; simpl; [congruence|].
  destruct (String.eqb k' k); [discriminate | exact IH].
Qed.

Section Plan.

Variables Series_mean Series_sum : list float -> float.
Variable dvh_calcs : list (string * DVH).
Variable ALIASES : list (string * list string).
Variable CONSTRAINTS : list (string * list (string * constraint)).

(** A matched structure that cannot be scored stops the check: a
    structure key that the constraint table does not have raises
    [KeyError] with the key, and a structure whose constraints add no row
    (placeholders, unknown types and empty lists only) raises
    [IndexError], because the average is taken from the first row. *)
Theorem a_structure_without_rows_stops_the_check roi structure :
  (forall e,
      dict_get CONSTRAINTS structure = Raise e ->
      compare_structure_with_constraints Series_mean roi structure
        dvh_calcs CONSTRAINTS = Raise (KeyError structure))
  /\ (forall items structure_dvh,
        dict_get CONSTRAINTS structure = Ok items ->
        dict_get dvh_calcs roi = Ok structure_dvh ->
        flat_map (types_of_item roi structure structure_dvh) items = [] ->
        compare_structure_with_constraints Series_mean roi structure
          dvh_calcs CONSTRAINTS = Raise IndexError).
Proof.
  unfold compare_structure_with_constraints. split.
  - intros e H. rewrite H. cbn [rbind].
    rewrite (dict_get_Raise _ _ _ H). reflexivity.
  - intros items structure_dvh Hc Hd Ht. rewrite Hc, Hd. cbn [rbind].
    destruct (one_row_per_entry_of_a_known_type_rows roi structure structure_dvh items)
      as [H2 H3].
    destruct (constraint_rows roi structure structure_dvh items) as [rows|e];
      cbn [rbind].
    + destruct (H2 rows eq_refl) as [T _]. rewrite Ht in T.
      destruct rows; [reflexivity | discriminate].
    + rewrite (H3 e eq_refl). reflexivity.
Qed.

(** When no ROI of the plan matches an alias of any structure, the
    constraint check does not give an empty table: it raises
    [KeyError] for the column [Type], which the table built from nothing
    does not have. *)
Theorem a_plan_without_matches_raises_KeyError :
  (forall roi structure names,
      In roi (map fst dvh_calcs) -> In (structure, names) ALIASES ->
      ~ In (strip (lower roi)) names) ->
  constraint_check Series_mean Series_sum dvh_calcs ALIASES CONSTRAINTS
  = Raise (KeyError "Type").
Proof.
  intros H. unfold constraint_check.
  assert (E : matched_pairs ALIASES (map fst dvh_calcs) = []).
  { unfold matched_pairs. apply flat_map_constant_nil_on. intros roi Hroi.
    rewrite (unmatched_structures_matching ALIASES roi); [reflexivity|].
    intros s names Hin. exact (H roi s names Hroi Hin). }
  rewrite (score_rois_matched Series_mean dvh_calcs ALIASES CONSTRAINTS
             (map fst dvh_calcs) [] []).
  - reflexivity.
  - rewrite E. constructor.
Qed.

End Plan.


(** A plan whose only ROI matches no alias, and a constraint table whose
    structure has placeholders only. *)
Definition unmatched_dvhs : list (string * DVH) := [("liver_ptv", liver_dvh)].

Definition placeholder_constraints : list (string * list (string * constraint)) :=
  [("Liver", [("Mean", Placeholder); ("Max", Placeholder);
              ("V%", Placeholder); ("D%", Entries [])])].

Lemma a_structure_without_rows_stops_the_check_witness :
  compare_structure_with_constraints nanmean " Liver " "Liver"
    plan_dvhs placeholder_constraints = Raise IndexError.
Proof.
  exact (proj2 (a_structure_without_rows_stops_the_check nanmean plan_dvhs
                  placeholder_constraints " Liver " "Liver")
           _ liver_dvh eq_refl eq_refl eq_refl).
Defined.

Lemma a_plan_without_matches_raises_KeyError_witness :
  constraint_check nanmean nansum unmatched_dvhs plan_aliases plan_constraints
  = Raise (KeyError "Type").
Proof.
  apply (a_plan_without_matches_raises_KeyError nanmean nansum unmatched_dvhs
           plan_aliases plan_constraints).
  intros roi s names [<-|[]] [E|[E|[]]]; inversion E; subst;
    vm_compute; intros H; repeat destruct H as [H|H]; try discriminate H;
    exact H.
Defined.


End ScorerMore.

(* ===================================================================== *)
(** ** The alias table *)
(* ===================================================================== *)

Module Aliases.

Import Scorer.

Unset Implicit Arguments.
Local Open Scope result_scope.

(** *** Lower case and stripping, on the characters of a name *)

Definition rstrip (s : list ascii) : list ascii := rev (lstrip (rev s)).

Definition strip_list (s : list ascii) : list ascii := rstrip (lstrip s).

Lemma strip_as_list s :
  strip s = string_of_list_ascii (strip_list (list_ascii_of_string s)).
Proof. reflexivity. Qed.

Lemma lower_as_list s :
  list_ascii_of_string (lower s) = map lower_ascii (list_ascii_of_string s).
Proof. induction s as [|c s IH]; simpl; [reflexivity | rewrite IH; reflexivity]. Qed.

Lemma is_space_lower c : is_space (lower_ascii c) = is_space c.
Proof. destruct c as [[] [] [] [] [] [] [] []]; vm_compute; reflexivity. Qed.

Lemma lower_ascii_idempotent c : lower_ascii (lower_ascii c) = lower_ascii c.
Proof. destruct c as [[] [] [] [] [] [] [] []]; vm_compute; reflexivity. Qed.

Lemma lstrip_map_lower l : lstrip (map lower_ascii l) = map lower_ascii (lstrip l).
Proof.
  induction l as [|c l IH]; [reflexivity|].
  cbn [map lstrip]. rewrite is_space_lower.
  destruct (is_space c); [exact IH | reflexivity].
Qed.

Lemma strip_list_map_lower l :
  strip_list (map lower_ascii l) = map lower_ascii (strip_list l).
Proof.
  unfold strip_list, rstrip.
  rewrite lstrip_map_lower, <- map_rev, lstrip_map_lower, <- map_rev.
  reflexivity.
Qed.

Lemma lstrip_idempotent l : lstrip (lstrip l) = lstrip l.
Proof.
  induction l as [|c l IH]; [reflexivity|].
  cbn [lstrip]. destruct (is_space c) eqn:E; [exact IH|].
  cbn [lstrip]. rewrite E. reflexivity.
Qed.

Lemma rstrip_idempotent l : rstrip (rstrip l) = rstrip l.
Proof. unfold rstrip. rewrite rev_involutive, lstrip_idempotent. reflexivity. Qed.

Lemma lstrip_head l :
  lstrip l = [] \/ exists c t, lstrip l = c :: t /\ is_space c = false.
Proof.
  induction l as [|c l IH]; [left; reflexivity|].
  cbn [lstrip]. destruct (is_space c) eqn:E; [exact IH|]. right. eauto.
Qed.

Lemma lstrip_app_last l c :
  is_space c = false -> lstrip (l ++ [c]) = lstrip l ++ [c].
Proof.
  intros Hc. induction l as [|d l IH]; cbn [app lstrip].
  - rewrite Hc. reflexivity.
  - destruct (is_space d); [exact IH | reflexivity].
Qed.

Lemma rstrip_cons c t : is_space c = false -> rstrip (c :: t) = c :: rstrip t.
Proof.
  intros Hc. unfold rstrip. cbn [rev].
  rewrite (lstrip_app_last _ c Hc), rev_app_distr. reflexivity.
Qed.

Lemma strip_list_idempotent l : strip_list (strip_list l) = strip_list l.
Proof.
  unfold strip_list. destruct (lstrip_head l) as [E|[c [t [E Hc]]]]; rewrite E.
  - reflexivity.
  - rewrite (rstrip_cons c t Hc). cbn [lstrip]. rewrite Hc.
    rewrite (rstrip_cons c _ Hc), rstrip_idempotent. reflexivity.
Qed.

Lemma lower_strip s : lower (strip s) = strip (lower s).
Proof.
  rewrite <- (string_of_list_ascii_of_string (lower (strip s))).
  rewrite lower_as_list, !strip_as_list, list_ascii_of_string_of_list_ascii.
  rewrite lower_as_list, strip_list_map_lower. reflexivity.
Qed.

Lemma lower_idempotent s : lower (lower s) = lower s.
Proof.
  induction s as [|c s IH]; simpl; [reflexivity|].
  rewrite lower_ascii_idempotent, IH. reflexivity.
Qed.

Lemma strip_idempotent s : strip (strip s) = strip s.
Proof.
  rewrite !strip_as_list, list_ascii_of_string_of_list_ascii,
    strip_list_idempotent.
  reflexivity.
Qed.

(** The name an ROI is looked up by is unchanged by lower-casing and
    stripping it again. *)
Lemma lookup_name_idempotent s : strip (lower (strip (lower s))) = strip (lower s).
Proof.
  rewrite lower_strip, lower_idempotent, strip_idempotent. reflexivity.
Qed.

(** An alias that lower-casing and stripping leave unchanged. *)
Definition normalised (alias : string) : bool :=
  String.eqb (strip (lower alias)) alias.

(** Only the aliases in lower case and without spaces at their ends take
    part in the matching: an ROI matches a list of aliases exactly when
    it matches the normalised aliases of the list, and every normalised
    alias is matched by some ROI name (itself).  An alias with a capital
    letter or a space at an end is never matched. *)
Theorem only_normalised_aliases_are_matched :
  (forall roi aliases,
      matches roi aliases = matches roi (filter normalised aliases))
  /\ (forall roi alias,
        matches roi [alias] = true -> normalised alias = true)
  /\ (forall alias, normalised alias = true -> matches alias [alias] = true).
Proof.
  assert (N : forall roi alias,
             String.eqb (strip (lower roi)) alias = true -> normalised alias = true).
  { intros roi alias H. apply String.eqb_eq in H. subst alias.
    unfold normalised. rewrite lookup_name_idempotent. apply String.eqb_refl. }
  split; [|split].
  - intros roi aliases. unfold matches.
    induction aliases as [|a aliases IH]; [reflexivity|].
    cbn [existsb filter].
    destruct (String.eqb (strip (lower roi)) a) eqn:E.
    + rewrite (N roi a E). cbn [existsb]. rewrite E. reflexivity.
    + cbn [orb]. destruct (normalised a); [cbn [existsb]; rewrite E|]; exact IH.
  - intros roi alias. unfold matches. cbn [existsb]. rewrite orb_false_r.
    apply N.
  - intros alias H. unfold matches. cbn [existsb]. rewrite orb_false_r. exact H.
Qed.

(* --------------------------------------------------------------------- *)
(** *** Reading and writing the alias file *)
(* --------------------------------------------------------------------- *)

(** [s[1:-1]]. *)
Definition inner (s : list ascii) : list ascii := removelast (tl s).

(** [s.split(sep)], for a separator of one character. *)
Fixpoint split (sep : ascii) (s : list ascii) : list (list ascii) :=
  match s with
  | [] => [[]]
  | c :: rest =>
      if Ascii.eqb c sep then [] :: split sep rest
      else match split sep rest with
           | item :: items => (c :: item) :: items
           | [] => [[c]]
           end
  end.

(** [item.replace("'", "")]. *)
Definition remove_quotes (s : list ascii) : list ascii :=
  filter (fun c => negb (Ascii.eqb c "'"%char)) s.

(** [item.replace("'", "").strip(" ")]. *)
Definition format_item (item : list ascii) : string :=
  strip (string_of_list_ascii (remove_quotes item)).

(** The loop body of [get_structure_aliases] on one cell of the first
    row.  A cell that is not text cannot be sliced; what the slicing
    raises is [not_text]: it depends on the type pandas gave the column
    (the scalar of a numeric column, the float of an empty cell in a
    column of text), which the first row does not show. *)
Definition parse_alias_cell (not_text : float -> exn) (c : Pandas.cell)
  : result (list string) :=
  match c with
  | Pandas.Str s =>
      Ok (map format_item (split ","%char (inner (list_ascii_of_string s))))
  | Pandas.Num x => Raise (not_text x)
  end.

(** The alias table in memory: per structure key the list of the first
    row, and the rows after the first, which nothing reads. *)
Record alias_table : Type := {
  entries : list (string * list string);
  other_rows : list Pandas.row
}.

Fixpoint parse_cells (not_text : float -> exn) (keys : list string)
    (first_row : Pandas.row)
  : result (list (string * list string)) :=
  match keys with
  | [] => Ok []
  | key :: keys' =>
      let? names := parse_alias_cell not_text (hd Pandas.NaN first_row) in
      let? rest := parse_cells not_text keys' (tl first_row) in
      Ok ((key, names) :: rest)
  end.

(** [get_structure_aliases], on the table [pd.read_csv] gives. *)
Definition get_structure_aliases (not_text : float -> exn)
    (alias_df : Pandas.DataFrame) : result alias_table :=
  match Pandas.columns alias_df with
  | [] => Ok {| entries := []; other_rows := tl (Pandas.rows alias_df) |}
  | keys =>
      match Pandas.rows alias_df with
      | [] => Raise IndexError
      | first_row :: others =>
          let? parsed := parse_cells not_text keys first_row in
          Ok {| entries := parsed; other_rows := others |}
      end
  end.

(** How Python prints a list of strings that have no quote, no backslash
    and no control character: ['a', 'b']. *)
Definition quoted (s : list ascii) : list ascii := "'"%char :: s ++ ["'"%char].

Fixpoint join_items (items : list (list ascii)) : list ascii :=
  match items with
  | [] => []
  | [item] => item
  | item :: rest => item ++ ","%char :: " "%char :: join_items rest
  end.

Definition python_str (names : list string) : string :=
  string_of_list_ascii
    ("["%char :: join_items (map quoted (map list_ascii_of_string names))
     ++ ["]"%char]).

(** [alias_df.to_csv(file_path, index=False)] followed by [pd.read_csv]:
    the cells of the first row are the printed lists. *)
Definition to_csv (t : alias_table) : Pandas.DataFrame :=
  {| Pandas.columns := map fst (entries t);
     Pandas.rows := map (fun e => Pandas.Str (python_str (snd e))) (entries t)
                    :: other_rows t |}.

Definition select_an_roi : string := "< Select an ROI >".

Fixpoint append_alias (key alias : string) (l : list (string * list string))
  : result (list (string * list string)) :=
  match l with
  | [] => Raise (KeyError key)
  | (k, names) :: rest =>
      if String.eqb k key then Ok ((k, names ++ [alias]) :: rest)
      else let? rest' := append_alias key alias rest in Ok ((k, names) :: rest')
  end.

(** [add_new_structure_alias], from the two selections: the table in
    memory afterwards and the file written, if one is. *)
Definition add_new_structure_alias (alias_select key_select : string)
    (alias_df : alias_table)
  : result (alias_table * option Pandas.DataFrame) :=
  if negb (String.eqb alias_select select_an_roi)
     && negb (String.eqb key_select select_an_roi) then
    let? updated := append_alias key_select (lower alias_select) (entries alias_df) in
    let t := {| entries := updated; other_rows := other_rows alias_df |} in
    Ok (t, Some (to_csv t))
  else Ok (alias_df, None).

(** A character Python prints as it is and that the reader of the file
    does not take for a separator or a quote: printable, and not the
    quote (39), the comma (44) or the backslash (92). *)
Definition plain_char (c : ascii) : bool :=
  let n := nat_of_ascii c in
  (32 <=? n)%nat && (n <=? 126)%nat
  && negb (n =? 39)%nat && negb (n =? 44)%nat && negb (n =? 92)%nat.

Definition plain (s : string) : bool := forallb plain_char (list_ascii_of_string s).

(** What a list of aliases is after it was written and read again. *)
Definition reloaded (names : list string) : list string :=
  match names with
  | [] => [EmptyString]
  | _ => map strip names
  end.


Lemma plain_char_spec c :
  plain_char c = true ->
  Ascii.eqb c "'"%char = false /\ Ascii.eqb c ","%char = false.
Proof.
  destruct c as [[] [] [] [] [] [] [] []]; vm_compute; intros H;
    try discriminate H; split; reflexivity.
Qed.

Lemma split_no_separator sep l :
  forallb (fun c => negb (Ascii.eqb c sep)) l = true -> split sep l = [l].
Proof.
  induction l as [|c l IH]; [reflexivity|].
  cbn [forallb split]. intros H. apply andb_true_iff in H. destruct H as [Hc Hl].
  apply negb_true_iff in Hc. rewrite Hc, (IH Hl). reflexivity.
Qed.

Lemma split_at_separator sep a b :
  forallb (fun c => negb (Ascii.eqb c sep)) a = true ->
  split sep (a ++ sep :: b) = a :: split sep b.
Proof.
  induction a as [|c a IH]; cbn [app forallb split].
  - intros _. rewrite Ascii.eqb_refl. reflexivity.
  - intros H. apply andb_true_iff in H. destruct H as [Hc Ha].
    apply negb_true_iff in Hc. rewrite Hc, (IH Ha). reflexivity.
Qed.

Definition no_comma (item : list ascii) : bool :=
  forallb (fun c => negb (Ascii.eqb c ","%char)) item.

Lemma split_join_items item items :
  forallb no_comma (item :: items) = true ->
  split ","%char (join_items (item :: items))
  = item :: map (cons " "%char) items.
Proof.
  revert item. induction items as [|next items IH]; intros item H.
  - cbn [forallb] in H. rewrite andb_true_r in H.
    exact (split_no_separator _ _ H).
  - cbn [forallb] in H. apply andb_true_iff in H. destruct H as [Hi Hr].
    change (join_items (item :: next :: items))
      with (item ++ ","%char :: " "%char :: join_items (next :: items)).
    rewrite (split_at_separator _ item _ Hi).
    cbn [split]. change (Ascii.eqb " " ",") with false. cbv iota.
    rewrite (IH next Hr). reflexivity.
Qed.

Lemma quoted_no_comma s :
  forallb plain_char s = true -> no_comma (quoted s) = true.
Proof.
  intros H. unfold no_comma, quoted. cbn [forallb].
  rewrite forallb_app. cbn [forallb]. change (Ascii.eqb "'" ",") with false.
  cbn [negb andb]. rewrite andb_true_r.
  apply forallb_forall. intros c Hc. rewrite forallb_forall in H.
  destruct (plain_char_spec c (H c Hc)) as [_ ->]. reflexivity.
Qed.

Lemma remove_quotes_plain s :
  forallb plain_char s = true -> remove_quotes s = s.
Proof.
  intros H. unfold remove_quotes. apply Pandas.filter_id.
  intros c Hc. rewrite forallb_forall in H.
  destruct (plain_char_spec c (H c Hc)) as [-> _]. reflexivity.
Qed.

Lemma remove_quotes_quoted s :
  forallb plain_char s = true -> remove_quotes (quoted s) = s.
Proof.
  intros H. unfold quoted, remove_quotes. cbn [filter].
  change (Ascii.eqb "'" "'") with true. cbn [negb].
  rewrite filter_app. fold (remove_quotes s). rewrite (remove_quotes_plain s H).
  cbn [filter]. change (Ascii.eqb "'" "'") with true. cbn [negb].
  apply app_nil_r.
Qed.

Lemma format_item_quoted s :
  plain s = true -> format_item (quoted (list_ascii_of_string s)) = strip s.
Proof.
  intros H. unfold format_item.
  rewrite (remove_quotes_quoted _ H), string_of_list_ascii_of_string.
  reflexivity.
Qed.

Lemma format_item_spaced s :
  plain s = true ->
  format_item (" "%char :: quoted (list_ascii_of_string s)) = strip s.
Proof.
  intros H. unfold format_item.
  change (remove_quotes (" "%char :: quoted (list_ascii_of_string s)))
    with (" "%char :: remove_quotes (quoted (list_ascii_of_string s))).
  rewrite (remove_quotes_quoted _ H).
  change (string_of_list_ascii (" "%char :: list_ascii_of_string s))
    with (String " " (string_of_list_ascii (list_ascii_of_string s))).
  rewrite string_of_list_ascii_of_string. reflexivity.
Qed.

Lemma inner_bracketed s : inner ("["%char :: s ++ ["]"%char]) = s.
Proof. unfold inner. cbn [tl]. apply removelast_last. Qed.

(** A printed list of plain aliases is read back as the aliases without
    the spaces at their ends; the printed empty list is read back as the
    list of the empty name. *)
Lemma parse_printed_list not_text names :
  forallb plain names = true ->
  parse_alias_cell not_text (Pandas.Str (python_str names)) = Ok (reloaded names).
Proof.
  intros H. unfold parse_alias_cell, python_str.
  rewrite list_ascii_of_string_of_list_ascii, inner_bracketed.
  destruct names as [|name names]; [reflexivity|].
  cbn [map]. rewrite split_join_items.
  - cbn [forallb] in H. apply andb_true_iff in H. destruct H as [Hn Hr].
    cbn [map reloaded]. rewrite (format_item_quoted name Hn). do 2 f_equal.
    rewrite !map_map. apply map_ext_in. intros s Hs.
    rewrite forallb_forall in Hr. exact (format_item_spaced s (Hr s Hs)).
  - change (quoted (list_ascii_of_string name)
            :: map quoted (map list_ascii_of_string names))
      with (map quoted (map list_ascii_of_string (name :: names))).
    apply forallb_forall. intros item Hitem.
    rewrite map_map in Hitem. apply in_map_iff in Hitem.
    destruct Hitem as [s [<- Hs]]. rewrite forallb_forall in H.
    exact (quoted_no_comma _ (H s Hs)).
Qed.


(** Every alias of every structure is plain. *)
Definition plain_entries (l : list (string * list string)) : bool :=
  forallb (fun e => forallb plain (snd e)) l.

Definition reloaded_entries (l : list (string * list string))
  : list (string * list string) :=
  map (fun e => (fst e, reloaded (snd e))) l.

Lemma parse_cells_printed not_text l :
  plain_entries l = true ->
  parse_cells not_text (map fst l)
    (map (fun e => Pandas.Str (python_str (snd e))) l)
  = Ok (reloaded_entries l).
Proof.
  induction l as [|[key names] l IH]; [reflexivity|].
  cbn [plain_entries forallb fst snd]. intros H.
  apply andb_true_iff in H. destruct H as [Hn Hl].
  cbn [map parse_cells hd tl fst snd].
  rewrite (parse_printed_list not_text names Hn). cbn [rbind].
  rewrite (IH Hl). reflexivity.
Qed.

Lemma to_csv_read_back not_text t :
  plain_entries (entries t) = true ->
  get_structure_aliases not_text (to_csv t)
  = Ok {| entries := reloaded_entries (entries t);
          other_rows := other_rows t |}.
Proof.
  revert t. intros [l others] H. unfold get_structure_aliases, to_csv.
  cbn [entries other_rows Pandas.columns Pandas.rows] in *.
  destruct l as [|e l]; [reflexivity|].
  change (map fst (e :: l)) with (fst e :: map fst l).
  cbv iota.
  change (fst e :: map fst l) with (map fst (e :: l)).
  rewrite (parse_cells_printed not_text (e :: l) H). reflexivity.
Qed.

(** Writing the alias table and reading it again gives the table back
    with every alias stripped of the spaces at its ends, as long as every
    alias is plain: made of printable ASCII characters other than the
    quote, the comma and the backslash.  A structure without alias comes
    back with the empty name as its only alias.  A file with keys and no
    row raises [IndexError]. *)
Theorem a_written_alias_table_is_read_back not_text :
  (forall t,
      plain_entries (entries t) = true ->
      get_structure_aliases not_text (to_csv t)
      = Ok {| entries := reloaded_entries (entries t);
              other_rows := other_rows t |})
  /\ (forall key others,
        get_structure_aliases not_text
          (to_csv {| entries := [(key, [])]; other_rows := others |})
        = Ok {| entries := [(key, [EmptyString])]; other_rows := others |})
  /\ (forall key keys,
        get_structure_aliases not_text
          {| Pandas.columns := key :: keys; Pandas.rows := [] |}
        = Raise IndexError).
Proof.
  split; [exact (to_csv_read_back not_text)|].
  split; reflexivity.
Qed.

Lemma append_alias_found key alias l names :
  dict_get l key = Ok names ->
  exists l',
    append_alias key alias l = Ok l'
    /\ dict_get l' key = Ok (names ++ [alias])
    /\ map fst l' = map fst l
    /\ (forall k, k <> key -> dict_get l' k = dict_get l k)
    /\ (plain_entries l = true -> plain alias = true -> plain_entries l' = true).
Proof.
  induction l as [|[k ns] l IH]; cbn [dict_get append_alias]; [discriminate|].
  destruct (String.eqb_spec k key) as [->|Hk].
  - intros H. injection H as ->. eexists. split; [reflexivity|].
    cbn [dict_get map fst]. rewrite String.eqb_refl.
    split; [reflexivity|]. split; [reflexivity|]. split.
    + intros k' Hk'. destruct (String.eqb_spec key k'); [congruence | reflexivity].
    + cbn [plain_entries forallb snd]. intros H Ha.
      apply andb_true_iff in H. destruct H as [H1 H2].
      rewrite forallb_app, H1. cbn [forallb]. rewrite Ha. exact H2.
  - intros H. destruct (IH H) as [l' [E [G [F [O P]]]]].
    rewrite E. cbn [rbind]. eexists. split; [reflexivity|].
    cbn [dict_get map fst].
    destruct (String.eqb_spec k key) as [|_]; [contradiction|].
    split; [exact G|]. split; [rewrite F; reflexivity|]. split.
    + intros k' Hk'. rewrite (O k' Hk'). reflexivity.
    + cbn [plain_entries forallb snd]. intros H' Ha.
      apply andb_true_iff in H'. destruct H' as [H1 H2].
      rewrite H1. exact (P H2 Ha).
Qed.

Lemma dict_get_reloaded l key names :
  dict_get l key = Ok names ->
  dict_get (reloaded_entries l) key = Ok (reloaded names).
Proof.
  induction l as [|[k ns] l IH]; cbn [dict_get reloaded_entries map fst snd];
    [discriminate|].
  destruct (String.eqb k key); [|exact IH].
  intros H. injection H as ->. reflexivity.
Qed.

Lemma reloaded_last names alias :
  In (strip alias) (reloaded (names ++ [alias])).
Proof.
  unfold reloaded. destruct (names ++ [alias]) as [|x l] eqn:E.
  - destruct names; discriminate E.
  - rewrite <- E. apply in_map. apply in_or_app. right. left. reflexivity.
Qed.

(** Defining an alias makes the ROI match at the next load, for plain
    names: when an ROI and a structure key are selected (neither is the
    placeholder of the select box), and the aliases of the table and the
    lower-cased ROI name are plain (printable ASCII characters other than
    the quote, the comma and the backslash), the lower-cased ROI name is
    appended to the aliases of the key and the table is written; read
    again, the table has the aliases of the key with the name among them,
    so that the ROI matches the key. *)
Theorem a_defined_alias_matches_after_reload roi key t names :
  roi <> select_an_roi -> key <> select_an_roi ->
  dict_get (entries t) key = Ok names ->
  plain_entries (entries t) = true ->
  plain (lower roi) = true ->
  exists t' file loaded,
    add_new_structure_alias roi key t = Ok (t', Some file)
    /\ dict_get (entries t') key = Ok (names ++ [lower roi])
    /\ (forall not_text, get_structure_aliases not_text file = Ok loaded)
    /\ dict_get (entries loaded) key = Ok (reloaded (names ++ [lower roi]))
    /\ matches roi (reloaded (names ++ [lower roi])) = true.
Proof.
  intros Hroi Hkey Hget Hplain Hname. unfold add_new_structure_alias.
  destruct (String.eqb_spec roi select_an_roi) as [|_]; [contradiction|].
  destruct (String.eqb_spec key select_an_roi) as [|_]; [contradiction|].
  cbn [negb andb].
  destruct (append_alias_found key (lower roi) (entries t) names Hget)
    as [l' [E [G [_ [_ P]]]]].
  rewrite E. cbn [rbind].
  eexists. eexists. eexists. split; [reflexivity|].
  cbn [entries]. split; [exact G|]. split.
  - intros not_text. apply to_csv_read_back. cbn [entries].
    exact (P Hplain Hname).
  - cbn [entries]. split; [apply dict_get_reloaded; exact G|].
    apply matches_spec. apply reloaded_last.
Qed.

(** An alias is defined only when both selections are made, and only for
    the selected key: with the placeholder in either select box the table
    is unchanged and nothing is written; otherwise the keys stay and the
    aliases of every other key stay.  Until the table is read again the
    new alias is the lower-cased name as it is, so that, if the ROI did
    not match before, it matches exactly when its name has no space at
    its ends. *)
Theorem an_alias_is_defined_for_the_selected_key_only roi key t :
  (roi = select_an_roi \/ key = select_an_roi ->
   add_new_structure_alias roi key t = Ok (t, None))
  /\ (forall t' file,
        add_new_structure_alias roi key t = Ok (t', Some file) ->
        map fst (entries t') = map fst (entries t)
        /\ (forall k, k <> key ->
              dict_get (entries t') k = dict_get (entries t) k)
        /\ exists names,
             dict_get (entries t) key = Ok names
             /\ dict_get (entries t') key = Ok (names ++ [lower roi])
             /\ matches roi (names ++ [lower roi])
                = matches roi names
                  || String.eqb (strip (lower roi)) (lower roi)).
Proof.
  unfold add_new_structure_alias. split.
  - intros [->| ->]; [reflexivity|].
    rewrite String.eqb_refl. cbn [negb]. rewrite andb_false_r. reflexivity.
  - intros t' file.
    destruct (negb (String.eqb roi select_an_roi)
              && negb (String.eqb key select_an_roi)); [|discriminate].
    destruct (dict_get (entries t) key) as [names|e] eqn:G.
    + destruct (append_alias_found key (lower roi) (entries t) names G)
        as [l' [E [G' [F [O _]]]]].
      rewrite E. cbn [rbind]. intros H. injection H as <- _. cbn [entries].
      split; [exact F|]. split; [exact O|].
      exists names. split; [reflexivity|]. split; [exact G'|].
      unfold matches. rewrite existsb_app. cbn [existsb].
      rewrite orb_false_r. reflexivity.
    + assert (A : append_alias key (lower roi) (entries t) = Raise (KeyError key)).
      { clear - G. induction (entries t) as [|[k ns] l IH];
          cbn [dict_get append_alias] in *; [reflexivity|].
        destruct (String.eqb k key); [discriminate|].
        rewrite (IH G). reflexivity. }
      rewrite A. discriminate.
Qed.


(** An alias table with one structure, and the ROI name of a plan. *)
Definition liver_table : alias_table :=
  {| entries := [("Liver", ["liver"; "hepatic"]); ("Heart", ["heart"])];
     other_rows := [] |}.

Lemma a_written_alias_table_is_read_back_witness :
  get_structure_aliases (fun _ => IndexError) (to_csv liver_table)
  = Ok liver_table.
Proof.
  exact (proj1 (a_written_alias_table_is_read_back (fun _ => IndexError))
           liver_table eq_refl).
Defined.

Lemma a_defined_alias_matches_after_reload_witness :
  exists t' file loaded,
    add_new_structure_alias "Liver_PTV " "Liver" liver_table = Ok (t', Some file)
    /\ dict_get (entries t') "Liver" = Ok (["liver"; "hepatic"] ++ [lower "Liver_PTV "])
    /\ (forall not_text, get_structure_aliases not_text file = Ok loaded)
    /\ dict_get (entries loaded) "Liver"
       = Ok (reloaded (["liver"; "hepatic"] ++ [lower "Liver_PTV "]))
    /\ matches "Liver_PTV " (reloaded (["liver"; "hepatic"] ++ [lower "Liver_PTV "]))
       = true.
Proof.
  apply (a_defined_alias_matches_after_reload "Liver_PTV " "Liver" liver_table
           ["liver"; "hepatic"]);
    [discriminate | discriminate | reflexivity | reflexivity | reflexivity].
Defined.

(** A name with a comma is not plain: written and read again it is split
    at the comma, and the ROI does not match the key it was defined for. *)
Example a_name_with_a_comma_is_split :
  exists t' file loaded names,
    add_new_structure_alias "Lung, Lt" "Liver" liver_table = Ok (t', Some file)
    /\ get_structure_aliases (fun _ => IndexError) file = Ok loaded
    /\ dict_get (entries loaded) "Liver" = Ok names
    /\ names = ["liver"; "hepatic"; "lung"; "lt"]
    /\ matches "Lung, Lt" names = false.
Proof. do 4 eexists. repeat split. Qed.

Lemma an_alias_is_defined_for_the_selected_key_only_witness :
  add_new_structure_alias "Liver_PTV " select_an_roi liver_table
  = Ok (liver_table, None).
Proof.
  exact (proj1 (an_alias_is_defined_for_the_selected_key_only
                  "Liver_PTV " select_an_roi liver_table)
           (or_intror eq_refl)).
Defined.

Lemma only_normalised_aliases_are_matched_witness :
  matches "LIVER" ["Liver"; "liver "] = matches "LIVER" [].
Proof.
  exact (proj1 only_normalised_aliases_are_matched "LIVER" ["Liver"; "liver "]).
Defined.


End Aliases.

(* ===================================================================== *)
(** ** The uploaded files of a patient *)
(* ===================================================================== *)

Module PatientFiles.

Unset Implicit Arguments.

(** [sub in s], for strings. *)
Fixpoint contains (sub s : string) : bool :=
  if String.prefix sub s then true
  else match s with
       | EmptyString => false
       | String _ rest => contains sub rest
       end.

(** [d[k] = v]: the value of a key that is there is replaced, a new key
    goes to the end. *)
Fixpoint dict_set {V} (d : list (string * V)) (k : string) (v : V)
  : list (string * V) :=
  match d with
  | [] => [(k, v)]
  | (k', v') :: rest =>
      if String.eqb k' k then (k, v) :: rest else (k', v') :: dict_set rest k v
  end.

Section Uploads.

(** An uploaded file and its name. *)
Variable File : Type.
Variable name : File -> string.

(** The body of the loop of [get_patient_files]. *)
Definition store (files : list (string * File)) (dicomFile : File)
  : list (string * File) :=
  if contains "RP" (name dicomFile) then dict_set files "rp" dicomFile
  else if contains "RD" (name dicomFile) then dict_set files "rd" dicomFile
  else if contains "RS" (name dicomFile) then dict_set files "rs" dicomFile
  else if contains "CT" (name dicomFile) then dict_set files "ct" dicomFile
  else files.

Definition get_patient_files (dicomFiles : list File) : list (string * File) :=
  fold_left store dicomFiles [].

(** The key a file is stored under, if it is stored. *)
Definition kind (dicomFile : File) : option string :=
  if contains "RP" (name dicomFile) then Some "rp"
  else if contains "RD" (name dicomFile) then Some "rd"
  else if contains "RS" (name dicomFile) then Some "rs"
  else if contains "CT" (name dicomFile) then Some "ct"
  else None.

(** The file is the last of the uploads that is stored under the key. *)
Definition last_of_kind (k : string) (dicomFiles : list File) (f : File) : Prop :=
  exists before after,
    dicomFiles = before ++ f :: after
    /\ kind f = Some k
    /\ Forall (fun g => kind g <> Some k) after.

Lemma dict_get_set {V} (d : list (string * V)) k v k' :
  dict_get (dict_set d k v) k'
  = if String.eqb k k' then Ok v else dict_get d k'.
Proof.
  induction d as [|[k0 v0] d IH]; cbn [dict_set dict_get].
  - destruct (String.eqb k k'); reflexivity.
  - destruct (String.eqb_spec k0 k) as [->|Hk]; cbn [dict_get].
    + destruct (String.eqb k k'); reflexivity.
    + rewrite IH. destruct (String.eqb_spec k0 k') as [->|Hk'].
      * destruct (String.eqb_spec k k'); [congruence | reflexivity].
      * reflexivity.
Qed.

Lemma dict_get_store files f k :
  dict_get (store files f) k
  = match kind f with
    | Some k' => if String.eqb k' k then Ok f else dict_get files k
    | None => dict_get files k
    end.
Proof.
  unfold store, kind.
  destruct (contains "RP" (name f)); [apply dict_get_set|].
  destruct (contains "RD" (name f)); [apply dict_get_set|].
  destruct (contains "RS" (name f)); [apply dict_get_set|].
  destruct (contains "CT" (name f)); [apply dict_get_set | reflexivity].
Qed.

Lemma kind_dec f k : {kind f = Some k} + {kind f <> Some k}.
Proof.
  destruct (kind f) as [k'|]; [|right; discriminate].
  destruct (String.string_dec k' k) as [->|N]; [left; reflexivity|].
  right. congruence.
Qed.

Lemma get_patient_files_snoc dicomFiles f k :
  dict_get (get_patient_files (dicomFiles ++ [f])) k
  = if kind_dec f k then Ok f else dict_get (get_patient_files dicomFiles) k.
Proof.
  unfold get_patient_files. rewrite fold_left_app. cbn [fold_left].
  rewrite dict_get_store. destruct (kind_dec f k) as [E|N].
  - rewrite E, String.eqb_refl. reflexivity.
  - destruct (kind f) as [k'|]; [|reflexivity].
    destruct (String.eqb_spec k' k); [congruence | reflexivity].
Qed.

Lemma last_of_kind_snoc k dicomFiles g f :
  last_of_kind k (dicomFiles ++ [g]) f
  <-> (kind g = Some k /\ f = g)
      \/ (kind g <> Some k /\ last_of_kind k dicomFiles f).
Proof.
  split.
  - intros [before [after [E [Hk Hafter]]]].
    destruct after as [|a after'] using rev_ind.
    + apply app_inj_tail in E. destruct E as [_ <-]. left. auto.
    + clear IHafter'. rewrite app_comm_cons, app_assoc in E.
      apply app_inj_tail in E. destruct E as [-> <-].
      apply Forall_app in Hafter. destruct Hafter as [H1 H2].
      right. split; [inversion H2; assumption|].
      exists before, after'. auto.
  - intros [[Hk ->]|[Hg [before [after [-> [Hk Hafter]]]]]].
    + exists dicomFiles, []. auto.
    + exists before, (after ++ [g]). rewrite <- app_assoc. split; [reflexivity|].
      split; [exact Hk|]. apply Forall_app. split; [exact Hafter|].
      constructor; [exact Hg | constructor].
Qed.

(** The dictionary of [get_patient_files] holds, under each key, the last
    uploaded file that is stored under it, and nothing when no file is:
    the key is rp for a name with RP in it, else rd for a name with RD,
    else rs for RS, else ct for CT; a file with none of them is ignored.
    So a file whose name has RP in it is never taken for the dose or the
    structure file, and the plan file is there exactly when some name has
    RP in it. *)
Theorem the_last_file_of_a_kind_is_kept dicomFiles :
  (forall k f,
      dict_get (get_patient_files dicomFiles) k = Ok f
      <-> last_of_kind k dicomFiles f)
  /\ (forall k f,
        dict_get (get_patient_files dicomFiles) k = Ok f ->
        In k ["rp"; "rd"; "rs"; "ct"]
        /\ (k <> "rp" -> contains "RP" (name f) = false))
  /\ ((exists f, dict_get (get_patient_files dicomFiles) "rp" = Ok f)
      <-> exists f, In f dicomFiles /\ contains "RP" (name f) = true).
Proof.
  assert (A : forall k f,
             dict_get (get_patient_files dicomFiles) k = Ok f
             <-> last_of_kind k dicomFiles f).
  { induction dicomFiles as [|g fs IH] using rev_ind; intros k f.
    - cbn. split; [discriminate|].
      intros [before [after [E _]]]. destruct before; discriminate E.
    - rewrite get_patient_files_snoc, last_of_kind_snoc.
      destruct (kind_dec g k) as [E|N].
      + split.
        * intros H. injection H as <-. left. auto.
        * intros [[_ ->]|[N _]]; [reflexivity | contradiction].
      + rewrite IH. split; [right; auto|].
        intros [[E _]|[_ H]]; [contradiction | exact H]. }
  assert (B : forall k f, kind f = Some k ->
                In k ["rp"; "rd"; "rs"; "ct"]
                /\ (k <> "rp" -> contains "RP" (name f) = false)).
  { intros k f. unfold kind.
    destruct (contains "RP" (name f)).
    { intros H; injection H as <-. split; [simpl; auto | congruence]. }
    destruct (contains "RD" (name f)).
    { intros H; injection H as <-. split; [simpl; auto | reflexivity]. }
    destruct (contains "RS" (name f)).
    { intros H; injection H as <-. split; [simpl; auto | reflexivity]. }
    destruct (contains "CT" (name f)); [|discriminate].
    intros H; injection H as <-. split; [simpl; auto | reflexivity]. }
  split; [exact A|]. split.
  - intros k f H. apply A in H. destruct H as [_ [_ [_ [Hk _]]]].
    exact (B k f Hk).
  - split.
    + intros [f H]. apply A in H. destruct H as [before [after [-> [Hk _]]]].
      exists f. split; [apply in_or_app; right; left; reflexivity|].
      unfold kind in Hk. destruct (contains "RP" (name f)); [reflexivity|].
      destruct (contains "RD" (name f)); [discriminate|].
      destruct (contains "RS" (name f)); [discriminate|].
      destruct (contains "CT" (name f)); discriminate.
    + intros [f [Hin Hrp]].
      assert (Hk : kind f = Some "rp") by (unfold kind; rewrite Hrp; reflexivity).
      clear Hrp A B. induction dicomFiles as [|g fs IH] using rev_ind;
        [contradiction|].
      destruct (kind_dec g "rp") as [E|N].
      * exists g. rewrite get_patient_files_snoc.
        destruct (kind_dec g "rp"); [reflexivity | contradiction].
      * apply in_app_or in Hin. destruct Hin as [Hin|[->|[]]]; [|contradiction].
        destruct (IH Hin) as [f' Hf']. exists f'.
        rewrite get_patient_files_snoc.
        destruct (kind_dec g "rp"); [contradiction | exact Hf'].
Qed.

End Uploads.

Lemma the_last_file_of_a_kind_is_kept_witness :
  dict_get (get_patient_files string (fun n => n)
              ["RP.1.dcm"; "RD.1.dcm"; "RP.RD.2.dcm"; "notes.txt"]) "rp"
  = Ok "RP.RD.2.dcm"
  /\ dict_get (get_patient_files string (fun n => n)
                 ["RP.1.dcm"; "RD.1.dcm"; "RP.RD.2.dcm"; "notes.txt"]) "rd"
     = Ok "RD.1.dcm".
Proof.
  split;
    apply (proj1 (the_last_file_of_a_kind_is_kept string (fun n => n)
                    ["RP.1.dcm"; "RD.1.dcm"; "RP.RD.2.dcm"; "notes.txt"])).
  - exists ["RP.1.dcm"; "RD.1.dcm"], ["notes.txt"].
    split; [reflexivity|]. split; [reflexivity|].
    constructor; [discriminate | constructor].
  - exists ["RP.1.dcm"], ["RP.RD.2.dcm"; "notes.txt"].
    split; [reflexivity|]. split; [reflexivity|].
    constructor; [discriminate|]. constructor; [discriminate | constructor].
Defined.

End PatientFiles.
